(** * netflix-clone: the like store and the slider engine

    A shallow embedding of the class [MemoryLikeStorage] of
    [src/components/LikeManager.ts] and of the class [Slider] (the module the
    page imports as [./components/Slider.js]), with the properties of the
    carousel specification stated over it.

    Conventions.
    - JavaScript numbers that the code only ever uses as integers
      ([currentIndex], [cardCount], [visible], [step], array lengths, like
      counts) are [Z]; the embedding is exact as long as they stay inside the
      range where doubles represent integers exactly, and a statement whose
      sums or products could leave that range assumes [Js.safe] of them.
    - [%] on numbers is the truncated remainder [Z.rem] (the sign follows the
      dividend); [Math.floor (a / b)] on integers is [Z.div] and
      [Math.ceil (a / b)] is its mirror image, for a divisor different from 0.
      Division by 0 yields [Infinity], [-Infinity] or [NaN]: the two numbers
      the slider derives by a division ([totalPages], [currentPage]) are
      therefore [JsNum]s.
    - The options are integers, as the [parseInt] calls of the page
      assembly deliver them ([NaN] left aside).
    - DOM nodes are reduced to the data the code reads and writes on them.
      Pixel geometry ([_measure], the [translateX] of [_goTo], inline styles)
      is presentation that no branch of the code reads; it is left out. *)

From Stdlib Require Import ZArith QArith Qround String DecimalString Lia.
From stdpp Require Import gmap strings list.

Close Scope Q_scope.
Local Open Scope Z_scope.

(** ** JavaScript numbers *)

Module Js.

(** A number that is an integer, an infinity or NaN. *)
Inductive JsNum : Type :=
  | Fin (z : Z)
  | PosInf
  | NegInf
  | NaN.

(** [Number.MAX_SAFE_INTEGER], [2^53 - 1].  A JavaScript number is an
    IEEE-754 double: a sum, a difference or a product of integers is the
    integer itself when the operands and the result lie within this bound,
    and is rounded beyond it.  The embedding computes in [Z]; a statement
    whose arithmetic could leave the bound carries [safe] as a hypothesis. *)
Definition MAX_SAFE_INTEGER : Z := 9007199254740991.

(** [Number.isSafeInteger(z)] for an integer [z]. *)
Definition safe (z : Z) : Prop :=
  - MAX_SAFE_INTEGER ≤ z ≤ MAX_SAFE_INTEGER.

(** [a % b] on integers. *)
Definition rem (a b : Z) : JsNum :=
  if b =? 0 then NaN else Fin (Z.rem a b).

(** [Math.floor(x / b)] for an integer divisor [b]. *)
Definition floor_div (x : JsNum) (b : Z) : JsNum :=
  match x with
  | Fin a =>
      if b =? 0 then
        (if a =? 0 then NaN else if 0 <? a then PosInf else NegInf)
      else Fin (a / b)
  | PosInf => if 0 <=? b then PosInf else NegInf
  | NegInf => if 0 <=? b then NegInf else PosInf
  | NaN => NaN
  end.

(** [Math.ceil(a / b)] on integers. *)
Definition ceil_div (a b : Z) : JsNum :=
  if b =? 0 then
    (if a =? 0 then NaN else if 0 <? a then PosInf else NegInf)
  else Fin (- ((- a) / b)).

(** [x + k] for an integer [k]. *)
Definition add (x : JsNum) (k : Z) : JsNum :=
  match x with
  | Fin a => Fin (a + k)
  | other => other
  end.

(** [i === x] for an integer [i]. *)
Definition strict_eq (i : Z) (x : JsNum) : bool :=
  match x with
  | Fin a => i =? a
  | _ => false
  end.

(** Decimal rendering of an integer, as [Number.prototype.toString]. *)
Definition string_of_Z (z : Z) : string :=
  NilZero.string_of_int (Z.to_int z).

(** [String(x)], the conversion a template literal applies. *)
Definition toString (x : JsNum) : string :=
  match x with
  | Fin a => string_of_Z a
  | PosInf => "Infinity"
  | NegInf => "-Infinity"
  | NaN => "NaN"
  end.

End Js.

(** ** The like store: [MemoryLikeStorage] *)

Module MemoryLikeStorage.

Record t : Type := mk {
  likes : gset string;
  likeCounts : gmap string Z
}.

Definition empty : t := {| likes := ∅; likeCounts := ∅ |}.

(** [this.likeCounts.get(contentId) || 0] *)
Definition getLikeCount (contentId : string) (st : t) : Z :=
  default 0 (likeCounts st !! contentId).

Definition isLiked (contentId : string) (st : t) : bool :=
  bool_decide (contentId ∈ likes st).

(** [toggle] returns the new liked flag with the updated store. *)
Definition toggle (contentId : string) (st : t) : bool * t :=
  if isLiked contentId st then
    (false,
     {| likes := likes st ∖ {[contentId]};
        likeCounts := <[contentId := Z.max 0 (getLikeCount contentId st - 1)]>
                        (likeCounts st) |})
  else
    (true,
     {| likes := {[contentId]} ∪ likes st;
        likeCounts := <[contentId := getLikeCount contentId st + 1]>
                        (likeCounts st) |}).

(** [Math.random] is an oracle: the [n]-th call of the run returns
    [random n].  The product [r * 490] is a double multiplication, so the
    exact product goes through the rounding [round] before [Math.floor]. *)
Section RandomCounts.

Variable random : nat → Q.
Variable round : Q → Q.

(** [Math.floor(Math.random() * 490) + 10] at the draw [r]. *)
Definition randomCount (r : Q) : Z :=
  Qfloor (round (r * 490)%Q) + 10.

(** One iteration of the [forEach]: the store and the number of draws
    consumed so far. *)
Definition initializeOne (acc : t * nat) (id : string) : t * nat :=
  let '(st, n) := acc in
  match likeCounts st !! id with
  | Some _ => (st, n)
  | None =>
      ({| likes := likes st;
          likeCounts := <[id := randomCount (random n)]> (likeCounts st) |},
       S n)
  end.

Definition initializeRandomCounts (contentIds : list string) (acc : t * nat)
  : t * nat :=
  fold_left initializeOne contentIds acc.

End RandomCounts.

End MemoryLikeStorage.

(** ** The slider engine: [Slider] *)

Module Slider.

(** An original card of the rail; the engine only clones it. *)
Definition HTMLElement : Type := string.

Record SliderOptions : Type := mkOptions {
  visible : Z;
  step : Z;
  infinite : bool;
  duration : Z;
  easing : string;
  label : string
}.

(** [Partial<SliderOptions>]: [None] is an absent key. *)
Record PartialOptions : Type := mkPartial {
  opt_visible : option Z;
  opt_step : option Z;
  opt_infinite : option bool;
  opt_duration : option Z;
  opt_easing : option string;
  opt_label : option string
}.

Definition noOptions : PartialOptions :=
  mkPartial None None None None None None.

(** The object spread of the constructor. *)
Definition withDefaults (opts : PartialOptions) : SliderOptions :=
  {| visible := default 6 (opt_visible opts);
     step := default 3 (opt_step opts);
     infinite := default true (opt_infinite opts);
     duration := default 450 (opt_duration opts);
     easing := default "ease" (opt_easing opts);
     label := default "slider" (opt_label opts) |}.

(** A clone made by the engine, with the two [dataset] tags it receives. *)
Record Card : Type := mkCard {
  source : HTMLElement;
  originalIndex : Z;
  position : Z
}.

(** What the track holds: moved originals (finite mode) or clones. *)
Inductive Child : Type :=
  | Original (e : HTMLElement)
  | Clone (c : Card).

(** The section element handed to the constructor: the children of its
    [.card-row], or [None] when [querySelector] finds no such element. *)
Definition SectionElement : Type := option (list HTMLElement).

(** The fields of a [Slider].  [track] stands for both [slider] and [track],
    created together; a button is its [disabled] flag, the page indicator its
    [textContent], [dots] the [active] class of each dot; [bound] records
    that [_bind] attached the listeners, [attached] that the section holds
    [_sliderInstance], [resizePending] that the debounce timer is armed. *)
Record t : Type := mk {
  options : SliderOptions;
  originalCards : list HTMLElement;
  cardCount : Z;
  totalPages : Js.JsNum;
  track : option (list Child);
  allCards : list Card;
  prevBtn : option bool;
  nextBtn : option bool;
  pageIndicator : option string;
  dots : option (list bool);
  resizePending : bool;
  bound : bool;
  attached : bool;
  currentIndex : Z;
  isMoving : bool
}.

(** The field initialisers of the class, with the merged options. *)
Definition fresh (o : SliderOptions) : t :=
  {| options := o; originalCards := []; cardCount := 0;
     totalPages := Js.Fin 0; track := None; allCards := [];
     prevBtn := None; nextBtn := None; pageIndicator := None; dots := None;
     resizePending := false; bound := false; attached := false;
     currentIndex := 0; isMoving := false |}.

Definition set_cards (cs : list HTMLElement) (n : Z) (s : t) : t :=
  mk (options s) cs n (totalPages s) (track s) (allCards s) (prevBtn s)
     (nextBtn s) (pageIndicator s) (dots s) (resizePending s) (bound s)
     (attached s) (currentIndex s) (isMoving s).

Definition set_totalPages (n : Js.JsNum) (s : t) : t :=
  mk (options s) (originalCards s) (cardCount s) n (track s) (allCards s)
     (prevBtn s) (nextBtn s) (pageIndicator s) (dots s) (resizePending s)
     (bound s) (attached s) (currentIndex s) (isMoving s).

Definition set_track (tr : option (list Child)) (s : t) : t :=
  mk (options s) (originalCards s) (cardCount s) (totalPages s) tr
     (allCards s) (prevBtn s) (nextBtn s) (pageIndicator s) (dots s)
     (resizePending s) (bound s) (attached s) (currentIndex s) (isMoving s).

Definition set_allCards (cs : list Card) (s : t) : t :=
  mk (options s) (originalCards s) (cardCount s) (totalPages s) (track s) cs
     (prevBtn s) (nextBtn s) (pageIndicator s) (dots s) (resizePending s)
     (bound s) (attached s) (currentIndex s) (isMoving s).

Definition set_buttons (p n : option bool) (s : t) : t :=
  mk (options s) (originalCards s) (cardCount s) (totalPages s) (track s)
     (allCards s) p n (pageIndicator s) (dots s) (resizePending s) (bound s)
     (attached s) (currentIndex s) (isMoving s).

Definition set_pageIndicator (p : option string) (s : t) : t :=
  mk (options s) (originalCards s) (cardCount s) (totalPages s) (track s)
     (allCards s) (prevBtn s) (nextBtn s) p (dots s) (resizePending s)
     (bound s) (attached s) (currentIndex s) (isMoving s).

Definition set_dots (d : option (list bool)) (s : t) : t :=
  mk (options s) (originalCards s) (cardCount s) (totalPages s) (track s)
     (allCards s) (prevBtn s) (nextBtn s) (pageIndicator s) d
     (resizePending s) (bound s) (attached s) (currentIndex s) (isMoving s).

Definition set_resizePending (b : bool) (s : t) : t :=
  mk (options s) (originalCards s) (cardCount s) (totalPages s) (track s)
     (allCards s) (prevBtn s) (nextBtn s) (pageIndicator s) (dots s) b
     (bound s) (attached s) (currentIndex s) (isMoving s).

Definition set_bound (b : bool) (s : t) : t :=
  mk (options s) (originalCards s) (cardCount s) (totalPages s) (track s)
     (allCards s) (prevBtn s) (nextBtn s) (pageIndicator s) (dots s)
     (resizePending s) b (attached s) (currentIndex s) (isMoving s).

Definition set_attached (b : bool) (s : t) : t :=
  mk (options s) (originalCards s) (cardCount s) (totalPages s) (track s)
     (allCards s) (prevBtn s) (nextBtn s) (pageIndicator s) (dots s)
     (resizePending s) (bound s) b (currentIndex s) (isMoving s).

Definition set_currentIndex (i : Z) (s : t) : t :=
  mk (options s) (originalCards s) (cardCount s) (totalPages s) (track s)
     (allCards s) (prevBtn s) (nextBtn s) (pageIndicator s) (dots s)
     (resizePending s) (bound s) (attached s) i (isMoving s).

Definition set_isMoving (b : bool) (s : t) : t :=
  mk (options s) (originalCards s) (cardCount s) (totalPages s) (track s)
     (allCards s) (prevBtn s) (nextBtn s) (pageIndicator s) (dots s)
     (resizePending s) (bound s) (attached s) (currentIndex s) b.

(** How a method ends: it returns, it throws with the object as mutated so
    far, or it never returns. *)
Inductive Outcome : Type :=
  | Returned (s : t)
  | Threw (message : string) (s : t)
  | Diverged.

Definition andThen (o : Outcome) (k : t → Outcome) : Outcome :=
  match o with
  | Returned s => k s
  | other => other
  end.

Notation "o >>> k" := (andThen o k) (at level 50, left associativity).

(** The object an event handler leaves behind, whether it returned or threw;
    [s0] is the object before the call. *)
Definition after (o : Outcome) (s0 : t) : t :=
  match o with
  | Returned s | Threw _ s => s
  | Diverged => s0
  end.

Definition _findElements (section : SectionElement) (s : t) : Outcome :=
  match section with
  | None => Threw "Card container (.card-row) not found" s
  | Some children =>
      let s1 := set_cards children (Z.of_nat (length children)) s in
      if cardCount s1 =? 0 then Threw "No cards found" s1
      else
        Returned
          (set_totalPages (Js.ceil_div (cardCount s1) (step (options s1))) s1)
  end.

(** The loop of [_buildDots]: one inactive dot per page; it never ends when
    [totalPages] is [Infinity]. *)
Definition _buildDots (s : t) : Outcome :=
  match dots s with
  | None => Returned s
  | Some _ =>
      match totalPages s with
      | Js.Fin n => Returned (set_dots (Some (replicate (Z.to_nat n) false)) s)
      | Js.PosInf => Diverged
      | Js.NegInf | Js.NaN => Returned (set_dots (Some []) s)
      end
  end.

Definition _buildControls (s : t) : Outcome :=
  _buildDots
    (set_dots (Some [])
       (set_pageIndicator (Some EmptyString) (set_buttons (Some false) (Some false) s))).

Definition _buildDOM (s : t) : Outcome :=
  _buildControls (set_track (Some []) s).

(** The body shared by the two cloning loops, at logical position [i]:
    [originalCards[i % cardCount].cloneNode(true)], the two tags,
    [track.appendChild] and [allCards.push].  Reading past the array or
    through a null track is a [TypeError]. *)
Definition cloneCard (s : t) (i : Z) : option Card :=
  match Js.rem i (cardCount s) with
  | Js.Fin oi =>
      if oi <? 0 then None
      else (λ e, mkCard e oi i) <$> originalCards s !! Z.to_nat oi
  | _ => None
  end.

Definition appendClone (i : Z) (s : t) : Outcome :=
  match cloneCard s i with
  | None => Threw "TypeError" s
  | Some card =>
      match track s with
      | None => Threw "TypeError" s
      | Some children =>
          Returned
            (set_allCards (allCards s ++ [card])
               (set_track (Some (children ++ [Clone card])) s))
      end
  end.

Fixpoint appendClones (indices : list Z) (s : t) : Outcome :=
  match indices with
  | [] => Returned s
  | i :: rest => appendClone i s >>> appendClones rest
  end.

(** The values of [base + i] for [i = 0, ..., count - 1]. *)
Definition upto (base count : Z) : list Z :=
  map (λ i, base + Z.of_nat i) (seq 0 (Z.to_nat count)).

Definition _createInfiniteLoop (s : t) : Outcome :=
  if negb (infinite (options s)) then
    match track s with
    | None => match originalCards s with
              | [] => Returned s
              | _ :: _ => Threw "TypeError" s
              end
    | Some children =>
        Returned (set_track (Some (children ++ map Original (originalCards s))) s)
    end
  else
    let totalCards := visible (options s) + step (options s) * 10 in
    appendClones (upto 0 totalCards) (set_allCards [] s).

Definition _updatePagination (s : t) : t :=
  match pageIndicator s, dots s with
  | Some _, Some ds =>
      let logicalIndex := Js.rem (currentIndex s) (cardCount s) in
      let currentPage :=
        Js.add (Js.floor_div logicalIndex (step (options s))) 1 in
      set_dots
        (Some (imap (λ i _, Js.strict_eq (Z.of_nat i) (Js.add currentPage (-1))) ds))
        (set_pageIndicator
           (Some (Js.toString currentPage ++ " / " ++ Js.toString (totalPages s))%string)
           s)
  | _, _ => s
  end.

Definition _updateButtons (s : t) : t :=
  match prevBtn s, nextBtn s with
  | Some _, Some _ =>
      if infinite (options s) then set_buttons (Some false) (Some false) s
      else
        set_buttons
          (Some (currentIndex s <=? 0))
          (Some (cardCount s - visible (options s) <=? currentIndex s))
          s
  | _, _ => s
  end.

Definition _updateControls (s : t) : t :=
  _updateButtons (_updatePagination s).

Definition _goTo (index : Z) (animate : bool) (s : t) : t :=
  if isMoving s && animate then s
  else
    match track s with
    | None => s
    | Some _ =>
        let s1 := set_currentIndex index s in
        let s2 := if animate then set_isMoving true s1 else s1 in
        _updateControls s2
    end.

Definition _bind (s : t) : t := set_bound true s.

Definition _ensureEnoughCards (s : t) : Outcome :=
  let remainingCards :=
    Z.of_nat (length (allCards s)) - currentIndex s - visible (options s) in
  if remainingCards <? step (options s) * 3 then
    let cardsToAdd := cardCount s * 2 in
    let currentLength := Z.of_nat (length (allCards s)) in
    appendClones (upto currentLength cardsToAdd) s
  else Returned s.

Definition _handleTransitionEnd (s : t) : Outcome :=
  let s1 := set_isMoving false s in
  if negb (infinite (options s1)) then Returned s1
  else _ensureEnoughCards s1 >>> (λ s2, Returned (_updateControls s2)).

(** [next], [prev] and [goToPage] compute the new cursor with [+=], [-=]
    and [*] on numbers; in [Z] this is what the code computes as long as
    the cursor, the step, the page and the result are safe integers
    ([Js.safe]). *)
Definition next (s : t) : t :=
  if isMoving s then s
  else
    let s1 := set_currentIndex (currentIndex s + step (options s)) s in
    _goTo (currentIndex s1) true s1.

Definition prev (s : t) : t :=
  if isMoving s then s
  else
    let s1 := set_currentIndex (currentIndex s - step (options s)) s in
    _goTo (currentIndex s1) true s1.

Definition goToPage (page : Z) (s : t) : t :=
  if isMoving s then s
  else
    let s1 := set_currentIndex (page * step (options s)) s in
    _goTo (currentIndex s1) true s1.

Definition destroy (s : t) : t :=
  set_attached false (set_resizePending false s).

(** [_handleResize] arms the debounce timer; its callback re-measures and
    repositions without animation.  [_measure] writes [cardWidth], [gap],
    [itemWidth] and the [style] of the cards, [_goTo] the [transition] and
    the [transform] of the track: layout in floating point, read from the
    rendered page, of which the record holds nothing.  What
    [resizeCallback] keeps of the callback is its effect on the fields of
    the record: the cursor assigned to itself and the controls redrawn. *)
Definition _handleResize (s : t) : t := set_resizePending true s.

Definition resizeCallback (s : t) : t :=
  _goTo (currentIndex s) false (set_resizePending false s).

(** [_init]: the [try] block, and the [catch] that only logs. *)
Definition _init (section : SectionElement) (s : t) : Outcome :=
  match
    _findElements section s >>> _buildDOM >>> _createInfiniteLoop
      >>> (λ s, Returned (_updateControls (_goTo 0 false s)))
      >>> (λ s, Returned (set_attached true (_bind s)))
  with
  | Returned s' => Returned s'
  | Threw _ s' => Returned s'
  | Diverged => Diverged
  end.

(** [new Slider(section, opts)] *)
Definition new (section : SectionElement) (opts : PartialOptions) : Outcome :=
  _init section (fresh (withDefaults opts)).

(** What can happen to a slider after construction: a call of its public
    interface, or one of the events its listeners are bound to. *)
Inductive Event : Type :=
  | CallNext
  | CallPrev
  | CallGoToPage (page : Z)
  | CallDestroy
  | TransitionEnd
  | WindowResize
  | ResizeTimeout.

Definition handle (ev : Event) (s : t) : Outcome :=
  match ev with
  | CallNext => Returned (next s)
  | CallPrev => Returned (prev s)
  | CallGoToPage page => Returned (goToPage page s)
  | CallDestroy => Returned (destroy s)
  | TransitionEnd => if bound s then _handleTransitionEnd s else Returned s
  | WindowResize => Returned (if bound s then _handleResize s else s)
  | ResizeTimeout =>
      Returned (if resizePending s then resizeCallback s else s)
  end.

Definition fire (ev : Event) (s : t) : t := after (handle ev s) s.

Definition run (evs : list Event) (s : t) : t :=
  fold_left (λ s ev, fire ev s) evs s.

(** The sliders that exist: those a constructor call returned, and what the
    events make of them. *)
Inductive reachable : t → Prop :=
  | reachable_new section opts s :
      new section opts = Returned s → reachable s
  | reachable_fire ev s :
      reachable s → reachable (fire ev s).

(** A completed move: the call, then the completion hook
    [_handleTransitionEnd] invoked on the result. *)
Definition completed (move : t → t) (s : t) : t :=
  after (_handleTransitionEnd (move s)) (move s).

Definition completedNext : t → t := completed next.
Definition completedPrev : t → t := completed prev.

(** [allCards.length - currentIndex - visible] *)
Definition remainingCards (s : t) : Z :=
  Z.of_nat (length (allCards s)) - currentIndex s - visible (options s).

End Slider.

(** * Vocabulary of the statements *)

Import Slider.

(** Fields that neither the cloning loops nor the control updates touch. *)
Definition same_core (s s' : t) : Prop :=
  options s' = options s ∧ originalCards s' = originalCards s ∧
  cardCount s' = cardCount s ∧ totalPages s' = totalPages s ∧
  resizePending s' = resizePending s ∧ bound s' = bound s ∧
  attached s' = attached s ∧ currentIndex s' = currentIndex s ∧
  isMoving s' = isMoving s.

Definition same_cards (s s' : t) : Prop :=
  track s' = track s ∧ allCards s' = allCards s.

Definition same_controls (s s' : t) : Prop :=
  prevBtn s' = prevBtn s ∧ nextBtn s' = nextBtn s ∧
  pageIndicator s' = pageIndicator s ∧ dots s' = dots s.

(** The page arithmetic of [_updatePagination] and [_findElements] on a
    slider whose divisions are by non-zero numbers:
    [Math.floor((currentIndex % cardCount) / step) + 1] and
    [Math.ceil(cardCount / step)]. *)
Definition currentPage (s : t) : Z :=
  Z.rem (currentIndex s) (cardCount s) / step (options s) + 1.

Definition pageCount (s : t) : Z :=
  - (- cardCount s / step (options s)).

(** The dots of a rail of [n] pages on which page number [page] is active. *)
Definition dotsFor (n : nat) (page : Z) : list bool :=
  imap (λ i _, Z.of_nat i =? page - 1) (replicate n false).

(** The pagination as the specification words it. *)
Module Spec.

Definition logicalIndex (currentIndex cardCount : Z) : Z :=
  currentIndex mod cardCount.

Definition currentPage (currentIndex cardCount step : Z) : Z :=
  logicalIndex currentIndex cardCount / step + 1.

(** [ceil(cardCount / step)] *)
Definition totalPages (cardCount step : Z) : Z :=
  - (- cardCount / step).

Definition label (currentIndex cardCount step : Z) : string :=
  (Js.string_of_Z (currentPage currentIndex cardCount step) ++ " / "
     ++ Js.string_of_Z (totalPages cardCount step))%string.

End Spec.

(** The controls agree with the cursor. *)
Definition controls_ok (s : t) : Prop :=
  pageIndicator s
    = Some (Js.string_of_Z (currentPage s) ++ " / "
              ++ Js.string_of_Z (pageCount s))%string ∧
  dots s = Some (dotsFor (Z.to_nat (pageCount s)) (currentPage s)) ∧
  prevBtn s
    = Some (if infinite (options s) then false else currentIndex s <=? 0) ∧
  nextBtn s
    = Some (if infinite (options s) then false
            else cardCount s - visible (options s) <=? currentIndex s).

(** The tags of a clone made for position [i]: [position = i],
    [originalIndex = i mod cardCount], and the card it copies. *)
Definition tagged (s : t) (i : Z) (c : Card) : Prop :=
  position c = i ∧ originalIndex c = i mod cardCount s ∧
  originalCards s !! Z.to_nat (originalIndex c) = Some (source c).

(** Every clone sits at its own position and repeats the originals
    modularly. *)
Definition patterned (s : t) : Prop :=
  ∀ (p : nat) (c : Card), allCards s !! p = Some c → tagged s (Z.of_nat p) c.

(** What the track holds, by mode. *)
Definition track_ok (s : t) : Prop :=
  if infinite (options s) then track s = Some (map Clone (allCards s))
  else track s = Some (map Original (originalCards s)) ∧ allCards s = [].

(** The four controls exist, with one dot per page. *)
Definition built (s : t) : Prop :=
  ∃ p n l ds, prevBtn s = Some p ∧ nextBtn s = Some n ∧
              pageIndicator s = Some l ∧ dots s = Some ds ∧
              length ds = Z.to_nat (pageCount s).

(** The rail is in place: cards, a non-zero step, DOM and controls. *)
Definition ready (s : t) : Prop :=
  1 ≤ cardCount s ∧
  cardCount s = Z.of_nat (length (originalCards s)) ∧
  step (options s) ≠ 0 ∧
  totalPages s = Js.Fin (pageCount s) ∧
  track_ok s ∧ patterned s ∧ built s.

(** A slider whose construction went through. *)
Definition constructed (s : t) : Prop :=
  ready s ∧ bound s = true ∧ controls_ok s.

(** A slider whose construction failed in [_findElements]: no DOM was
    built and no listener bound. *)
Definition inert (s : t) : Prop :=
  cardCount s = 0 ∧ originalCards s = [] ∧ track s = None ∧
  allCards s = [] ∧ prevBtn s = None ∧ nextBtn s = None ∧
  pageIndicator s = None ∧ dots s = None ∧ bound s = false.

(** Two sliders over the same rail: they may differ in the cursor, in the
    moving flag, in the debounce timer and in the back-reference. *)
Definition same_rail (s s' : t) : Prop :=
  options s' = options s ∧ originalCards s' = originalCards s ∧
  cardCount s' = cardCount s ∧ totalPages s' = totalPages s ∧
  track s' = track s ∧ allCards s' = allCards s ∧ bound s' = bound s ∧
  prevBtn s' = prevBtn s ∧ nextBtn s' = nextBtn s ∧
  pageIndicator s' = pageIndicator s ∧ dots s' = dots s.

(** ** Concrete rails used to exercise the statements *)

(** A rail of nine cards, and one with a single card. *)
Definition nineCards : SectionElement :=
  Some ["c0"; "c1"; "c2"; "c3"; "c4"; "c5"; "c6"; "c7"; "c8"]%string.

Definition oneCard : SectionElement := Some ["only"%string].

(** The configuration of the specification's button example:
    [visible = 4], [step = 2], [infinite = false]. *)
Definition finiteOptions : PartialOptions :=
  mkPartial (Some 4) (Some 2) (Some false) None None None.

Definition tenCards : SectionElement :=
  Some ["c0"; "c1"; "c2"; "c3"; "c4"; "c5"; "c6"; "c7"; "c8"; "c9"]%string.

(** The slider a constructor call leaves behind. *)
Definition sliderOn (section : SectionElement) (opts : PartialOptions) : t :=
  after (new section opts) (fresh (withDefaults opts)).

(** A like store that already counts 7 likes for ["b"], an oracle that
    always draws one half, and a multiplication that needs no rounding. *)
Definition demoStore : MemoryLikeStorage.t :=
  MemoryLikeStorage.mk ∅ {[ "b"%string := 7 ]}.

Definition drawHalf : nat → Q := λ _, (1 # 2)%Q.

Definition noRounding : Q → Q := λ x, x.

(** A call that returned or threw, leaving the object [s']. *)
Definition ended (o : Outcome) (s' : t) : Prop :=
  o = Returned s' ∨ ∃ message, o = Threw message s'.

(** * More of the code *)

(** ** The like manager: [LikeManager]

    A like button is reduced to what [renderLikeButton] and [setButtonState]
    write on it: the [data-content-id], the [aria-label], the
    [like-btn--active] class and the markup (which icon, which count).  The
    600 ms click animations (a class and a popup that a timer removes) are
    written and never read; they are left out, as is [initializeCardLikes],
    which nothing calls. *)

Module LikeManager.

(** The two fields of a [Content] the manager reads. *)
Record Content : Type := mkContent {
  id : string;
  title : string
}.

(** [inner] is what [innerHTML] shows: the filled or outlined icon and the
    count; [None] for a button fresh from [createElement]. *)
Record Button : Type := mkButton {
  contentId : string;
  ariaLabel : string;
  active : bool;
  inner : option (bool * Z)
}.

(** [dispatched] is the sequence of [like-changed] events sent to the
    document so far, oldest first, each with its [detail]. *)
Record t : Type := mk {
  storage : MemoryLikeStorage.t;
  likeButtons : gmap string Button;
  dispatched : list (string * bool)
}.

(** The constructor: a fresh [MemoryLikeStorage], no button. *)
Definition new : t :=
  {| storage := MemoryLikeStorage.empty; likeButtons := ∅; dispatched := [] |}.

Definition isLiked (contentId : string) (m : t) : bool :=
  MemoryLikeStorage.isLiked contentId (storage m).

Definition getLikeCountForContent (contentId : string) (m : t) : Z :=
  MemoryLikeStorage.getLikeCount contentId (storage m).

(** [this.storage.likes.size] *)
Definition getLikeCount (m : t) : Z :=
  Z.of_nat (size (MemoryLikeStorage.likes (storage m))).

(** The button after [setButtonState(button, isLiked)]: the count is read
    for the button's own [data-content-id]. *)
Definition setButtonState (button : Button) (isLiked : bool) (m : t) : Button :=
  {| contentId := contentId button;
     ariaLabel := ariaLabel button;
     active := isLiked;
     inner := Some (isLiked, getLikeCountForContent (contentId button) m) |}.

Definition updateButtonState (contentId : string) (isLiked : bool) (m : t) : t :=
  match likeButtons m !! contentId with
  | None => m
  | Some button =>
      {| storage := storage m;
         likeButtons := <[contentId := setButtonState button isLiked m]> (likeButtons m);
         dispatched := dispatched m |}
  end.

Definition dispatchLikeEvent (contentId : string) (isLiked : bool) (m : t) : t :=
  {| storage := storage m;
     likeButtons := likeButtons m;
     dispatched := dispatched m ++ [(contentId, isLiked)] |}.

(** [toggleLike]: the flag it returns and the manager it leaves. *)
Definition toggleLike (contentId : string) (m : t) : bool * t :=
  let '(isLiked, st) := MemoryLikeStorage.toggle contentId (storage m) in
  let m1 := {| storage := st; likeButtons := likeButtons m;
               dispatched := dispatched m |} in
  (isLiked, dispatchLikeEvent contentId isLiked (updateButtonState contentId isLiked m1)).

(** [renderLikeButton]: the button it returns and the manager that now
    holds it under the content's id. *)
Definition renderLikeButton (content : Content) (m : t) : Button * t :=
  let fresh :=
    {| contentId := id content;
       ariaLabel := (title content ++ " 좋아요")%string;
       active := false;
       inner := None |} in
  let button := setButtonState fresh (isLiked (id content) m) m in
  (button,
   {| storage := storage m;
      likeButtons := <[id content := button]> (likeButtons m);
      dispatched := dispatched m |}).

(** [handleLikeClick], what the click and key listeners of a button call. *)
Definition handleLikeClick (contentId : string) (m : t) : t :=
  match likeButtons m !! contentId with
  | None => m
  | Some _ => (toggleLike contentId m).2
  end.

(** [clearAllLikes]: [likes.clear()], then every button redrawn unliked. *)
Definition clearAllLikes (m : t) : t :=
  let m1 :=
    {| storage := MemoryLikeStorage.mk ∅ (MemoryLikeStorage.likeCounts (storage m));
       likeButtons := likeButtons m;
       dispatched := dispatched m |} in
  {| storage := storage m1;
     likeButtons := (λ button, setButtonState button false m1) <$> likeButtons m1;
     dispatched := dispatched m1 |}.

Definition destroy (m : t) : t :=
  {| storage := storage m; likeButtons := ∅; dispatched := dispatched m |}.

(** [initializeContentCounts], with the oracle of [Math.random] and the
    number of draws made so far. *)
Definition initializeContentCounts (random : nat → Q) (round : Q → Q)
    (contentIds : list string) (acc : t * nat) : t * nat :=
  let '(st, n) :=
    MemoryLikeStorage.initializeRandomCounts random round contentIds
      (storage acc.1, acc.2) in
  ({| storage := st; likeButtons := likeButtons acc.1;
      dispatched := dispatched acc.1 |}, n).

(** The calls a page makes on a manager. *)
Inductive Call : Type :=
  | ToggleLike (contentId : string)
  | RenderLikeButton (content : Content)
  | ClickLike (contentId : string)
  | ClearAllLikes
  | Destroy.

Definition call (c : Call) (m : t) : t :=
  match c with
  | ToggleLike contentId => (toggleLike contentId m).2
  | RenderLikeButton content => (renderLikeButton content m).2
  | ClickLike contentId => handleLikeClick contentId m
  | ClearAllLikes => clearAllLikes m
  | Destroy => destroy m
  end.

Definition run (calls : list Call) (m : t) : t :=
  fold_left (λ m c, call c m) calls m.

(** Every button the manager holds shows what the store says about its
    content. *)
Definition shows_store (m : t) : Prop :=
  ∀ contentId button,
    likeButtons m !! contentId = Some button →
    LikeManager.contentId button = contentId ∧
    active button = isLiked contentId m ∧
    inner button = Some (isLiked contentId m, getLikeCountForContent contentId m).

(** The liked set a listener of [like-changed] reconstructs. *)
Definition replay (events : list (string * bool)) : gset string :=
  fold_left
    (λ (liked : gset string) (ev : string * bool),
       if ev.2 then {[ev.1]} ∪ liked else liked ∖ {[ev.1]})
    events ∅.

Definition is_clear (c : Call) : bool :=
  match c with
  | ClearAllLikes => true
  | _ => false
  end.

End LikeManager.

(** Calls on a like store, with the oracle of [Math.random]. *)
Module LikeStore.

Inductive Call : Type :=
  | Toggle (contentId : string)
  | InitializeRandomCounts (contentIds : list string).

Definition call (random : nat → Q) (round : Q → Q) (c : Call)
    (acc : MemoryLikeStorage.t * nat) : MemoryLikeStorage.t * nat :=
  match c with
  | Toggle contentId => ((MemoryLikeStorage.toggle contentId acc.1).2, acc.2)
  | InitializeRandomCounts contentIds =>
      MemoryLikeStorage.initializeRandomCounts random round contentIds acc
  end.

Definition run (random : nat → Q) (round : Q → Q) (calls : list Call)
    (acc : MemoryLikeStorage.t * nat) : MemoryLikeStorage.t * nat :=
  fold_left (λ acc c, call random round c acc) calls acc.

(** No count is negative, and a liked content counts at least one like. *)
Definition counted (st : MemoryLikeStorage.t) : Prop :=
  (∀ contentId c,
     MemoryLikeStorage.likeCounts st !! contentId = Some c → 0 ≤ c) ∧
  (∀ contentId,
     contentId ∈ MemoryLikeStorage.likes st →
     1 ≤ MemoryLikeStorage.getLikeCount contentId st).

(** A store in which ["a"] is liked although its count is 0. *)
Definition likedWithoutCount : MemoryLikeStorage.t :=
  MemoryLikeStorage.mk {[ "a"%string ]} ∅.

End LikeStore.

(** The ids [renderContentSections] hands to [initializeContentCounts]:
    [sections.flatMap(section => section.contents.map(content => content.id))],
    a section being reduced to its [contents]. *)
Definition allContentIds (sections : list (list LikeManager.Content)) : list string :=
  concat (map (map LikeManager.id) sections).

(** ** The cache of [utils/api]: [DataCache]

    [Date.now()] is the argument [now] of each operation; times and TTLs are
    integers of milliseconds.  A stored value is any value, [null]
    included: [None] is [null], [Some a] any other value. *)

Module DataCache.

Section Cache.

Context {A : Type}.

Record Entry : Type := mkEntry {
  data : option A;
  timestamp : Z;
  ttl : Z
}.

Definition DEFAULT_TTL : Z := 5 * 60 * 1000.

(** [set(key, data, ttl = DEFAULT_TTL)] *)
Definition set (key : string) (d : option A) (ttl : option Z) (now : Z)
    (cache : gmap string Entry) : gmap string Entry :=
  <[key := mkEntry d now (default DEFAULT_TTL ttl)]> cache.

(** [get(key)]: the answer and the cache it leaves.  The answer is [null]
    for a key that is absent or expired, and otherwise [cached.data] as it
    is, which is [null] again when [null] was stored. *)
Definition get (key : string) (now : Z) (cache : gmap string Entry)
  : option A * gmap string Entry :=
  match cache !! key with
  | None => (None, cache)
  | Some cached =>
      if ttl cached <? now - timestamp cached then (None, delete key cache)
      else (data cached, cache)
  end.

Definition delete (key : string) (cache : gmap string Entry)
  : gmap string Entry :=
  base.delete key cache.

Definition clear (cache : gmap string Entry) : gmap string Entry := ∅.

(** [cleanup()]: the loop that deletes every entry past its TTL. *)
Definition cleanup (now : Z) (cache : gmap string Entry) : gmap string Entry :=
  filter (λ kv : string * Entry, ¬ (ttl kv.2 < now - timestamp kv.2)) cache.

End Cache.

End DataCache.

(** ** Keyboard navigation of the profile menu: [HoverModal._setupMenuNavigation]

    The index of the item that receives the focus when the item at [index]
    of [count] items gets ArrowDown or ArrowUp. *)

Module MenuNavigation.

(** [(index + 1) % menuItems.length] *)
Definition nextIndex (index count : Z) : Js.JsNum :=
  Js.rem (index + 1) count.

(** [(index - 1 + menuItems.length) % menuItems.length] *)
Definition prevIndex (index count : Z) : Js.JsNum :=
  Js.rem (index - 1 + count) count.

End MenuNavigation.

(** ** [HoverModal]: visibility and timers

    What a [HoverModal] keeps between events: the visibility flag, the two
    timer handles, the attributes that [show] and [hide] write, and the
    browser's table of pending timeouts.  The container is created by the
    constructor and never reset, so the [!this.container] guards never
    fire.  The clock is left out: a pending timeout may fire at any moment,
    which covers every order the delays allow.  A handle returned by
    [setTimeout] is a positive integer, so the truth test on a stored handle
    is the test against [null].  The [focus()] calls are modelled by the
    listeners they reach: [firstMenuItem.focus()] in [show] reaches none
    that acts (the related target is inside the container);
    [trigger.focus()] runs the trigger's [focusin] listener when the focus
    actually moves.  Markup and geometry are not modelled. *)
Module HoverModal.

Inductive ModalType : Type := notifications | profile.

Record ModalOptions : Type := mkOptions {
  offset : Z;
  hoverDelayOpen : Z;
  hoverDelayClose : Z;
  closeOnOutsideClick : bool
}.

(** [Partial<ModalOptions>]: [None] is an absent key. *)
Record PartialOptions : Type := mkPartial {
  opt_offset : option Z;
  opt_hoverDelayOpen : option Z;
  opt_hoverDelayClose : option Z;
  opt_closeOnOutsideClick : option bool
}.

Definition noOptions : PartialOptions := mkPartial None None None None.

(** The object spread of the constructor. *)
Definition withDefaults (opts : PartialOptions) : ModalOptions :=
  {| offset := default 8 (opt_offset opts);
     hoverDelayOpen := default 80 (opt_hoverDelayOpen opts);
     hoverDelayClose := default 120 (opt_hoverDelayClose opts);
     closeOnOutsideClick := default false (opt_closeOnOutsideClick opts) |}.

(** The three functions the modal hands to [setTimeout]:
    [() => this._open()], [() => this.hide()] and the closure of [hide]
    that sets [hidden] once the transition is over. *)
Inductive Callback : Type := RunOpen | RunHide | FinishHide.

(** [ariaHidden] and [ariaExpanded] are [true] for the attribute value
    ['true']; [pending] maps the handle of every timeout that has neither
    fired nor been cleared to its callback and delay; [frames] counts the
    animation frames requested and not yet run. *)
Record t : Type := mk {
  type : ModalType;
  options : ModalOptions;
  isVisible : bool;
  hidden : bool;
  ariaHidden : bool;
  ariaExpanded : bool;
  showClass : bool;
  inPortal : bool;
  timers_open : option nat;
  timers_close : option nat;
  pending : gmap nat (Callback * Z);
  nextHandle : nat;
  frames : nat
}.

Definition set_isVisible (v : bool) (s : t) : t :=
  mk (type s) (options s) v (hidden s) (ariaHidden s) (ariaExpanded s)
     (showClass s) (inPortal s) (timers_open s) (timers_close s) (pending s)
     (nextHandle s) (frames s).

Definition set_hidden (v : bool) (s : t) : t :=
  mk (type s) (options s) (isVisible s) v (ariaHidden s) (ariaExpanded s)
     (showClass s) (inPortal s) (timers_open s) (timers_close s) (pending s)
     (nextHandle s) (frames s).

Definition set_ariaHidden (v : bool) (s : t) : t :=
  mk (type s) (options s) (isVisible s) (hidden s) v (ariaExpanded s)
     (showClass s) (inPortal s) (timers_open s) (timers_close s) (pending s)
     (nextHandle s) (frames s).

Definition set_ariaExpanded (v : bool) (s : t) : t :=
  mk (type s) (options s) (isVisible s) (hidden s) (ariaHidden s) v
     (showClass s) (inPortal s) (timers_open s) (timers_close s) (pending s)
     (nextHandle s) (frames s).

Definition set_showClass (v : bool) (s : t) : t :=
  mk (type s) (options s) (isVisible s) (hidden s) (ariaHidden s)
     (ariaExpanded s) v (inPortal s) (timers_open s) (timers_close s)
     (pending s) (nextHandle s) (frames s).

Definition set_inPortal (v : bool) (s : t) : t :=
  mk (type s) (options s) (isVisible s) (hidden s) (ariaHidden s)
     (ariaExpanded s) (showClass s) v (timers_open s) (timers_close s)
     (pending s) (nextHandle s) (frames s).

Definition set_timers_open (v : option nat) (s : t) : t :=
  mk (type s) (options s) (isVisible s) (hidden s) (ariaHidden s)
     (ariaExpanded s) (showClass s) (inPortal s) v (timers_close s)
     (pending s) (nextHandle s) (frames s).

Definition set_timers_close (v : option nat) (s : t) : t :=
  mk (type s) (options s) (isVisible s) (hidden s) (ariaHidden s)
     (ariaExpanded s) (showClass s) (inPortal s) (timers_open s) v
     (pending s) (nextHandle s) (frames s).

Definition set_pending (v : gmap nat (Callback * Z)) (s : t) : t :=
  mk (type s) (options s) (isVisible s) (hidden s) (ariaHidden s)
     (ariaExpanded s) (showClass s) (inPortal s) (timers_open s)
     (timers_close s) v (nextHandle s) (frames s).

Definition set_nextHandle (v : nat) (s : t) : t :=
  mk (type s) (options s) (isVisible s) (hidden s) (ariaHidden s)
     (ariaExpanded s) (showClass s) (inPortal s) (timers_open s)
     (timers_close s) (pending s) v (frames s).

Definition set_frames (v : nat) (s : t) : t :=
  mk (type s) (options s) (isVisible s) (hidden s) (ariaHidden s)
     (ariaExpanded s) (showClass s) (inPortal s) (timers_open s)
     (timers_close s) (pending s) (nextHandle s) v.

(** [window.setTimeout(cb, delay)]: a fresh handle. *)
Definition setTimeout (cb : Callback) (delay : Z) (s : t) : nat * t :=
  (nextHandle s,
   set_nextHandle (S (nextHandle s))
     (set_pending (<[nextHandle s := (cb, delay)]> (pending s)) s)).

(** [clearTimeout(id)]: nothing happens for a handle that is not pending. *)
Definition clearTimeout (id : nat) (s : t) : t :=
  set_pending (delete id (pending s)) s.

Definition requestAnimationFrame (s : t) : t := set_frames (S (frames s)) s.

Definition _clearOpenTimer (s : t) : t :=
  match timers_open s with
  | Some id => set_timers_open None (clearTimeout id s)
  | None => s
  end.

Definition _clearCloseTimer (s : t) : t :=
  match timers_close s with
  | Some id => set_timers_close None (clearTimeout id s)
  | None => s
  end.

(** [_position] shows the container to measure it and hides it again. *)
Definition _position (s : t) : t := set_hidden true (set_hidden false s).

Definition show (s : t) : t :=
  if isVisible s then s
  else
    let s := _position s in
    let s := set_hidden false s in
    let s := set_ariaHidden false s in
    let s := set_ariaExpanded true s in
    let s := requestAnimationFrame s in
    set_isVisible true s.

Definition hide (s : t) : t :=
  if negb (isVisible s) then s
  else
    let s := _clearOpenTimer s in
    let s := _clearCloseTimer s in
    let s := set_showClass false s in
    let s := set_ariaHidden true s in
    let s := set_ariaExpanded false s in
    let s := (setTimeout FinishHide 200 s).2 in
    set_isVisible false s.

Definition _open (s : t) : t :=
  show (_clearCloseTimer (_clearOpenTimer s)).

Definition _queueOpen (s : t) : t :=
  let s := _clearCloseTimer s in
  let (id, s) := setTimeout RunOpen (hoverDelayOpen (options s)) s in
  set_timers_open (Some id) s.

Definition _queueClose (s : t) : t :=
  let s := _clearOpenTimer s in
  let (id, s) := setTimeout RunHide (hoverDelayClose (options s)) s in
  set_timers_close (Some id) s.

Definition destroy (s : t) : t :=
  set_inPortal false (_clearCloseTimer (_clearOpenTimer s)).

Definition runCallback (cb : Callback) (s : t) : t :=
  match cb with
  | RunOpen => _open s
  | RunHide => hide s
  | FinishHide => if negb (isVisible s) then set_hidden true s else s
  end.

(** [this.trigger.focus()]: the trigger's [focusin] listener runs when the
    focus moves to the trigger. *)
Definition focusTrigger (focusMoves : bool) (s : t) : t :=
  if focusMoves then _open s else s.

(** What reaches the modal: the events of [_bind] and of
    [_setupMenuNavigation] with what their guards read from the event, a
    timeout or an animation frame coming due, and the public methods. *)
Inductive Event : Type :=
  | TriggerMouseEnter
  | TriggerMouseLeave
  | TriggerFocusIn
  | TriggerFocusOut (intoContainer : bool)
  | ContainerMouseEnter
  | ContainerMouseLeave
  | ContainerFocusOut (intoContainer toTrigger : bool)
  | EscapeKey (focusMoves : bool)
  | MenuEscapeKey (focusMoves : bool)
  | MenuItemClick
  | DocumentClick (inContainer inTrigger : bool)
  | TimerFires (id : nat)
  | AnimationFrame
  | CallShow
  | CallHide
  | CallDestroy.

Definition fire (ev : Event) (s : t) : t :=
  match ev with
  | TriggerMouseEnter => _queueOpen s
  | TriggerMouseLeave => _queueClose s
  | TriggerFocusIn => _open s
  | TriggerFocusOut intoContainer =>
      if negb intoContainer then _queueClose s else s
  | ContainerMouseEnter => _clearCloseTimer s
  | ContainerMouseLeave => _queueClose s
  | ContainerFocusOut intoContainer toTrigger =>
      if negb intoContainer && negb toTrigger then _queueClose s else s
  | EscapeKey focusMoves =>
      if isVisible s then focusTrigger focusMoves (hide s) else s
  | MenuEscapeKey focusMoves =>
      match type s with
      | profile => focusTrigger focusMoves (hide s)
      | notifications => s
      end
  | MenuItemClick =>
      match type s with
      | profile => hide s
      | notifications => s
      end
  | DocumentClick inContainer inTrigger =>
      if closeOnOutsideClick (options s)
         && (isVisible s && negb inContainer && negb inTrigger)
      then hide s else s
  | TimerFires id =>
      match pending s !! id with
      | Some (cb, _) => runCallback cb (set_pending (delete id (pending s)) s)
      | None => s
      end
  | AnimationFrame =>
      match frames s with
      | O => s
      | S n => set_showClass true (set_frames n s)
      end
  | CallShow => show s
  | CallHide => hide s
  | CallDestroy => destroy s
  end.

Definition run (evs : list Event) (s : t) : t :=
  fold_left (λ s ev, fire ev s) evs s.

(** The constructor: [_createContainer] and [_setupAccessibility] write the
    closed attributes. *)
Definition new (ty : ModalType) (opts : PartialOptions) : t :=
  {| type := ty;
     options := withDefaults opts;
     isVisible := false;
     hidden := true;
     ariaHidden := true;
     ariaExpanded := false;
     showClass := false;
     inPortal := true;
     timers_open := None;
     timers_close := None;
     pending := ∅;
     nextHandle := 1;
     frames := 0 |}.

(** The attributes agree with the flag, and a closed modal is hidden or
    has the timeout pending that will hide it. *)
Definition in_sync (s : t) : Prop :=
  ariaHidden s = negb (isVisible s) ∧
  ariaExpanded s = isVisible s ∧
  (isVisible s = true → hidden s = false) ∧
  (isVisible s = false → hidden s = false →
   ∃ id delay, pending s !! id = Some (FinishHide, delay)).

(** Handles are fresh, the open handle names a pending open timeout, and
    the close handle names a pending close timeout or none. *)
Definition handles_ok (s : t) : Prop :=
  (∀ id e, pending s !! id = Some e → (id < nextHandle s)%nat) ∧
  (∀ id, timers_open s = Some id →
         ∃ delay, pending s !! id = Some (RunOpen, delay)) ∧
  (∀ id, timers_close s = Some id →
         (id < nextHandle s)%nat ∧
         (pending s !! id = None ∨
          ∃ delay, pending s !! id = Some (RunHide, delay))).

Definition wf (s : t) : Prop := in_sync s ∧ handles_ok s.

(** A pending close timeout, already handed out, that neither handle
    names: [clearTimeout] is only ever called on the two handles. *)
Definition orphan (id : nat) (s : t) : Prop :=
  (∃ delay, pending s !! id = Some (RunHide, delay)) ∧
  timers_open s ≠ Some id ∧
  timers_close s ≠ Some id ∧
  (id < nextHandle s)%nat.

(** Closed, hidden, and nothing scheduled. *)
Definition at_rest (s : t) : Prop :=
  isVisible s = false ∧ hidden s = true ∧ timers_open s = None ∧
  pending s = ∅ ∧ frames s = 0%nat.

(** A hover that lasts: the pointer enters the trigger, the open timeout
    and the animation frame come due, the pointer leaves, the close timeout
    and the timeout of [hide] come due. *)
Definition longHover (h : nat) : list Event :=
  [TriggerMouseEnter; TimerFires h; AnimationFrame; TriggerMouseLeave;
   TimerFires (S h); TimerFires (S (S h))].

(** A hover that ends before the open delay. *)
Definition shortHover (h : nat) : list Event :=
  [TriggerMouseEnter; TriggerMouseLeave; TimerFires (S h)].

End HoverModal.

(** * Lemmas *)

(** ** Frames: what the helpers leave alone *)


Lemma same_core_refl s : same_core s s.
Proof. by repeat split. Qed.

Lemma same_core_trans s1 s2 s3 :
  same_core s1 s2 → same_core s2 s3 → same_core s1 s3.
Proof.
  unfold same_core. intros H12 H23.
  destruct H12 as (?&?&?&?&?&?&?&?&?), H23 as (?&?&?&?&?&?&?&?&?).
  repeat split; congruence.
Qed.

Lemma same_controls_refl s : same_controls s s.
Proof. by repeat split. Qed.

Lemma same_controls_trans s1 s2 s3 :
  same_controls s1 s2 → same_controls s2 s3 → same_controls s1 s3.
Proof.
  unfold same_controls. intros (?&?&?&?) (?&?&?&?). repeat split; congruence.
Qed.

Lemma updatePagination_frame s :
  same_core s (_updatePagination s) ∧ same_cards s (_updatePagination s).
Proof.
  unfold _updatePagination.
  destruct (pageIndicator s), (dots s); by repeat split.
Qed.

Lemma updateButtons_frame s :
  same_core s (_updateButtons s) ∧ same_cards s (_updateButtons s).
Proof.
  unfold _updateButtons.
  destruct (prevBtn s), (nextBtn s), (infinite (options s)); by repeat split.
Qed.

Lemma updateControls_frame s :
  same_core s (_updateControls s) ∧ same_cards s (_updateControls s).
Proof.
  unfold _updateControls.
  destruct (updatePagination_frame s) as [Hc1 [Ht1 Ha1]].
  destruct (updateButtons_frame (_updatePagination s)) as [Hc2 [Ht2 Ha2]].
  split; [by eapply same_core_trans | split; congruence].
Qed.

Lemma ended_after o s' s0 : ended o s' → after o s0 = s'.
Proof. by intros [-> | [m ->]]. Qed.

Lemma appendClone_ended i s :
  ∃ s', ended (appendClone i s) s' ∧ same_core s s' ∧ same_controls s s' ∧
        ∃ cs, allCards s' = allCards s ++ cs.
Proof.
  unfold appendClone.
  destruct (cloneCard s i) as [card|].
  - destruct (track s) as [children|].
    + eexists. split; [by left|]. repeat split. by eexists.
    + exists s. split; [right; by eexists|].
      repeat split. exists []. by rewrite app_nil_r.
  - exists s. split; [right; by eexists|].
    repeat split. exists []. by rewrite app_nil_r.
Qed.

Lemma appendClones_ended indices : ∀ s,
  ∃ s', ended (appendClones indices s) s' ∧ same_core s s' ∧
        same_controls s s' ∧ ∃ cs, allCards s' = allCards s ++ cs.
Proof.
  induction indices as [|i rest IH]; intros s; simpl.
  - exists s. split; [by left|]. split; [apply same_core_refl|].
    split; [apply same_controls_refl|]. exists []. by rewrite app_nil_r.
  - destruct (appendClone_ended i s) as (s1 & [-> | [m ->]] & Hc & Hk & cs & Hcs).
    + simpl. destruct (IH s1) as (s2 & He & Hc2 & Hk2 & cs2 & Hcs2).
      exists s2. split; [done|]. split; [by eapply same_core_trans|].
      split; [by eapply same_controls_trans|].
      exists (cs ++ cs2). by rewrite Hcs2, Hcs, app_assoc.
    + simpl. exists s1. split; [right; by eexists|]. split; [done|].
      split; [done|]. by exists cs.
Qed.

Lemma handleTransitionEnd_ended s :
  ∃ s', ended (_handleTransitionEnd s) s' ∧
        options s' = options s ∧ cardCount s' = cardCount s ∧
        currentIndex s' = currentIndex s ∧ isMoving s' = false.
Proof.
  unfold _handleTransitionEnd.
  destruct (negb (infinite (options (set_isMoving false s)))).
  { eexists. split; [by left|]. by repeat split. }
  unfold _ensureEnoughCards.
  destruct (_ <? _).
  - destruct (appendClones_ended
                (upto (Z.of_nat (length (allCards (set_isMoving false s))))
                      (cardCount (set_isMoving false s) * 2))
                (set_isMoving false s))
      as (s1 & [-> | [m ->]] & (Ho & _ & Hn & _ & _ & _ & _ & Hi & Hm) & _).
    + simpl in *. eexists. split; [by left|].
      destruct (updateControls_frame s1) as [(Ho' & _ & Hn' & _ & _ & _ & _ & Hi' & Hm') _].
      repeat split; congruence.
    + simpl in *. eexists. split; [right; by eexists|]. by repeat split.
  - simpl. eexists. split; [by left|].
    destruct (updateControls_frame (set_isMoving false s))
      as [(Ho' & _ & Hn' & _ & _ & _ & _ & Hi' & Hm') _].
    simpl in *. repeat split; congruence.
Qed.

(** ** Moves *)

Lemma goTo_currentIndex index animate s :
  currentIndex s = index → currentIndex (_goTo index animate s) = index.
Proof.
  intros Hi. unfold _goTo.
  destruct (isMoving s && animate); [done|].
  destruct (track s); [|done].
  destruct (updateControls_frame
              (if animate then set_isMoving true (set_currentIndex index s)
               else set_currentIndex index s))
    as [(_ & _ & _ & _ & _ & _ & _ & -> & _) _].
  by destruct animate.
Qed.

Lemma goTo_options index animate s :
  options (_goTo index animate s) = options s.
Proof.
  unfold _goTo.
  destruct (isMoving s && animate); [done|].
  destruct (track s); [|done].
  destruct (updateControls_frame
              (if animate then set_isMoving true (set_currentIndex index s)
               else set_currentIndex index s))
    as [(-> & _) _].
  by destruct animate.
Qed.

Lemma next_idle s :
  isMoving s = false →
  currentIndex (next s) = currentIndex s + step (options s) ∧
  options (next s) = options s.
Proof.
  intros Hm. unfold next. rewrite Hm.
  split; [by apply goTo_currentIndex | by rewrite goTo_options].
Qed.

Lemma prev_idle s :
  isMoving s = false →
  currentIndex (prev s) = currentIndex s - step (options s) ∧
  options (prev s) = options s.
Proof.
  intros Hm. unfold prev. rewrite Hm.
  split; [by apply goTo_currentIndex | by rewrite goTo_options].
Qed.

Lemma goToPage_idle page s :
  isMoving s = false →
  currentIndex (goToPage page s) = page * step (options s) ∧
  options (goToPage page s) = options s.
Proof.
  intros Hm. unfold goToPage. rewrite Hm.
  split; [by apply goTo_currentIndex | by rewrite goTo_options].
Qed.

(** A completed move leaves the slider idle, with the cursor where the move
    put it. *)
Lemma completed_spec move s :
  isMoving (completed move s) = false ∧
  currentIndex (completed move s) = currentIndex (move s) ∧
  options (completed move s) = options (move s).
Proof.
  unfold completed.
  destruct (handleTransitionEnd_ended (move s)) as (s' & He & Ho & _ & Hi & Hm).
  by rewrite (ended_after _ _ _ He).
Qed.

Lemma iter_completedNext k : ∀ s,
  isMoving s = false →
  isMoving (Nat.iter k completedNext s) = false ∧
  options (Nat.iter k completedNext s) = options s ∧
  currentIndex (Nat.iter k completedNext s)
    = currentIndex s + Z.of_nat k * step (options s).
Proof.
  induction k as [|k IH]; intros s Hm; simpl.
  - repeat split; [done | lia].
  - destruct (IH s Hm) as (Hm' & Ho' & Hi').
    destruct (completed_spec next (Nat.iter k completedNext s)) as (Hcm & Hci & Hco).
    destruct (next_idle _ Hm') as [Hn Hno].
    unfold completedNext at 1 3 5.
    rewrite Hcm, Hci, Hco, Hn, Hno, Hi', Ho'. repeat split. lia.
Qed.

Lemma iter_completedPrev k : ∀ s,
  isMoving s = false →
  isMoving (Nat.iter k completedPrev s) = false ∧
  options (Nat.iter k completedPrev s) = options s ∧
  currentIndex (Nat.iter k completedPrev s)
    = currentIndex s - Z.of_nat k * step (options s).
Proof.
  induction k as [|k IH]; intros s Hm; simpl.
  - repeat split; [done | lia].
  - destruct (IH s Hm) as (Hm' & Ho' & Hi').
    destruct (completed_spec prev (Nat.iter k completedPrev s)) as (Hcm & Hci & Hco).
    destruct (prev_idle _ Hm') as [Hn Hno].
    unfold completedPrev at 1 3 5.
    rewrite Hcm, Hci, Hco, Hn, Hno, Hi', Ho'. repeat split. lia.
Qed.

(** ** The cloning loops *)

Lemma upto_length base count : length (upto base count) = Z.to_nat count.
Proof. unfold upto. by rewrite length_map, length_seq. Qed.

Lemma upto_lookup base count (i : nat) :
  (i < Z.to_nat count)%nat → upto base count !! i = Some (base + Z.of_nat i).
Proof.
  intros Hi. unfold upto.
  rewrite list_lookup_fmap, lookup_seq_lt by done. done.
Qed.

Lemma upto_nonneg base count : 0 ≤ base → Forall (λ i, 0 ≤ i) (upto base count).
Proof.
  intros Hb. unfold upto. apply Forall_forall. intros x Hx.
  apply list_elem_of_fmap in Hx as (i & -> & _). lia.
Qed.

(** On a rail with cards, cloning at a non-negative position succeeds. *)
Lemma cloneCard_some s i :
  1 ≤ cardCount s →
  cardCount s = Z.of_nat (length (originalCards s)) →
  0 ≤ i →
  ∃ e, originalCards s !! Z.to_nat (i mod cardCount s) = Some e ∧
       cloneCard s i = Some (mkCard e (i mod cardCount s) i).
Proof.
  intros Hc Hlen Hi. unfold cloneCard, Js.rem.
  destruct (Z.eqb_spec (cardCount s) 0) as [?|_]; [lia|].
  rewrite Z.rem_mod_nonneg by lia.
  pose proof (Z.mod_pos_bound i (cardCount s) ltac:(lia)) as Hb.
  destruct (Z.ltb_spec (i mod cardCount s) 0) as [?|_]; [lia|].
  destruct (lookup_lt_is_Some_2 (originalCards s) (Z.to_nat (i mod cardCount s)))
    as [e He]; [lia|].
  exists e. by rewrite He.
Qed.

Lemma appendClones_returns indices : ∀ s children,
  1 ≤ cardCount s →
  cardCount s = Z.of_nat (length (originalCards s)) →
  track s = Some children →
  Forall (λ i, 0 ≤ i) indices →
  ∃ cs, Forall2 (tagged s) indices cs ∧
        appendClones indices s
          = Returned (set_allCards (allCards s ++ cs)
                        (set_track (Some (children ++ map Clone cs)) s)).
Proof.
  induction indices as [|i rest IH]; intros s children Hc Hlen Htr Hall.
  - exists []. split; [constructor|]. simpl. rewrite !app_nil_r.
    rewrite <- Htr. by destruct s.
  - apply Forall_cons in Hall as [Hi Hrest].
    destruct (cloneCard_some s i Hc Hlen Hi) as (e & He & Hclone).
    simpl. unfold appendClone. rewrite Hclone, Htr. simpl.
    set (card := mkCard e (i mod cardCount s) i).
    set (s1 := set_allCards (allCards s ++ [card])
                 (set_track (Some (children ++ [Clone card])) s)).
    destruct (IH s1 (children ++ [Clone card])) as (cs & Htag & Hrun);
      [done..|].
    exists (card :: cs). split.
    + constructor; [by repeat split|]. done.
    + rewrite Hrun. subst s1. unfold set_allCards, set_track. simpl.
      by rewrite <- !app_assoc.
Qed.

Lemma tagged_upto s base count cs :
  Forall2 (tagged s) (upto base count) cs →
  length cs = Z.to_nat count ∧
  ∀ (i : nat) c, cs !! i = Some c → tagged s (base + Z.of_nat i) c.
Proof.
  intros Htag. split.
  - by rewrite <- (Forall2_length _ _ _ Htag), upto_length.
  - intros i c Hic.
    destruct (Forall2_lookup_r _ _ _ _ _ Htag Hic) as (x & Hx & Hxc).
    assert (i < Z.to_nat count)%nat as Hlt.
    { apply lookup_lt_Some in Hx. by rewrite upto_length in Hx. }
    rewrite upto_lookup in Hx by done. by inversion Hx; subst.
Qed.

(** Appending a batch tagged from the current length keeps the pattern. *)
Lemma patterned_app s s' count cs :
  cardCount s' = cardCount s → originalCards s' = originalCards s →
  allCards s' = allCards s ++ cs →
  patterned s →
  Forall2 (tagged s) (upto (Z.of_nat (length (allCards s))) count) cs →
  patterned s'.
Proof.
  intros Hc Ho Hall Hpat Htag p c. rewrite Hall. intros Hpc.
  assert (tagged s (Z.of_nat p) c) as Ht.
  { apply lookup_app_Some in Hpc as [Hl | [Hge Hr]].
    - by apply Hpat.
    - destruct (tagged_upto _ _ _ _ Htag) as [_ Hcs].
      specialize (Hcs _ _ Hr).
      by replace (Z.of_nat (length (allCards s)) + Z.of_nat (p - length (allCards s)))
        with (Z.of_nat p) in Hcs by lia. }
  unfold tagged in *. by rewrite Hc, Ho.
Qed.

(** ** The controls *)

Lemma imap_index_only {A B} (f : nat → B) (l : list A) (x : A) :
  imap (λ i _, f i) l = imap (λ i _, f i) (replicate (length l) x).
Proof.
  apply list_eq. intros i. rewrite !list_lookup_imap.
  destruct (l !! i) as [a|] eqn:Hl.
  - apply lookup_lt_Some in Hl as Hlt.
    by rewrite (lookup_replicate_2 _ _ _ Hlt).
  - apply lookup_ge_None in Hl.
    by rewrite (proj2 (lookup_ge_None _ _)) by (by rewrite length_replicate).
Qed.

Lemma dotsFor_length n page : length (dotsFor n page) = n.
Proof. unfold dotsFor. by rewrite length_imap, length_replicate. Qed.

Lemma dotsFor_lookup n page (i : nat) :
  (i < n)%nat → dotsFor n page !! i = Some (Z.of_nat i =? page - 1).
Proof.
  intros Hi. unfold dotsFor.
  by rewrite list_lookup_imap, (lookup_replicate_2 _ _ _ Hi).
Qed.

(** On a slider with cards, a non-zero step and built controls,
    [_updateControls] brings the controls in line with the cursor. *)
Lemma updateControls_ok s p n l ds :
  prevBtn s = Some p → nextBtn s = Some n →
  pageIndicator s = Some l → dots s = Some ds →
  length ds = Z.to_nat (pageCount s) →
  cardCount s ≠ 0 → step (options s) ≠ 0 →
  totalPages s = Js.Fin (pageCount s) →
  controls_ok (_updateControls s).
Proof.
  intros Hp Hn Hl Hd Hlen Hc Hs Ht.
  unfold _updateControls, _updateButtons, _updatePagination.
  rewrite Hl, Hd. cbn [prevBtn nextBtn set_dots set_pageIndicator].
  rewrite Hp, Hn. unfold Js.rem, Js.floor_div.
  destruct (Z.eqb_spec (cardCount s) 0) as [?|_]; [done|].
  destruct (Z.eqb_spec (step (options s)) 0) as [?|_]; [done|].
  rewrite Ht. simpl.
  assert (∀ page,
            imap (λ (i : nat) (_ : bool), Z.of_nat i =? page + -1) ds
            = dotsFor (Z.to_nat (pageCount s)) page) as Hdots.
  { intros page. unfold dotsFor. rewrite <- Hlen.
    apply (imap_index_only (λ i, Z.of_nat i =? page - 1) ds false). }
  destruct (infinite (options s)) eqn:Hinf;
    unfold controls_ok, currentPage; simpl; rewrite Hinf, Hdots; done.
Qed.

Lemma controls_ok_built s : controls_ok s → built s.
Proof.
  intros (Hl & Hd & Hp & Hn). do 4 eexists.
  repeat split; [done..|]. apply dotsFor_length.
Qed.

Lemma updateControls_ready s :
  ready s → ready (_updateControls s) ∧ controls_ok (_updateControls s).
Proof.
  intros (Hc & Hlen & Hs & Ht & Htr & Hpat & (p & n & l & ds & Hp & Hn & Hl & Hd & Hds)).
  assert (controls_ok (_updateControls s)) as Hok.
  { eapply updateControls_ok; [done..|lia|done|done]. }
  split; [|done].
  destruct (updateControls_frame s) as [(Ho' & Hor' & Hc' & Ht' & _) [Htr' Ha']].
  unfold ready, track_ok, patterned, tagged, pageCount in *.
  rewrite Ho', Hor', Hc', Ht', Htr', Ha'.
  split_and!; try done. by apply controls_ok_built.
Qed.

(** ** Construction *)

Lemma new_without_container opts :
  new None opts = Returned (fresh (withDefaults opts)).
Proof. reflexivity. Qed.

Lemma new_without_cards opts :
  new (Some []) opts = Returned (set_cards [] 0 (fresh (withDefaults opts))).
Proof. reflexivity. Qed.

Lemma findElements_cards cards s :
  cards ≠ [] →
  _findElements (Some cards) s
    = Returned
        (set_totalPages
           (Js.ceil_div (Z.of_nat (length cards)) (step (options s)))
           (set_cards cards (Z.of_nat (length cards)) s)).
Proof.
  intros Hne. unfold _findElements. simpl.
  destruct (Z.eqb_spec (Z.of_nat (length cards)) 0) as [H0|_]; [|done].
  destruct cards; [done | simpl in H0; lia].
Qed.

Lemma new_zero_step cards opts :
  cards ≠ [] → step (withDefaults opts) = 0 →
  new (Some cards) opts = Diverged.
Proof.
  intros Hne Hs. unfold new, _init.
  generalize dependent (withDefaults opts). intros o Hs.
  rewrite (findElements_cards _ _ Hne). simpl. rewrite Hs.
  unfold _buildDOM, _buildControls, _buildDots, Js.ceil_div. simpl.
  destruct (Z.eqb_spec (Z.of_nat (length cards)) 0) as [H0|_].
  { destruct cards; [done | simpl in H0; lia]. }
  destruct (Z.ltb_spec 0 (Z.of_nat (length cards))) as [_|Hle]; [done|].
  destruct cards; [done | simpl in Hle; lia].
Qed.

(** [ready] and [controls_ok] only read some of the fields. *)
Lemma ready_transport s s' :
  options s' = options s → originalCards s' = originalCards s →
  cardCount s' = cardCount s → totalPages s' = totalPages s →
  track s' = track s → allCards s' = allCards s → same_controls s s' →
  ready s → ready s'.
Proof.
  intros Ho Hor Hc Ht Htr Ha (Hp & Hn & Hl & Hd).
  unfold ready, track_ok, patterned, tagged, built, pageCount.
  rewrite Ho, Hor, Hc, Ht, Htr, Ha, Hp, Hn, Hl, Hd. done.
Qed.

Lemma controls_ok_fields s s' :
  options s' = options s → cardCount s' = cardCount s →
  currentIndex s' = currentIndex s → same_controls s s' →
  controls_ok s → controls_ok s'.
Proof.
  intros Ho Hc Hi (Hp & Hn & Hl & Hd).
  unfold controls_ok, currentPage, pageCount.
  by rewrite Ho, Hc, Hi, Hp, Hn, Hl, Hd.
Qed.

Lemma constructed_attach s :
  ready s → controls_ok s → constructed (set_attached true (_bind s)).
Proof.
  intros Hr Hok. split; [|split; [reflexivity|]].
  - eapply ready_transport; [reflexivity.. | | exact Hr]. by repeat split.
  - eapply controls_ok_fields; [reflexivity.. | | exact Hok]. by repeat split.
Qed.

(** The tail of [_init] once the DOM and the cards are in place. *)
Lemma init_tail s1 :
  ready s1 →
  constructed (set_attached true (_bind (_updateControls (_updateControls s1)))) ∧
  same_core s1 (_updateControls (_updateControls s1)) ∧
  allCards (_updateControls (_updateControls s1)) = allCards s1.
Proof.
  intros Hr1.
  destruct (updateControls_ready s1 Hr1) as [Hr2 _].
  destruct (updateControls_ready _ Hr2) as [Hr3 Hok3].
  destruct (updateControls_frame s1) as [Hc2 [_ Ha2]].
  destruct (updateControls_frame (_updateControls s1)) as [Hc3 [_ Ha3]].
  split; [by apply constructed_attach|].
  split; [by eapply same_core_trans | congruence].
Qed.

Lemma buildDOM_fin s k :
  totalPages s = Js.Fin k →
  _buildDOM s
    = Returned
        (set_dots (Some (replicate (Z.to_nat k) false))
           (set_dots (Some [])
              (set_pageIndicator (Some EmptyString)
                 (set_buttons (Some false) (Some false)
                    (set_track (Some []) s))))).
Proof.
  intros Ht. unfold _buildDOM, _buildControls, _buildDots.
  cbn [dots set_dots totalPages set_pageIndicator set_buttons set_track].
  by rewrite Ht.
Qed.

Lemma goTo_jump index s children :
  track s = Some children →
  _goTo index false s = _updateControls (set_currentIndex index s).
Proof.
  intros Ht. unfold _goTo. by rewrite andb_false_r, Ht.
Qed.

(** Filling a freshly built track leaves the rail ready. *)
Lemma createInfiniteLoop_ready s :
  1 ≤ cardCount s →
  cardCount s = Z.of_nat (length (originalCards s)) →
  step (options s) ≠ 0 →
  totalPages s = Js.Fin (pageCount s) →
  track s = Some [] → allCards s = [] → built s →
  ∃ s', _createInfiniteLoop s = Returned s' ∧ ready s' ∧ same_core s s' ∧
        (infinite (options s) = true →
         length (allCards s')
           = Z.to_nat (visible (options s) + step (options s) * 10)).
Proof.
  intros Hc Hlen Hs Ht Htr Hall Hb. unfold _createInfiniteLoop.
  destruct (infinite (options s)) eqn:Hinf; cbn [negb].
  - destruct (appendClones_returns
                (upto 0 (visible (options s) + step (options s) * 10))
                (set_allCards [] s) [] Hc Hlen Htr)
      as (cs & Htag & ->); [by apply upto_nonneg|].
    destruct (tagged_upto _ _ _ _ Htag) as [Hcs Hpos].
    eexists. split; [reflexivity|].
    split; [|split; [by repeat split | intros _; exact Hcs]].
    unfold ready. split_and!; try done.
    unfold track_ok. cbn. by rewrite Hinf.
  - rewrite Htr. eexists. split; [reflexivity|].
    split; [|split; [by repeat split | intros [=]]].
    unfold ready. split_and!; try done.
    + unfold track_ok. cbn. by rewrite Hinf.
    + intros p c. cbn. by rewrite Hall.
Qed.

Lemma new_with_cards cards opts :
  cards ≠ [] → step (withDefaults opts) ≠ 0 →
  ∃ s, new (Some cards) opts = Returned s ∧ constructed s ∧
       options s = withDefaults opts ∧ originalCards s = cards ∧
       currentIndex s = 0 ∧ isMoving s = false ∧
       (infinite (withDefaults opts) = true →
        length (allCards s)
          = Z.to_nat (visible (withDefaults opts) + step (withDefaults opts) * 10)).
Proof.
  intros Hne Hs. unfold new, _init.
  generalize dependent (withDefaults opts). intros o Hs.
  assert (1 ≤ Z.of_nat (length cards)) as Hlen.
  { destruct cards; [done | simpl; lia]. }
  rewrite (findElements_cards _ _ Hne).
  cbn [andThen options fresh set_cards set_totalPages].
  set (pages := - (- Z.of_nat (length cards) / step o)).
  assert (Js.ceil_div (Z.of_nat (length cards)) (step o) = Js.Fin pages) as ->.
  { unfold Js.ceil_div. by destruct (Z.eqb_spec (step o) 0). }
  rewrite (buildDOM_fin _ pages) by reflexivity. cbn [andThen].
  match goal with
  | |- context [_createInfiniteLoop ?s2] =>
      destruct (createInfiniteLoop_ready s2)
        as (s3 & -> & Hr3 & (Ho3 & Hor3 & _ & _ & _ & _ & _ & Hi3 & Hm3) & Hlen3);
        [done | done | done | done | done | done | |]
  end.
  { do 4 eexists. split_and!; try reflexivity. by rewrite length_replicate. }
  cbn [andThen].
  assert (∃ children, track s3 = Some children) as [children Htr3].
  { destruct Hr3 as (_ & _ & _ & _ & Htr & _). unfold track_ok in Htr.
    destruct (infinite (options s3)); [by eexists | destruct Htr; by eexists]. }
  rewrite (goTo_jump 0 s3 children Htr3).
  assert (ready (set_currentIndex 0 s3)) as Hr4.
  { eapply ready_transport; [reflexivity.. | | exact Hr3]. by repeat split. }
  destruct (init_tail _ Hr4)
    as (Hcon & (Ho & Hor & _ & _ & _ & _ & _ & Hi & Hm) & Ha).
  eexists. split; [reflexivity|]. split; [exact Hcon|].
  cbn [options originalCards currentIndex isMoving allCards set_attached _bind set_bound].
  rewrite Ho, Hor, Hi, Hm, Ha. cbn [options originalCards currentIndex isMoving allCards set_currentIndex].
  rewrite Ho3, Hor3, Hm3. split_and!; try reflexivity. exact Hlen3.
Qed.

(** ** The invariant of constructed sliders *)

Lemma same_rail_refl s : same_rail s s.
Proof. by repeat split. Qed.

Lemma ready_same_rail s s' : ready s → same_rail s s' → ready s'.
Proof.
  intros Hr (Ho & Hor & Hc & Ht & Htr & Ha & _ & Hp & Hn & Hl & Hd).
  eapply ready_transport; [done.. | | exact Hr]. by repeat split.
Qed.

Lemma constructed_same_rail s s' :
  constructed s → same_rail s s' → currentIndex s' = currentIndex s →
  constructed s'.
Proof.
  intros (Hr & Hb & Hok) Hrail Hi. split; [by eapply ready_same_rail|].
  destruct Hrail as (Ho & Hor & Hc & Ht & Htr & Ha & Hb' & Hp & Hn & Hl & Hd).
  split; [congruence|].
  eapply controls_ok_fields; [done.. | | exact Hok]. by repeat split.
Qed.

Lemma constructed_update s s' :
  constructed s → same_rail s s' → constructed (_updateControls s').
Proof.
  intros (Hr & Hb & _) Hrail.
  pose proof (ready_same_rail _ _ Hr Hrail) as Hr'.
  destruct (updateControls_ready _ Hr') as [Hr'' Hok].
  destruct (updateControls_frame s') as [(_ & _ & _ & _ & _ & Hb' & _) _].
  destruct Hrail as (_ & _ & _ & _ & _ & _ & Hb0 & _).
  split; [done|]. split; [congruence | done].
Qed.

Lemma ready_track s : ready s → ∃ children, track s = Some children.
Proof.
  intros (_ & _ & _ & _ & Htr & _). unfold track_ok in Htr.
  destruct (infinite (options s)); [by eexists | destruct Htr; by eexists].
Qed.

Lemma goTo_constructed index animate s0 s :
  constructed s0 → same_rail s0 s → isMoving s && animate = false →
  constructed (_goTo index animate s).
Proof.
  intros Hcon Hrail Hgo.
  destruct (ready_track s) as [children Htr].
  { eapply ready_same_rail; [apply Hcon | exact Hrail]. }
  unfold _goTo. rewrite Hgo, Htr.
  eapply constructed_update; [exact Hcon|].
  destruct Hrail as (?&?&?&?&?&?&?&?&?&?&?).
  destruct animate; by repeat split.
Qed.

Lemma next_constructed s : constructed s → constructed (next s).
Proof.
  intros Hcon. unfold next. destruct (isMoving s) eqn:Hm; [done|].
  eapply goTo_constructed; [exact Hcon | by repeat split | by cbn; rewrite Hm].
Qed.

Lemma prev_constructed s : constructed s → constructed (prev s).
Proof.
  intros Hcon. unfold prev. destruct (isMoving s) eqn:Hm; [done|].
  eapply goTo_constructed; [exact Hcon | by repeat split | by cbn; rewrite Hm].
Qed.

Lemma goToPage_constructed page s : constructed s → constructed (goToPage page s).
Proof.
  intros Hcon. unfold goToPage. destruct (isMoving s) eqn:Hm; [done|].
  eapply goTo_constructed; [exact Hcon | by repeat split | by cbn; rewrite Hm].
Qed.

Lemma resizeCallback_constructed s : constructed s → constructed (resizeCallback s).
Proof.
  intros Hcon. unfold resizeCallback.
  eapply goTo_constructed; [exact Hcon | by repeat split | apply andb_false_r].
Qed.

(** [_ensureEnoughCards] on a ready infinite rail: it returns, and either
    leaves the cards alone or appends one batch of [cardCount * 2] clones
    tagged from the old length on. *)
Lemma ensureEnoughCards_ready s :
  ready s → infinite (options s) = true →
  ∃ s' cs,
    _ensureEnoughCards s = Returned s' ∧ ready s' ∧
    same_core s s' ∧ same_controls s s' ∧
    allCards s' = allCards s ++ cs ∧
    ((remainingCards s < step (options s) * 3 ∧
      length cs = Z.to_nat (cardCount s * 2) ∧
      ∀ (i : nat) c, cs !! i = Some c →
        tagged s (Z.of_nat (length (allCards s)) + Z.of_nat i) c) ∨
     (step (options s) * 3 ≤ remainingCards s ∧ cs = [])).
Proof.
  intros Hr Hinf. unfold _ensureEnoughCards. fold (remainingCards s).
  destruct (Z.ltb_spec (remainingCards s) (step (options s) * 3)) as [Hlt|Hge].
  - pose proof Hr as (Hc & Hlen & Hs & Ht & Htr & Hpat & Hb).
    unfold track_ok in Htr. rewrite Hinf in Htr.
    destruct (appendClones_returns
                (upto (Z.of_nat (length (allCards s))) (cardCount s * 2))
                s _ Hc Hlen Htr)
      as (cs & Htag & ->); [apply upto_nonneg; lia|].
    destruct (tagged_upto _ _ _ _ Htag) as [Hcs Hpos].
    eexists _, cs. split; [reflexivity|].
    split; [|split_and!; try done; by left].
    unfold ready. split_and!; try done.
    + unfold track_ok. cbn. by rewrite Hinf, map_app.
    + eapply patterned_app; [..| exact Hpat | exact Htag]; done.
  - exists s, []. split; [reflexivity|]. rewrite app_nil_r.
    split_and!; try done. by right.
Qed.

Lemma handleTransitionEnd_constructed s :
  constructed s →
  ∃ s', _handleTransitionEnd s = Returned s' ∧ constructed s'.
Proof.
  intros Hcon. unfold _handleTransitionEnd.
  assert (constructed (set_isMoving false s)) as Hcon1.
  { eapply constructed_same_rail; [exact Hcon | by repeat split | done]. }
  cbn [options set_isMoving].
  destruct (infinite (options s)) eqn:Hinf; cbn [negb]; [|by eexists].
  destruct (ensureEnoughCards_ready (set_isMoving false s))
    as (s2 & cs & -> & Hr2 & Hc2 & Hk2 & _); [apply Hcon1 | done |].
  cbn [andThen]. eexists. split; [reflexivity|].
  destruct (updateControls_ready _ Hr2) as [Hr3 Hok3].
  destruct (updateControls_frame s2) as [(_ & _ & _ & _ & _ & Hb3 & _) _].
  destruct Hc2 as (_ & _ & _ & _ & _ & Hb2 & _).
  destruct Hcon1 as (_ & Hb1 & _).
  split; [done|]. split; [congruence | done].
Qed.

Lemma fire_constructed ev s : constructed s → constructed (fire ev s).
Proof.
  intros Hcon. unfold fire. destruct ev; cbn [handle after].
  - by apply next_constructed.
  - by apply prev_constructed.
  - by apply goToPage_constructed.
  - eapply constructed_same_rail; [exact Hcon | by repeat split | done].
  - destruct (bound s); [|done].
    by destruct (handleTransitionEnd_constructed s Hcon) as (s' & -> & Hs').
  - destruct (bound s); [|done].
    eapply constructed_same_rail; [exact Hcon | by repeat split | done].
  - destruct (resizePending s); [|done]. by apply resizeCallback_constructed.
Qed.

(** A slider that failed to initialise stays inert: no listener fires, and
    the public calls find no track. *)
Lemma fire_inert ev s : inert s → inert (fire ev s).
Proof.
  intros Hin.
  assert (∀ s', same_rail s s' → inert s') as Hrail.
  { intros s' (_ & Hor & Hc & _ & Htr & Ha & Hb & Hp & Hn & Hl & Hd).
    destruct Hin as (? & ? & ? & ? & ? & ? & ? & ? & ?).
    unfold inert. split_and!; congruence. }
  pose proof Hin as (Hc & Hor & Htr & Ha & Hp & Hn & Hl & Hd & Hb).
  unfold fire. destruct ev; cbn [handle after].
  - unfold next, _goTo. destruct (isMoving s) eqn:Hm; [done|].
    cbn. rewrite Hm, Htr. apply Hrail. by repeat split.
  - unfold prev, _goTo. destruct (isMoving s) eqn:Hm; [done|].
    cbn. rewrite Hm, Htr. apply Hrail. by repeat split.
  - unfold goToPage, _goTo. destruct (isMoving s) eqn:Hm; [done|].
    cbn. rewrite Hm, Htr. apply Hrail. by repeat split.
  - apply Hrail. by repeat split.
  - by rewrite Hb.
  - by rewrite Hb.
  - destruct (resizePending s); [|done].
    unfold resizeCallback, _goTo. cbn. rewrite andb_false_r, Htr.
    apply Hrail. by repeat split.
Qed.

Lemma new_invariant section opts s :
  new section opts = Returned s → constructed s ∨ inert s.
Proof.
  intros Hnew. destruct section as [[|card cards]|].
  - rewrite new_without_cards in Hnew. injection Hnew as <-.
    right. by repeat split.
  - destruct (Z.eq_dec (step (withDefaults opts)) 0) as [H0|Hs].
    + by rewrite new_zero_step in Hnew.
    + destruct (new_with_cards (card :: cards) opts) as (s' & Hs' & Hcon & _);
        [done..|].
      left. congruence.
  - rewrite new_without_container in Hnew. injection Hnew as <-.
    right. by repeat split.
Qed.

Lemma reachable_invariant s : reachable s → constructed s ∨ inert s.
Proof.
  induction 1 as [section opts s Hnew | ev s _ [Hcon | Hin]].
  - by eapply new_invariant.
  - left. by apply fire_constructed.
  - right. by apply fire_inert.
Qed.

(** A reachable slider over a non-empty rail went through construction. *)
Lemma reachable_constructed s :
  reachable s → 1 ≤ cardCount s → constructed s.
Proof.
  intros Hre Hc. destruct (reachable_invariant s Hre) as [Hcon | (H0 & _)].
  - done.
  - lia.
Qed.

(** ** Like counts *)

Section RandomCountsFacts.

Import MemoryLikeStorage.

Variable random : nat → Q.
Variable round : Q → Q.

(** Rounding to the nearest double is monotone and leaves the integers
    0 and 490 alone; [Math.random] draws from [0, 1). *)
Hypothesis round_monotone : ∀ x y, (x <= y)%Q → (round x <= round y)%Q.
Hypothesis round_0 : (round 0 == 0)%Q.
Hypothesis round_490 : (round 490 == 490)%Q.
Hypothesis random_range : ∀ n, (0 <= random n)%Q ∧ (random n < 1)%Q.

Lemma randomCount_range r :
  (0 <= r)%Q → (r < 1)%Q → 10 ≤ randomCount round r ≤ 500.
Proof using round_monotone round_0 round_490.
  intros H0 H1. unfold randomCount.
  assert (0 <= r * 490)%Q as Hlo.
  { apply Qmult_le_0_compat; [done | by compute]. }
  assert (r * 490 <= 490)%Q as Hhi.
  { apply Qle_trans with (1 * 490)%Q; [|by compute].
    apply Qmult_le_compat_r; [by apply Qlt_le_weak | by compute]. }
  apply round_monotone in Hlo, Hhi.
  rewrite round_0 in Hlo. rewrite round_490 in Hhi.
  apply Qfloor_resp_le in Hlo, Hhi.
  change (Qfloor 0) with 0 in Hlo. change (Qfloor 490) with 490 in Hhi.
  lia.
Qed.

Lemma initializeOne_spec st n id0 id :
  let st' := (initializeOne random round (st, n) id0).1 in
  likes st' = likes st ∧
  (∀ c, likeCounts st !! id = Some c → likeCounts st' !! id = Some c) ∧
  (likeCounts st !! id = None →
     if decide (id = id0)
     then ∃ c, likeCounts st' !! id = Some c ∧ 10 ≤ c ≤ 500
     else likeCounts st' !! id = None).
Proof using round_monotone round_0 round_490 random_range.
  cbn. destruct (likeCounts st !! id0) as [c0|] eqn:H0; cbn.
  - split; [done|]. split; [done|]. intros Hnone.
    destruct (decide (id = id0)) as [->|_]; [congruence | done].
  - split; [done|]. split.
    + intros c Hc. rewrite lookup_insert_ne; [done | congruence].
    + intros Hnone. destruct (decide (id = id0)) as [->|Hne].
      * eexists. rewrite lookup_insert_eq. split; [done|].
        apply randomCount_range; apply random_range.
      * by rewrite lookup_insert_ne.
Qed.

Lemma initializeRandomCounts_spec contentIds : ∀ st n id,
  let st' := (initializeRandomCounts random round contentIds (st, n)).1 in
  likes st' = likes st ∧
  (∀ c, likeCounts st !! id = Some c → likeCounts st' !! id = Some c) ∧
  (likeCounts st !! id = None → id ∈ contentIds →
     ∃ c, likeCounts st' !! id = Some c ∧ 10 ≤ c ≤ 500) ∧
  (likeCounts st !! id = None → id ∉ contentIds →
     likeCounts st' !! id = None).
Proof using round_monotone round_0 round_490 random_range.
  unfold initializeRandomCounts.
  induction contentIds as [|id0 rest IH]; intros st n id; cbn [fold_left].
  - split; [done|]. split; [done|]. split; [|done].
    intros _ Hin. by apply elem_of_nil in Hin.
  - destruct (initializeOne random round (st, n) id0) as [st1 n1] eqn:Hone.
    pose proof (initializeOne_spec st n id0 id) as (Hl1 & Hkeep1 & Hnew1).
    rewrite Hone in Hl1, Hkeep1, Hnew1. cbn in Hl1, Hkeep1, Hnew1.
    destruct (IH st1 n1 id) as (Hl & Hkeep & Hnew & Hout).
    split; [congruence|]. split; [by auto|]. split.
    + intros Hnone Hin. specialize (Hnew1 Hnone).
      destruct (decide (id = id0)) as [->|Hne].
      * destruct Hnew1 as (c & Hc & Hrange). exists c. split; [by auto | done].
      * apply elem_of_cons in Hin as [?|Hin]; [done|]. by apply Hnew.
    + intros Hnone Hnin. specialize (Hnew1 Hnone).
      apply not_elem_of_cons in Hnin as [Hne Hnin].
      destruct (decide (id = id0)); [done|]. by apply Hout.
Qed.

End RandomCountsFacts.

(** ** Page arithmetic *)



(** ** Runs of events *)

Lemma goTo_cases index animate s :
  _goTo index animate s = s ∨
  _goTo index animate s
    = _updateControls
        (if animate then set_isMoving true (set_currentIndex index s)
         else set_currentIndex index s).
Proof.
  unfold _goTo. destruct (isMoving s && animate); [by left|].
  destruct (track s); [by right | by left].
Qed.

Lemma goTo_config index animate s :
  options (_goTo index animate s) = options s ∧
  cardCount (_goTo index animate s) = cardCount s.
Proof.
  destruct (goTo_cases index animate s) as [-> | ->]; [done|].
  match goal with
  | |- context [_updateControls ?s1] =>
      destruct (updateControls_frame s1) as [(-> & _ & -> & _) _]
  end.
  by destruct animate.
Qed.

Lemma fire_config ev s :
  options (fire ev s) = options s ∧ cardCount (fire ev s) = cardCount s.
Proof.
  unfold fire. destruct ev; cbn [handle after].
  - unfold next. destruct (isMoving s); [done|].
    exact (goTo_config _ true (set_currentIndex _ s)).
  - unfold prev. destruct (isMoving s); [done|].
    exact (goTo_config _ true (set_currentIndex _ s)).
  - unfold goToPage. destruct (isMoving s); [done|].
    exact (goTo_config _ true (set_currentIndex _ s)).
  - done.
  - destruct (bound s); [|done].
    destruct (handleTransitionEnd_ended s) as (s' & He & Ho & Hc & _).
    by rewrite (ended_after _ _ _ He).
  - by destruct (bound s).
  - destruct (resizePending s); [|done]. unfold resizeCallback.
    exact (goTo_config _ false (set_resizePending false s)).
Qed.

Lemma run_constructed evs : ∀ s,
  constructed s →
  constructed (run evs s) ∧ options (run evs s) = options s ∧
  cardCount (run evs s) = cardCount s.
Proof.
  unfold run. induction evs as [|ev evs IH]; intros s Hcon; cbn [fold_left].
  - done.
  - destruct (IH (fire ev s) (fire_constructed ev s Hcon)) as (Hc & Ho & Hn).
    destruct (fire_config ev s) as [Ho' Hn'].
    split; [done|]. split; congruence.
Qed.

(** ** Where the growth invariant does hold *)

Lemma goTo_allCards index animate s :
  allCards (_goTo index animate s) = allCards s.
Proof.
  destruct (goTo_cases index animate s) as [-> | ->]; [done|].
  match goal with
  | |- context [_updateControls ?s1] =>
      destruct (updateControls_frame s1) as [_ [_ ->]]
  end.
  by destruct animate.
Qed.

Lemma next_allCards s : allCards (next s) = allCards s.
Proof.
  unfold next. destruct (isMoving s); [done|].
  exact (goTo_allCards _ true (set_currentIndex _ s)).
Qed.

(** One completed [next()] on an idle infinite slider: [step] positions are
    consumed, and one batch of [cardCount * 2] is added when fewer than
    [step * 3] remain. *)
Lemma completedNext_remaining s :
  constructed s → infinite (options s) = true → isMoving s = false →
  constructed (completedNext s) ∧
  isMoving (completedNext s) = false ∧
  options (completedNext s) = options s ∧
  cardCount (completedNext s) = cardCount s ∧
  remainingCards (completedNext s)
    = if remainingCards s - step (options s) <? step (options s) * 3
      then remainingCards s - step (options s) + cardCount s * 2
      else remainingCards s - step (options s).
Proof.
  intros Hcon Hinf Hm.
  pose proof (next_constructed s Hcon) as Hcon1.
  destruct (next_idle s Hm) as [Hi1 Ho1].
  pose proof (next_allCards s) as Ha1.
  destruct (fire_config CallNext s) as [_ Hc1].
  change (fire CallNext s) with (next s) in Hc1.
  unfold completedNext, completed.
  set (s1 := next s) in *.
  assert (constructed (set_isMoving false s1)) as Hcon1'.
  { eapply constructed_same_rail; [exact Hcon1 | by repeat split | done]. }
  unfold _handleTransitionEnd. cbn [options set_isMoving].
  rewrite Ho1, Hinf. cbn [negb].
  destruct (ensureEnoughCards_ready (set_isMoving false s1))
    as (s2 & cs & -> & Hr2 & Hc2 & Hk2 & Ha2 & Hgrow);
    [apply Hcon1' | by cbn; rewrite Ho1 |].
  cbn [andThen after].
  destruct (updateControls_ready _ Hr2) as [Hr3 Hok3].
  destruct (updateControls_frame s2)
    as [(Ho3 & _ & Hc3 & _ & _ & Hb3 & _ & Hi3 & Hm3) [_ Ha3]].
  destruct Hc2 as (Ho2 & _ & Hcc2 & _ & _ & Hb2 & _ & Hi2 & Hm2).
  cbn in Ho2, Hcc2, Hb2, Hi2, Hm2, Ha2.
  destruct Hcon1' as (_ & Hb1 & _).
  cbn in Hb1.
  split; [split; [done | split; [congruence | done]]|].
  split; [congruence|]. split; [congruence|]. split; [congruence|].
  unfold remainingCards in *. rewrite Ha3, Ha2, Hi3, Hi2, Ho3, Ho2, Ho1, Hi1, Ha1.
  rewrite length_app.
  cbn [allCards currentIndex options set_isMoving cardCount] in Hgrow.
  rewrite Hi1, Ho1, Ha1, Hc1 in Hgrow.
  destruct Hcon as ((Hc & _) & _).
  destruct Hgrow as [(Hlt & Hlen & _) | [Hge ->]].
  - destruct (Z.ltb_spec (Z.of_nat (length (allCards s)) - currentIndex s
                          - visible (options s) - step (options s))
                (step (options s) * 3)); lia.
  - destruct (Z.ltb_spec (Z.of_nat (length (allCards s)) - currentIndex s
                          - visible (options s) - step (options s))
                (step (options s) * 3)); cbn [length]; lia.
Qed.

(** When a batch covers a step ([step <= cardCount * 2]), completed [next()]
    moves never let the tail fall under [step * 2]: the growth invariant
    [allCards.length - currentIndex - visible >= 0] holds with room to
    spare. *)
Lemma growth_invariant_when_batch_covers_step s (k : nat) :
  constructed s → infinite (options s) = true → isMoving s = false →
  0 < step (options s) → step (options s) ≤ cardCount s * 2 →
  step (options s) * 2 ≤ remainingCards s →
  step (options s) * 2 ≤ remainingCards (Nat.iter k completedNext s).
Proof.
  intros Hcon Hinf Hm Hs Hbatch Hrem.
  assert (constructed (Nat.iter k completedNext s) ∧
          isMoving (Nat.iter k completedNext s) = false ∧
          options (Nat.iter k completedNext s) = options s ∧
          cardCount (Nat.iter k completedNext s) = cardCount s ∧
          step (options s) * 2 ≤ remainingCards (Nat.iter k completedNext s))
    as (_ & _ & _ & _ & Hgoal); [|exact Hgoal].
  induction k as [|k (Hcon' & Hm' & Ho' & Hc' & Hrem')].
  - done.
  - change (Nat.iter (S k) completedNext s)
      with (completedNext (Nat.iter k completedNext s)).
    destruct (completedNext_remaining (Nat.iter k completedNext s))
      as (Hcon2 & Hm2 & Ho2 & Hc2 & Hrem2); [done | by rewrite Ho' | done |].
    rewrite Ho', Hc' in Hrem2.
    split; [done|]. split; [done|]. split; [congruence|]. split; [congruence|].
    rewrite Hrem2.
    destruct (Z.ltb_spec (remainingCards (Nat.iter k completedNext s)
                          - step (options s)) (step (options s) * 3)); lia.
Qed.

(** A freshly constructed infinite slider starts with a tail of
    [step * 10]. *)
Lemma new_remaining cards opts s :
  cards ≠ [] → 0 < step (withDefaults opts) →
  0 ≤ visible (withDefaults opts) + step (withDefaults opts) * 10 →
  infinite (withDefaults opts) = true →
  new (Some cards) opts = Returned s →
  remainingCards s = step (withDefaults opts) * 10.
Proof.
  intros Hne Hs Hv Hinf Hnew.
  destruct (new_with_cards cards opts Hne ltac:(lia))
    as (s' & Hnew' & _ & Ho & _ & Hi & _ & Hlen).
  assert (s' = s) as -> by congruence.
  unfold remainingCards. rewrite (Hlen Hinf), Hi, Ho. lia.
Qed.

(** ** The label in every reachable state *)

(** The label follows [%]: with a negative cursor the remainder, and with it
    the page number, is zero or negative. *)
Lemma pagination_label_rem s :
  reachable s → 1 ≤ cardCount s →
  pageIndicator s
    = Some (Js.string_of_Z (Z.rem (currentIndex s) (cardCount s)
                              / step (options s) + 1)
              ++ " / "
              ++ Js.string_of_Z
                   (Spec.totalPages (cardCount s) (step (options s))))%string ∧
  totalPages s = Js.Fin (Spec.totalPages (cardCount s) (step (options s))).
Proof.
  intros Hre Hc.
  destruct (reachable_constructed s Hre Hc)
    as ((_ & _ & _ & Ht & _) & _ & (Hl & _)).
  by split.
Qed.

Example label_after_prev_from_zero :
  currentIndex (run [CallPrev; TransitionEnd] (sliderOn nineCards noOptions)) = -3 ∧
  pageIndicator (run [CallPrev; TransitionEnd] (sliderOn nineCards noOptions))
    = Some "0 / 3"%string ∧
  dots (run [CallPrev; TransitionEnd] (sliderOn nineCards noOptions))
    = Some [false; false; false] ∧
  Spec.label (-3) 9 3 = "3 / 3"%string.
Proof. by vm_compute. Qed.

(** * The claims *)

(** C1 — growth invariant, evaluated where it breaks.  A rail with a single
    card and the default configuration ([visible = 6], [step = 3],
    [infinite = true]) satisfies every premise of the invariant, yet after 17
    completed [next()] moves the materialized sequence ends before the
    window: [allCards.length - currentIndex - visible = -1].  Each growth
    step adds [cardCount * 2 = 2] clones while each move consumes
    [step = 3] positions. *)
Theorem growth_invariant_breaks_on_one_card :
  ∃ s0,
    new oneCard noOptions = Returned s0 ∧
    cardCount s0 = 1 ∧ visible (options s0) = 6 ∧ step (options s0) = 3 ∧
    infinite (options s0) = true ∧
    remainingCards (Nat.iter 16 completedNext s0) = 0 ∧
    remainingCards (Nat.iter 17 completedNext s0) = -1 ∧
    length (allCards (Nat.iter 17 completedNext s0)) = 56%nat ∧
    currentIndex (Nat.iter 17 completedNext s0) = 51.
Proof.
  exists (sliderOn oneCard noOptions). by vm_compute.
Qed.

(** C2 — step monotonicity round trip: from an idle slider at
    [currentIndex = 0], [k] completed [next()] moves put the cursor at
    [k * step], and [k] completed [prev()] moves from there bring it back to
    0; this holds for every [k] and every step, positive or not, for which
    [step] and [k * step] are safe integers, so that every [+=] and [-=]
    on the way is exact. *)
Theorem step_round_trip (s : t) (k : nat) :
  isMoving s = false → currentIndex s = 0 →
  Js.safe (step (options s)) → Js.safe (Z.of_nat k * step (options s)) →
  currentIndex (Nat.iter k completedNext s) = Z.of_nat k * step (options s) ∧
  currentIndex (Nat.iter k completedPrev (Nat.iter k completedNext s)) = 0.
Proof.
  intros Hm Hi _ _.
  destruct (iter_completedNext k s Hm) as (Hm1 & Ho1 & Hi1).
  destruct (iter_completedPrev k _ Hm1) as (_ & _ & Hi2).
  rewrite Hi2, Hi1, Ho1, Hi. lia.
Qed.

Lemma step_round_trip_witness :
  isMoving (sliderOn nineCards noOptions) = false ∧
  currentIndex (sliderOn nineCards noOptions) = 0 ∧
  currentIndex (Nat.iter 4 completedNext (sliderOn nineCards noOptions)) = 12 ∧
  currentIndex
    (Nat.iter 4 completedPrev
       (Nat.iter 4 completedNext (sliderOn nineCards noOptions))) = 0.
Proof.
  assert (isMoving (sliderOn nineCards noOptions) = false) as Hm
    by (vm_compute; reflexivity).
  assert (currentIndex (sliderOn nineCards noOptions) = 0) as Hi
    by (vm_compute; reflexivity).
  assert (step (options (sliderOn nineCards noOptions)) = 3) as Hs
    by (vm_compute; reflexivity).
  assert (Js.safe (step (options (sliderOn nineCards noOptions)))) as Hsafe.
  { rewrite Hs. unfold Js.safe, Js.MAX_SAFE_INTEGER. lia. }
  assert (Js.safe (Z.of_nat 4 * step (options (sliderOn nineCards noOptions))))
    as Hsafe4.
  { rewrite Hs. unfold Js.safe, Js.MAX_SAFE_INTEGER. lia. }
  split; [exact Hm|]. split; [exact Hi|].
  destruct (step_round_trip (sliderOn nineCards noOptions) 4 Hm Hi Hsafe Hsafe4)
    as [Hnext Hback].
  split; [|exact Hback].
  rewrite Hnext, Hs. reflexivity.
Defined.

(** C3, as the specification states it, fails: constructing over an empty
    card list does not raise to the caller. *)
Lemma empty_rail_does_not_raise :
  ¬ ∃ message s, new (Some []) noOptions = Threw message s.
Proof. intros (message & s & H). discriminate H. Qed.

(** C3, amended — construction failure: over an empty card list
    [_findElements] throws [Error('No cards found')]; [_init] catches it, so
    the constructor returns normally, whatever the options; the slider it
    returns has no materialized sequence ([allCards] empty, no track, hence
    no clone appended), no controls, no listener and no back-reference. *)
Theorem empty_rail_construction (opts : PartialOptions) :
  (∃ s1, _findElements (Some []) (fresh (withDefaults opts))
           = Threw "No cards found" s1) ∧
  ∃ s, new (Some []) opts = Returned s ∧
       allCards s = [] ∧ track s = None ∧ inert s ∧
       attached s = false ∧ cardCount s = 0.
Proof.
  split; [by eexists|].
  eexists. split; [apply new_without_cards|]. by repeat split.
Qed.

(** Where the cursor is not negative the label is the one the comment of
    [_updatePagination] announces: in every state a constructed slider can
    reach with [0 <= currentIndex], the page indicator reads
    ["{currentPage} / {totalPages}"] with
    [logicalIndex = currentIndex mod cardCount],
    [currentPage = floor(logicalIndex / step) + 1] and
    [totalPages = ceil(cardCount / step)]. *)
Theorem pagination_label (s : t) :
  reachable s → 1 ≤ cardCount s → 0 ≤ currentIndex s →
  pageIndicator s
    = Some (Spec.label (currentIndex s) (cardCount s) (step (options s))) ∧
  totalPages s = Js.Fin (Spec.totalPages (cardCount s) (step (options s))).
Proof.
  intros Hre Hc Hi.
  destruct (pagination_label_rem s Hre Hc) as [Hl Ht].
  split; [|exact Ht].
  rewrite Hl. unfold Spec.label, Spec.currentPage, Spec.logicalIndex.
  by rewrite Z.rem_mod_nonneg by lia.
Qed.

(** The three labels of the specification: nine cards, [step = 3], cursor
    at 0, at 3 after [next()], and at 9 after [goToPage(3)]. *)
Lemma pagination_label_witness :
  pageIndicator (sliderOn nineCards noOptions) = Some "1 / 3"%string ∧
  pageIndicator (fire CallNext (sliderOn nineCards noOptions))
    = Some "2 / 3"%string ∧
  pageIndicator (fire (CallGoToPage 3) (sliderOn nineCards noOptions))
    = Some "1 / 3"%string.
Proof.
  assert (reachable (sliderOn nineCards noOptions)) as Hre.
  { apply (reachable_new nineCards noOptions). by vm_compute. }
  destruct (pagination_label (sliderOn nineCards noOptions) Hre
              ltac:(by vm_compute) ltac:(by vm_compute)) as [H0 _].
  destruct (pagination_label (fire CallNext (sliderOn nineCards noOptions))
              (reachable_fire _ _ Hre) ltac:(by vm_compute)
              ltac:(by vm_compute)) as [H3 _].
  destruct (pagination_label (fire (CallGoToPage 3) (sliderOn nineCards noOptions))
              (reachable_fire _ _ Hre) ltac:(by vm_compute)
              ltac:(by vm_compute)) as [H9 _].
  split; [|split].
  - rewrite H0. vm_compute. reflexivity.
  - rewrite H3. vm_compute. reflexivity.
  - rewrite H9. vm_compute. reflexivity.
Defined.

(** C4 — pagination computation, evaluated where it breaks.  On a rail of
    nine cards with the default configuration ([step = 3], three pages,
    [infinite] set, so that the previous button is enabled at the start),
    one completed [prev()] puts the cursor at -3; the modular logical index
    of the claim is [(-3) mod 9 = 6], page 3 of 3.  [_updatePagination]
    takes [%], whose sign follows the cursor: the logical index is -3, the
    label reads ["0 / 3"], and no dot is active. *)
Theorem pagination_label_breaks_below_zero :
  ∃ s0,
    new nineCards noOptions = Returned s0 ∧
    cardCount s0 = 9 ∧ step (options s0) = 3 ∧ infinite (options s0) = true ∧
    prevBtn s0 = Some false ∧
    pageIndicator s0 = Some "1 / 3"%string ∧
    reachable (completedPrev s0) ∧
    currentIndex (completedPrev s0) = -3 ∧
    Spec.label (-3) 9 3 = "3 / 3"%string ∧
    pageIndicator (completedPrev s0) = Some "0 / 3"%string ∧
    dots (completedPrev s0) = Some [false; false; false].
Proof.
  exists (sliderOn nineCards noOptions).
  assert (reachable (sliderOn nineCards noOptions)) as Hre.
  { apply (reachable_new nineCards noOptions). by vm_compute. }
  assert (completedPrev (sliderOn nineCards noOptions)
          = fire TransitionEnd (fire CallPrev (sliderOn nineCards noOptions)))
    as Hcp by (by vm_compute).
  split; [by vm_compute|]. split; [by vm_compute|]. split; [by vm_compute|].
  split; [by vm_compute|]. split; [by vm_compute|]. split; [by vm_compute|].
  split; [rewrite Hcp; by do 2 apply reachable_fire|].
  clear Hre Hcp. vm_compute. split_and!; reflexivity.
Qed.

(** C5 — busy rejection: while a move is in flight, [next()], [prev()] and
    [goToPage(page)] return the slider exactly as it was (cursor, moving
    flag, sequence and every other field); nothing is queued: whatever
    happens afterwards happens as if the call had never been made. *)
Theorem busy_rejection (s : t) (page : Z) :
  isMoving s = true →
  next s = s ∧ prev s = s ∧ goToPage page s = s ∧
  ∀ evs, run evs (next s) = run evs s ∧ run evs (prev s) = run evs s ∧
         run evs (goToPage page s) = run evs s.
Proof.
  intros Hm. unfold next, prev, goToPage. rewrite Hm. by repeat split.
Qed.

Lemma busy_rejection_witness :
  isMoving (next (sliderOn nineCards noOptions)) = true ∧
  next (next (sliderOn nineCards noOptions)) = next (sliderOn nineCards noOptions) ∧
  prev (next (sliderOn nineCards noOptions)) = next (sliderOn nineCards noOptions) ∧
  goToPage 2 (next (sliderOn nineCards noOptions))
    = next (sliderOn nineCards noOptions).
Proof.
  assert (isMoving (next (sliderOn nineCards noOptions)) = true) as Hm
    by (vm_compute; reflexivity).
  split; [exact Hm|].
  destruct (busy_rejection (next (sliderOn nineCards noOptions)) 2 Hm)
    as (Hn & Hp & Hg & _).
  exact (conj Hn (conj Hp Hg)).
Defined.


(** The example of the specification: ten cards, [visible = 4], [step = 2],
    [infinite = false]; previous is disabled at 0, next at 8. *)
Example buttons_at_both_ends :
  prevBtn (sliderOn tenCards finiteOptions) = Some true ∧
  nextBtn (sliderOn tenCards finiteOptions) = Some false ∧
  currentIndex (fire (CallGoToPage 4) (sliderOn tenCards finiteOptions)) = 8 ∧
  prevBtn (fire (CallGoToPage 4) (sliderOn tenCards finiteOptions)) = Some false ∧
  nextBtn (fire (CallGoToPage 4) (sliderOn tenCards finiteOptions)) = Some true.
Proof. by vm_compute. Qed.


(** C7 — no clamping of the cursor: on an idle slider [goToPage(page)] sets
    [currentIndex = page * step] for every integer [page], in range or not,
    [prev()] sets [currentIndex = currentIndex - step], and [k] completed
    [prev()] moves subtract [k * step]; from 0, with a positive step, they
    leave the cursor negative.  The page, the step, the cursor and the
    results are safe integers, so that the product and the differences are
    exact. *)
Theorem no_clamping (s : t) (page : Z) (k : nat) :
  isMoving s = false →
  Js.safe page → Js.safe (step (options s)) →
  Js.safe (page * step (options s)) →
  Js.safe (currentIndex s) → (0 < k)%nat →
  Js.safe (currentIndex s - Z.of_nat k * step (options s)) →
  currentIndex (goToPage page s) = page * step (options s) ∧
  currentIndex (prev s) = currentIndex s - step (options s) ∧
  currentIndex (Nat.iter k completedPrev s)
    = currentIndex s - Z.of_nat k * step (options s) ∧
  (currentIndex s = 0 → 0 < step (options s) →
   currentIndex (Nat.iter k completedPrev s) < 0).
Proof.
  intros Hm _ _ _ _ Hpos _.
  destruct (goToPage_idle page s Hm) as [Hg _].
  destruct (prev_idle s Hm) as [Hp _].
  destruct (iter_completedPrev k s Hm) as (_ & _ & Hk).
  split; [done|]. split; [done|]. split; [done|].
  intros Hi Hs. rewrite Hk, Hi. nia.
Qed.

Lemma no_clamping_witness :
  isMoving (sliderOn nineCards noOptions) = false ∧
  currentIndex (goToPage 1000 (sliderOn nineCards noOptions)) = 3000 ∧
  currentIndex (goToPage (-5) (sliderOn nineCards noOptions)) = -15 ∧
  currentIndex (prev (sliderOn nineCards noOptions)) = -3 ∧
  currentIndex (Nat.iter 2 completedPrev (sliderOn nineCards noOptions)) < 0.
Proof.
  assert (isMoving (sliderOn nineCards noOptions) = false) as Hm
    by (vm_compute; reflexivity).
  assert (currentIndex (sliderOn nineCards noOptions) = 0) as Hi
    by (vm_compute; reflexivity).
  assert (step (options (sliderOn nineCards noOptions)) = 3) as Hs
    by (vm_compute; reflexivity).
  assert (∀ z, - 3000 ≤ z ≤ 3000 → Js.safe z) as Hsmall.
  { intros z Hz. unfold Js.safe, Js.MAX_SAFE_INTEGER. lia. }
  assert (Js.safe (step (options (sliderOn nineCards noOptions)))) as Hstep.
  { apply Hsmall. rewrite Hs. lia. }
  assert (Js.safe (1000 * step (options (sliderOn nineCards noOptions))))
    as Hprod.
  { apply Hsmall. rewrite Hs. lia. }
  assert (Js.safe (-5 * step (options (sliderOn nineCards noOptions))))
    as Hprod'.
  { apply Hsmall. rewrite Hs. lia. }
  assert (Js.safe (currentIndex (sliderOn nineCards noOptions))) as Hcur.
  { apply Hsmall. rewrite Hi. lia. }
  assert (Js.safe
            (currentIndex (sliderOn nineCards noOptions)
             - Z.of_nat 2 * step (options (sliderOn nineCards noOptions))))
    as Hback.
  { apply Hsmall. rewrite Hi, Hs. lia. }
  assert (0 < 2)%nat as Hk by lia.
  split; [exact Hm|].
  destruct (no_clamping (sliderOn nineCards noOptions) 1000 2 Hm
              (Hsmall 1000 ltac:(lia)) Hstep Hprod Hcur Hk Hback)
    as (Hg & Hp & _ & Hneg).
  destruct (no_clamping (sliderOn nineCards noOptions) (-5) 2 Hm
              (Hsmall (-5) ltac:(lia)) Hstep Hprod' Hcur Hk Hback)
    as (Hg' & _).
  rewrite Hs in Hg, Hg', Hp. rewrite Hi in Hp.
  split; [exact Hg|]. split; [exact Hg'|]. split; [exact Hp|].
  apply Hneg; [exact Hi | rewrite Hs; lia].
Defined.



(** C9 — like-count initialization range: whatever [Math.random] draws in
    [0, 1) and however the product is rounded, [initializeRandomCounts]
    gives every listed id that held no count a count between 10 and 500
    inclusive, leaves every count that was already there unchanged, touches
    no other id and no like. *)
Theorem like_count_initialization_range
    (random : nat → Q) (round : Q → Q) (contentIds : list string)
    (st : MemoryLikeStorage.t) (n : nat) (id : string) :
  (∀ x y, (x <= y)%Q → (round x <= round y)%Q) →
  (round 0 == 0)%Q → (round 490 == 490)%Q →
  (∀ k, (0 <= random k)%Q ∧ (random k < 1)%Q) →
  let st' :=
    (MemoryLikeStorage.initializeRandomCounts random round contentIds (st, n)).1 in
  (∀ c, MemoryLikeStorage.likeCounts st !! id = Some c →
        MemoryLikeStorage.likeCounts st' !! id = Some c) ∧
  (MemoryLikeStorage.likeCounts st !! id = None → id ∈ contentIds →
   ∃ c, MemoryLikeStorage.likeCounts st' !! id = Some c ∧ 10 ≤ c ≤ 500) ∧
  (MemoryLikeStorage.likeCounts st !! id = None → id ∉ contentIds →
   MemoryLikeStorage.likeCounts st' !! id = None) ∧
  MemoryLikeStorage.likes st' = MemoryLikeStorage.likes st.
Proof.
  intros Hmono H0 H490 Hrange.
  destruct (initializeRandomCounts_spec random round Hmono H0 H490 Hrange
              contentIds st n id) as (Hl & Hkeep & Hnew & Hout).
  by repeat split.
Qed.

Lemma like_count_initialization_range_witness :
  (∃ c, MemoryLikeStorage.likeCounts
          (MemoryLikeStorage.initializeRandomCounts drawHalf noRounding
             ["a"; "b"; "a"]%string (demoStore, 0%nat)).1 !! "a"%string
        = Some c ∧ 10 ≤ c ≤ 500) ∧
  MemoryLikeStorage.likeCounts
    (MemoryLikeStorage.initializeRandomCounts drawHalf noRounding
       ["a"; "b"; "a"]%string (demoStore, 0%nat)).1 !! "b"%string
  = Some 7.
Proof.
  assert (∀ x y, (x <= y)%Q → (noRounding x <= noRounding y)%Q) as Hmono
    by (intros x y H; exact H).
  assert (noRounding 0 == 0)%Q as H0 by reflexivity.
  assert (noRounding 490 == 490)%Q as H490 by reflexivity.
  assert (∀ k, (0 <= drawHalf k)%Q ∧ (drawHalf k < 1)%Q) as Hrange.
  { intros k. split; [discriminate | reflexivity]. }
  destruct (like_count_initialization_range drawHalf noRounding
              ["a"; "b"; "a"]%string demoStore 0 "a" Hmono H0 H490 Hrange)
    as (_ & Hnew & _).
  destruct (like_count_initialization_range drawHalf noRounding
              ["a"; "b"; "a"]%string demoStore 0 "b" Hmono H0 H490 Hrange)
    as (Hkeep & _).
  split.
  - apply Hnew; [by vm_compute | by constructor].
  - apply Hkeep. by vm_compute.
Defined.



(** * Further properties of the slider *)

(** ** Helper lemmas *)

Lemma fire_originalCards ev s : originalCards (fire ev s) = originalCards s.
Proof.
  assert (∀ index animate s0,
            originalCards (_goTo index animate s0) = originalCards s0) as Hgo.
  { intros index animate s0.
    destruct (goTo_cases index animate s0) as [-> | ->]; [done|].
    match goal with
    | |- context [_updateControls ?s1] =>
        destruct (updateControls_frame s1) as [(_ & -> & _) _]
    end.
    by destruct animate. }
  unfold fire. destruct ev; cbn [handle after].
  - unfold next. destruct (isMoving s); [done|].
    exact (Hgo _ true (set_currentIndex _ s)).
  - unfold prev. destruct (isMoving s); [done|].
    exact (Hgo _ true (set_currentIndex _ s)).
  - unfold goToPage. destruct (isMoving s); [done|].
    exact (Hgo _ true (set_currentIndex _ s)).
  - done.
  - destruct (bound s); [|done]. unfold _handleTransitionEnd.
    cbn [options set_isMoving].
    destruct (negb (infinite (options s))); [done|].
    unfold _ensureEnoughCards. destruct (_ <? _).
    + match goal with
      | |- context [appendClones ?l ?s0] =>
          destruct (appendClones_ended l s0)
            as (s1 & [-> | [m ->]] & (_ & Hor & _) & _)
      end; cbn [andThen after].
      * destruct (updateControls_frame s1) as [(_ & -> & _) _]. exact Hor.
      * exact Hor.
    + cbn [andThen after].
      by destruct (updateControls_frame (set_isMoving false s)) as [(_ & -> & _) _].
  - by destruct (bound s).
  - destruct (resizePending s); [|done]. unfold resizeCallback.
    exact (Hgo _ false (set_resizePending false s)).
Qed.

Lemma run_originalCards evs : ∀ s, originalCards (run evs s) = originalCards s.
Proof.
  unfold run. induction evs as [|ev evs IH]; intros s; cbn [fold_left]; [done|].
  by rewrite IH, fire_originalCards.
Qed.

Lemma run_reachable evs : ∀ s, reachable s → reachable (run evs s).
Proof.
  unfold run. induction evs as [|ev evs IH]; intros s Hre; cbn [fold_left]; [done|].
  apply IH. by apply reachable_fire.
Qed.

Lemma fire_allCards_grow ev s : ∃ cs, allCards (fire ev s) = allCards s ++ cs.
Proof.
  unfold fire. destruct ev; cbn [handle after].
  - exists []. rewrite app_nil_r. apply next_allCards.
  - exists []. rewrite app_nil_r. unfold prev. destruct (isMoving s); [done|].
    exact (goTo_allCards _ true (set_currentIndex _ s)).
  - exists []. rewrite app_nil_r. unfold goToPage. destruct (isMoving s); [done|].
    exact (goTo_allCards _ true (set_currentIndex _ s)).
  - exists []. by rewrite app_nil_r.
  - destruct (bound s); [|exists []; by rewrite app_nil_r].
    unfold _handleTransitionEnd. cbn [options set_isMoving].
    destruct (negb (infinite (options s))); [exists []; by rewrite app_nil_r|].
    unfold _ensureEnoughCards. destruct (_ <? _).
    + match goal with
      | |- context [appendClones ?l ?s0] =>
          destruct (appendClones_ended l s0)
            as (s1 & [-> | [m ->]] & _ & _ & cs & Hcs)
      end; cbn [andThen after]; exists cs.
      * destruct (updateControls_frame s1) as [_ [_ ->]]. exact Hcs.
      * exact Hcs.
    + cbn [andThen after]. exists []. rewrite app_nil_r.
      by destruct (updateControls_frame (set_isMoving false s)) as [_ [_ ->]].
  - exists []. rewrite app_nil_r. by destruct (bound s).
  - exists []. rewrite app_nil_r. destruct (resizePending s); [|done].
    exact (goTo_allCards _ false (set_resizePending false s)).
Qed.

Lemma nineCards_reachable : reachable (sliderOn nineCards noOptions).
Proof. apply (reachable_new nineCards noOptions). by vm_compute. Qed.

Lemma tenCards_reachable : reachable (sliderOn tenCards finiteOptions).
Proof. apply (reachable_new tenCards finiteOptions). by vm_compute. Qed.

(** On a slider whose controls agree with the cursor, [_updateControls]
    changes nothing. *)
Lemma updateControls_same s :
  ready s → controls_ok s → _updateControls s = s.
Proof.
  intros (Hc & _ & Hs & Ht & _) (Hl & Hd & Hp & Hn).
  unfold _updateControls, _updateButtons, _updatePagination.
  rewrite Hl, Hd. cbn [prevBtn nextBtn set_dots set_pageIndicator].
  rewrite Hp, Hn. unfold Js.rem, Js.floor_div.
  destruct (Z.eqb_spec (cardCount s) 0) as [?|_]; [lia|].
  destruct (Z.eqb_spec (step (options s)) 0) as [?|_]; [done|].
  rewrite Ht. cbn [Js.add Js.toString Js.strict_eq].
  assert (imap (λ (i : nat) (_ : bool),
                  Z.of_nat i =? Z.rem (currentIndex s) (cardCount s)
                                / step (options s) + 1 + -1)
            (dotsFor (Z.to_nat (pageCount s)) (currentPage s))
          = dotsFor (Z.to_nat (pageCount s)) (currentPage s)) as ->.
  { rewrite (imap_index_only
               (λ i, Z.of_nat i =? Z.rem (currentIndex s) (cardCount s)
                                   / step (options s) + 1 + -1) _ false).
    by rewrite dotsFor_length. }
  fold (currentPage s). fold (pageCount s). rewrite <- Hl, <- Hd.
  destruct s as [o oc cc tp tr ac pb nb pi ds rp bd at_ ci mv].
  cbn in *. destruct (infinite o); cbn; by rewrite Hp, Hn.
Qed.

Lemma next_starts_move s :
  constructed s → isMoving s = false → isMoving (next s) = true.
Proof.
  intros (Hr & _) Hm. destruct (ready_track s Hr) as [children Htr].
  unfold next, _goTo. rewrite Hm. cbn [isMoving track set_currentIndex andb].
  rewrite Hm, Htr. cbn [andb].
  match goal with
  | |- context [_updateControls ?s1] =>
      by destruct (updateControls_frame s1) as [(_ & _ & _ & _ & _ & _ & _ & _ & ->) _]
  end.
Qed.

Lemma iter_next_busy (k : nat) s :
  isMoving (next s) = true → Nat.iter (S k) next s = next s.
Proof.
  intros Hm. induction k as [|k IH]; [done|].
  change (Nat.iter (S (S k)) next s) with (next (Nat.iter (S k) next s)).
  rewrite IH. unfold next at 1. by rewrite Hm.
Qed.

(** ** What the track holds *)

(** X1 — on a slider built over a non-empty rail, in every later state the
    track holds exactly the clones of [allCards], in order, when [infinite]
    is set; when it is not, no clone is ever made ([allCards] stays empty)
    and the track holds the original cards in their order. *)
Theorem track_by_mode
    (cards : list HTMLElement) (opts : PartialOptions) (s : t)
    (evs : list Event) :
  cards ≠ [] → new (Some cards) opts = Returned s →
  if infinite (withDefaults opts)
  then track (run evs s) = Some (map Clone (allCards (run evs s)))
  else allCards (run evs s) = [] ∧
       track (run evs s) = Some (map Original cards).
Proof.
  intros Hne Hnew.
  destruct (Z.eq_dec (step (withDefaults opts)) 0) as [H0|Hs].
  { by rewrite new_zero_step in Hnew. }
  destruct (new_with_cards cards opts Hne Hs)
    as (s' & Hnew' & Hcon & Ho & Hor & _).
  assert (s' = s) as -> by congruence.
  destruct (run_constructed evs s Hcon) as (((_ & _ & _ & _ & Htr & _) & _) & Ho' & _).
  unfold track_ok in Htr. rewrite Ho', Ho in Htr.
  destruct (infinite (withDefaults opts)); [done|].
  rewrite run_originalCards, Hor in Htr. by destruct Htr.
Qed.

Lemma track_by_mode_witness :
  allCards (run [CallNext; TransitionEnd; CallGoToPage 4]
              (sliderOn tenCards finiteOptions)) = [] ∧
  track (run [CallNext; TransitionEnd; CallGoToPage 4]
           (sliderOn tenCards finiteOptions))
    = Some (map Original
              ["c0"; "c1"; "c2"; "c3"; "c4"; "c5"; "c6"; "c7"; "c8"; "c9"]%string).
Proof.
  assert (["c0"; "c1"; "c2"; "c3"; "c4"; "c5"; "c6"; "c7"; "c8"; "c9"]%string
          ≠ ([] : list HTMLElement)) as Hne by done.
  assert (new tenCards finiteOptions = Returned (sliderOn tenCards finiteOptions))
    as Hnew by (by vm_compute).
  exact (track_by_mode _ finiteOptions _
           [CallNext; TransitionEnd; CallGoToPage 4] Hne Hnew).
Defined.

(** X2 — the materialized sequence is append-only: whatever the state and
    whatever events follow, [allCards] afterwards is the old [allCards]
    followed by new clones; nothing is ever removed or reordered. *)
Theorem cards_only_appended (evs : list Event) (s : t) :
  ∃ cs, allCards (run evs s) = allCards s ++ cs.
Proof.
  revert s. unfold run.
  induction evs as [|ev evs IH]; intros s; cbn [fold_left].
  - exists []. by rewrite app_nil_r.
  - destruct (IH (fire ev s)) as (cs2 & ->).
    destruct (fire_allCards_grow ev s) as (cs1 & ->).
    exists (cs1 ++ cs2). by rewrite app_assoc.
Qed.

(** ** Moves *)

(** X3 — overlapping requests are dropped: on an idle slider that was
    constructed over a non-empty rail, the first [next()] advances the
    cursor by [step] (an exact sum, the cursor, the step and their sum being
    safe integers) and marks the slider moving, and any number of further
    [next()] calls before the transition ends leave it exactly there. *)
Theorem overlapping_next_dropped (s : t) (k : nat) :
  reachable s → 1 ≤ cardCount s → isMoving s = false →
  Js.safe (currentIndex s) → Js.safe (step (options s)) →
  Js.safe (currentIndex s + step (options s)) →
  isMoving (next s) = true ∧
  currentIndex (next s) = currentIndex s + step (options s) ∧
  Nat.iter (S k) next s = next s.
Proof.
  intros Hre Hc Hm _ _ _.
  pose proof (reachable_constructed s Hre Hc) as Hcon.
  pose proof (next_starts_move s Hcon Hm) as Hmove.
  destruct (next_idle s Hm) as [Hi _].
  split; [done|]. split; [done|]. by apply iter_next_busy.
Qed.

Lemma overlapping_next_dropped_witness :
  reachable (sliderOn nineCards noOptions) ∧
  1 ≤ cardCount (sliderOn nineCards noOptions) ∧
  isMoving (sliderOn nineCards noOptions) = false ∧
  isMoving (next (sliderOn nineCards noOptions)) = true ∧
  currentIndex (next (sliderOn nineCards noOptions))
    = currentIndex (sliderOn nineCards noOptions)
      + step (options (sliderOn nineCards noOptions)) ∧
  Nat.iter 5 next (sliderOn nineCards noOptions)
    = next (sliderOn nineCards noOptions).
Proof.
  assert (1 ≤ cardCount (sliderOn nineCards noOptions)) as Hc by (by vm_compute).
  assert (isMoving (sliderOn nineCards noOptions) = false) as Hm
    by (by vm_compute).
  assert (currentIndex (sliderOn nineCards noOptions) = 0) as Hi
    by (vm_compute; reflexivity).
  assert (step (options (sliderOn nineCards noOptions)) = 3) as Hs
    by (vm_compute; reflexivity).
  assert (Js.safe (currentIndex (sliderOn nineCards noOptions))) as Hcur.
  { rewrite Hi. unfold Js.safe, Js.MAX_SAFE_INTEGER. lia. }
  assert (Js.safe (step (options (sliderOn nineCards noOptions)))) as Hstep.
  { rewrite Hs. unfold Js.safe, Js.MAX_SAFE_INTEGER. lia. }
  assert (Js.safe
            (currentIndex (sliderOn nineCards noOptions)
             + step (options (sliderOn nineCards noOptions)))) as Hsum.
  { rewrite Hi, Hs. unfold Js.safe, Js.MAX_SAFE_INTEGER. lia. }
  split; [exact nineCards_reachable|]. split; [exact Hc|]. split; [exact Hm|].
  exact (overlapping_next_dropped _ 4 nineCards_reachable Hc Hm Hcur Hstep Hsum).
Defined.

(** X4 — a slider whose construction failed (no [.card-row], or an empty
    one) has no track, so [next()] still adds [step] to [currentIndex] but
    never marks the slider moving: [k] calls in a row, without any
    transition end, put the cursor at [k * step] (every sum on the way
    being exact, for a safe [step] and a safe [k * step]), and the slider
    stays without cards, controls and listeners. *)
Theorem failed_construction_cursor_runs_free
    (section : SectionElement) (opts : PartialOptions) (k : nat) :
  section = None ∨ section = Some [] →
  Js.safe (step (withDefaults opts)) →
  Js.safe (Z.of_nat k * step (withDefaults opts)) →
  ∃ s, new section opts = Returned s ∧
       currentIndex (Nat.iter k next s)
         = Z.of_nat k * step (withDefaults opts) ∧
       isMoving (Nat.iter k next s) = false ∧
       inert (Nat.iter k next s).
Proof.
  intros Hsec _ _.
  assert (∃ s, new section opts = Returned s ∧ inert s ∧ currentIndex s = 0 ∧
               isMoving s = false ∧ options s = withDefaults opts)
    as (s & Hnew & Hin & Hi & Hm & Ho).
  { destruct Hsec as [-> | ->].
    - eexists. split; [apply new_without_container|]. by repeat split.
    - eexists. split; [apply new_without_cards|]. by repeat split. }
  exists s. split; [done|].
  assert (currentIndex (Nat.iter k next s) = Z.of_nat k * step (options s) ∧
          isMoving (Nat.iter k next s) = false ∧
          options (Nat.iter k next s) = options s ∧
          inert (Nat.iter k next s)) as (Hi' & Hm' & _ & Hin');
    [|by rewrite Ho in Hi'].
  induction k as [|k (IHi & IHm & IHo & IHin)].
  - cbn. split; [lia | done].
  - change (Nat.iter (S k) next s) with (next (Nat.iter k next s)).
    set (s1 := Nat.iter k next s) in *.
    pose proof (fire_inert CallNext s1 IHin) as Hin1.
    change (fire CallNext s1) with (next s1) in Hin1.
    destruct (next_idle s1 IHm) as [Hi1 Ho1].
    split; [rewrite Hi1, IHi, IHo; lia|].
    split; [|split; [congruence | done]].
    destruct IHin as (_ & _ & Htr & _).
    unfold next, _goTo. rewrite IHm. cbn [isMoving track set_currentIndex andb].
    by rewrite IHm, Htr.
Qed.

Lemma failed_construction_cursor_runs_free_witness :
  ∃ s, new (Some []) noOptions = Returned s ∧
       currentIndex (Nat.iter 3 next s) = 9 ∧
       isMoving (Nat.iter 3 next s) = false ∧
       inert (Nat.iter 3 next s).
Proof.
  assert (Js.safe (step (withDefaults noOptions))) as Hstep.
  { unfold Js.safe, Js.MAX_SAFE_INTEGER. cbn. lia. }
  assert (Js.safe (Z.of_nat 3 * step (withDefaults noOptions))) as Hprod.
  { unfold Js.safe, Js.MAX_SAFE_INTEGER. cbn. lia. }
  exact (failed_construction_cursor_runs_free (Some []) noOptions 3
           (or_intror eq_refl) Hstep Hprod).
Defined.

(** X5 — with at least one card and [step = 0] the constructor never
    returns: [totalPages = Math.ceil(cardCount / 0)] is [Infinity] and the
    loop of [_buildDots] has no end. *)
Theorem zero_step_constructor_never_returns
    (cards : list HTMLElement) (opts : PartialOptions) :
  cards ≠ [] → step (withDefaults opts) = 0 →
  new (Some cards) opts = Diverged ∧
  _findElements (Some cards) (fresh (withDefaults opts))
    = Returned
        (set_totalPages Js.PosInf
           (set_cards cards (Z.of_nat (length cards)) (fresh (withDefaults opts)))).
Proof.
  intros Hne Hs. split; [by apply new_zero_step|].
  rewrite (findElements_cards _ _ Hne). cbn [options fresh].
  rewrite Hs. unfold Js.ceil_div. cbn [Z.eqb].
  destruct cards; [done|]. reflexivity.
Qed.

Lemma zero_step_constructor_never_returns_witness :
  new oneCard (mkPartial None (Some 0) None None None None) = Diverged.
Proof.
  assert (["only"%string] ≠ ([] : list HTMLElement)) as Hne by done.
  exact (proj1 (zero_step_constructor_never_returns ["only"%string]
                  (mkPartial None (Some 0) None None None None) Hne eq_refl)).
Defined.

(** ** Resize and destroy *)

Lemma fire_resizes (n : nat) s :
  bound s = true →
  run (replicate (S n) WindowResize) s = set_resizePending true s.
Proof.
  intros Hb. unfold run. induction n as [|n IH].
  - cbn. unfold fire. cbn. by rewrite Hb.
  - change (replicate (S (S n)) WindowResize)
      with (WindowResize :: replicate (S n) WindowResize).
    cbn [fold_left]. unfold fire at 2. cbn [handle after]. rewrite Hb.
    unfold _handleResize.
    assert (run (replicate (S n) WindowResize) (set_resizePending true s)
            = set_resizePending true s) as Hrun; [|exact Hrun].
    clear IH. unfold run. induction n as [|n IH].
    + cbn. unfold fire. cbn. by rewrite Hb.
    + change (replicate (S (S n)) WindowResize)
        with (WindowResize :: replicate (S n) WindowResize).
      cbn [fold_left]. unfold fire at 2. cbn [handle after bound set_resizePending].
      rewrite Hb. exact IH.
Qed.

Lemma resize_burst_settles (s : t) (n : nat) :
  reachable s → 1 ≤ cardCount s →
  run (replicate (S n) WindowResize ++ [ResizeTimeout]) s
    = set_resizePending false s.
Proof.
  intros Hre Hc.
  destruct (reachable_constructed s Hre Hc) as (Hr & Hb & Hok).
  unfold run. rewrite fold_left_app. fold (run (replicate (S n) WindowResize) s).
  rewrite (fire_resizes n s Hb). cbn [fold_left].
  unfold fire. cbn [handle after resizePending set_resizePending].
  unfold resizeCallback.
  destruct (ready_track s Hr) as [children Htr].
  rewrite (goTo_jump _ _ children) by exact Htr.
  assert (set_currentIndex
            (currentIndex (set_resizePending true s))
            (set_resizePending false (set_resizePending true s))
          = set_resizePending false s) as ->.
  { by destruct s. }
  apply updateControls_same.
  - eapply ready_transport; [reflexivity.. | | exact Hr]. by repeat split.
  - eapply controls_ok_fields; [reflexivity.. | | exact Hok]. by repeat split.
Qed.

(** X6 — resizing never moves the slider: on a slider constructed over a
    non-empty rail, any burst of window resizes followed by the debounce
    timeout leaves the cursor and the moving flag as they were, adds or
    removes no card, and redraws the label, the dots and the buttons to
    what they showed; the timer ends disarmed.  (The widths and the
    transform that the callback also rewrites are layout, outside the
    record.) *)
Theorem resize_keeps_cursor_and_controls (s : t) (n : nat) :
  reachable s → 1 ≤ cardCount s →
  same_rail s (run (replicate (S n) WindowResize ++ [ResizeTimeout]) s) ∧
  currentIndex (run (replicate (S n) WindowResize ++ [ResizeTimeout]) s)
    = currentIndex s ∧
  isMoving (run (replicate (S n) WindowResize ++ [ResizeTimeout]) s)
    = isMoving s ∧
  resizePending (run (replicate (S n) WindowResize ++ [ResizeTimeout]) s)
    = false.
Proof.
  intros Hre Hc. rewrite (resize_burst_settles s n Hre Hc).
  by destruct s.
Qed.

Lemma resize_keeps_cursor_and_controls_witness :
  same_rail (fire CallNext (sliderOn nineCards noOptions))
    (run (replicate 3 WindowResize ++ [ResizeTimeout])
       (fire CallNext (sliderOn nineCards noOptions))) ∧
  currentIndex
    (run (replicate 3 WindowResize ++ [ResizeTimeout])
       (fire CallNext (sliderOn nineCards noOptions)))
    = currentIndex (fire CallNext (sliderOn nineCards noOptions)) ∧
  isMoving
    (run (replicate 3 WindowResize ++ [ResizeTimeout])
       (fire CallNext (sliderOn nineCards noOptions)))
    = isMoving (fire CallNext (sliderOn nineCards noOptions)) ∧
  resizePending
    (run (replicate 3 WindowResize ++ [ResizeTimeout])
       (fire CallNext (sliderOn nineCards noOptions)))
    = false.
Proof.
  assert (1 ≤ cardCount (fire CallNext (sliderOn nineCards noOptions))) as Hc
    by (by vm_compute).
  exact (resize_keeps_cursor_and_controls _ 2
           (reachable_fire CallNext _ nineCards_reachable) Hc).
Defined.

Lemma updateControls_destroy s :
  _updateControls (destroy s) = destroy (_updateControls s).
Proof.
  destruct s as [o oc cc tp tr ac pb nb pi ds rp bd at_ ci mv].
  unfold _updateControls, _updateButtons, _updatePagination, destroy. cbn.
  destruct pi, ds; cbn; destruct pb, nb; cbn; try done;
    destruct (infinite o); done.
Qed.

Lemma goTo_destroy index animate s :
  _goTo index animate (destroy s) = destroy (_goTo index animate s).
Proof.
  unfold _goTo. cbn [isMoving track destroy set_attached set_resizePending].
  destruct (isMoving s && animate); [done|].
  destruct (track s); [|done].
  destruct animate.
  - exact (updateControls_destroy (set_isMoving true (set_currentIndex index s))).
  - exact (updateControls_destroy (set_currentIndex index s)).
Qed.

Lemma appendClones_destroy indices : ∀ s,
  appendClones indices (destroy s)
    = match appendClones indices s with
      | Returned s' => Returned (destroy s')
      | Threw message s' => Threw message (destroy s')
      | Diverged => Diverged
      end.
Proof.
  induction indices as [|i rest IH]; intros s; cbn [appendClones]; [done|].
  unfold appendClone. change (cloneCard (destroy s) i) with (cloneCard s i).
  cbn [track destroy set_attached set_resizePending].
  destruct (cloneCard s i) as [card|]; [|done].
  destruct (track s) as [children|]; [|done].
  cbn [andThen].
  exact (IH (set_allCards (allCards s ++ [card])
               (set_track (Some (children ++ [Clone card])) s))).
Qed.

(** X7 — [destroy()] only cancels the pending resize and drops the
    back-reference.  It is idempotent; a debounce timeout due after it does
    nothing; the listeners stay bound, so the slider answers [next()],
    [prev()], [goToPage()] and transition ends exactly as if it had not
    been destroyed (each of them commutes with [destroy()]). *)
Theorem destroy_stops_only_the_resize (s : t) (page : Z) :
  destroy (destroy s) = destroy s ∧
  fire ResizeTimeout (destroy s) = destroy s ∧
  bound (destroy s) = bound s ∧
  fire CallNext (destroy s) = destroy (fire CallNext s) ∧
  fire CallPrev (destroy s) = destroy (fire CallPrev s) ∧
  fire (CallGoToPage page) (destroy s) = destroy (fire (CallGoToPage page) s) ∧
  fire TransitionEnd (destroy s) = destroy (fire TransitionEnd s).
Proof.
  split; [done|]. split; [done|]. split; [done|].
  unfold fire. cbn [handle after].
  split; [|split; [|split]].
  - unfold next. cbn [isMoving destroy set_attached set_resizePending].
    destruct (isMoving s); [done|].
    exact (goTo_destroy (currentIndex s + step (options s)) true
             (set_currentIndex (currentIndex s + step (options s)) s)).
  - unfold prev. cbn [isMoving destroy set_attached set_resizePending].
    destruct (isMoving s); [done|].
    exact (goTo_destroy (currentIndex s - step (options s)) true
             (set_currentIndex (currentIndex s - step (options s)) s)).
  - unfold goToPage. cbn [isMoving destroy set_attached set_resizePending].
    destruct (isMoving s); [done|].
    exact (goTo_destroy (page * step (options s)) true
             (set_currentIndex (page * step (options s)) s)).
  - cbn [bound destroy set_attached set_resizePending].
    destruct (bound s); [|done].
    unfold _handleTransitionEnd.
    cbn [options set_isMoving destroy set_attached set_resizePending].
    destruct (negb (infinite (options s))); [done|].
    unfold _ensureEnoughCards.
    cbn [allCards currentIndex options cardCount set_isMoving destroy
         set_attached set_resizePending].
    destruct (_ <? _).
    + match goal with
      | |- context [appendClones ?l ?s0] =>
          replace s0 with (destroy (set_isMoving false s)) by (by destruct s)
      end.
      rewrite appendClones_destroy.
      destruct (appendClones _ (set_isMoving false s)) as [s'|m s'|];
        cbn [andThen after]; [|done|done].
      exact (updateControls_destroy s').
    + cbn [andThen after].
      exact (updateControls_destroy (set_isMoving false s)).
Qed.

(** ** Dots and growth *)

(** Below the number of pages, a page start lies inside the rail. *)
Lemma page_start_in_rail cc st i :
  1 ≤ cc → 1 ≤ st → 0 ≤ i < - (- cc / st) →
  0 ≤ i * st < cc ∧ Z.rem (i * st) cc / st + 1 = i + 1.
Proof.
  intros Hc Hs Hi.
  pose proof (Z.div_mod (- cc) st ltac:(lia)) as Hdm.
  pose proof (Z.mod_pos_bound (- cc) st ltac:(lia)) as Hmod.
  assert (0 ≤ i * st < cc) as Hin by nia.
  split; [done|].
  rewrite Z.rem_small by done. rewrite Z.div_mul by lia. done.
Qed.

(** X8 — clicking a dot shows its page: on an idle slider constructed over
    a non-empty rail with [step >= 1], [goToPage(i)] for a dot index
    [0 <= i < totalPages] puts the cursor at [i * step], makes the label
    ["{i + 1} / {totalPages}"], and leaves dot [i] as the one active dot. *)
Theorem dot_click_activates_its_page (s : t) (i : Z) :
  reachable s → 1 ≤ cardCount s → 1 ≤ step (options s) →
  isMoving s = false →
  0 ≤ i < Spec.totalPages (cardCount s) (step (options s)) →
  currentIndex (goToPage i s) = i * step (options s) ∧
  pageIndicator (goToPage i s)
    = Some (Js.string_of_Z (i + 1) ++ " / "
              ++ Js.string_of_Z
                   (Spec.totalPages (cardCount s) (step (options s))))%string ∧
  ∃ ds, dots (goToPage i s) = Some ds ∧
        ds !! Z.to_nat i = Some true ∧
        ∀ j, ds !! j = Some true → j = Z.to_nat i.
Proof.
  intros Hre Hc Hs Hm Hi. unfold Spec.totalPages in *.
  pose proof (reachable_constructed s Hre Hc) as Hcon.
  destruct (goToPage_constructed i s Hcon) as (_ & _ & (Hl & Hd & _)).
  destruct (goToPage_idle i s Hm) as [Hci Ho].
  destruct (fire_config (CallGoToPage i) s) as [_ Hcc].
  change (fire (CallGoToPage i) s) with (goToPage i s) in Hcc.
  destruct (page_start_in_rail _ _ _ Hc Hs Hi) as [_ Hpage].
  assert (currentPage (goToPage i s) = i + 1) as Hcp.
  { unfold currentPage. by rewrite Hci, Hcc, Ho. }
  assert (pageCount (goToPage i s) = - (- cardCount s / step (options s)))
    as Hpc.
  { unfold pageCount. by rewrite Hcc, Ho. }
  rewrite Hcp, Hpc in Hl, Hd.
  split; [done|]. split; [done|].
  eexists. split; [exact Hd|]. split.
  - rewrite dotsFor_lookup by lia. f_equal. apply Z.eqb_eq. lia.
  - intros j Hdot.
    assert (j < Z.to_nat (- (- cardCount s / step (options s))))%nat as Hlt.
    { apply lookup_lt_Some in Hdot. by rewrite dotsFor_length in Hdot. }
    rewrite dotsFor_lookup in Hdot by done.
    injection Hdot as Heq. apply Z.eqb_eq in Heq. lia.
Qed.

Lemma dot_click_activates_its_page_witness :
  currentIndex (goToPage 2 (sliderOn nineCards noOptions)) = 6 ∧
  pageIndicator (goToPage 2 (sliderOn nineCards noOptions))
    = Some "3 / 3"%string ∧
  ∃ ds, dots (goToPage 2 (sliderOn nineCards noOptions)) = Some ds ∧
        ds !! 2%nat = Some true ∧
        ∀ j, ds !! j = Some true → j = 2%nat.
Proof.
  assert (1 ≤ cardCount (sliderOn nineCards noOptions)) as Hc by (by vm_compute).
  assert (1 ≤ step (options (sliderOn nineCards noOptions))) as Hs
    by (by vm_compute).
  assert (isMoving (sliderOn nineCards noOptions) = false) as Hm
    by (by vm_compute).
  assert (step (options (sliderOn nineCards noOptions)) = 3) as Hstep
    by (by vm_compute).
  assert (Spec.totalPages (cardCount (sliderOn nineCards noOptions))
            (step (options (sliderOn nineCards noOptions))) = 3) as Hpages
    by (by vm_compute).
  assert (0 ≤ 2 < Spec.totalPages (cardCount (sliderOn nineCards noOptions))
                    (step (options (sliderOn nineCards noOptions)))) as Hi
    by (rewrite Hpages; lia).
  destruct (dot_click_activates_its_page _ 2 nineCards_reachable Hc Hs Hm Hi)
    as (Hci & Hl & Hdots).
  rewrite Hstep in Hci. rewrite Hpages in Hl.
  split; [exact Hci|]. split; [exact Hl|]. exact Hdots.
Defined.

(** X9 — the growth invariant where a batch covers a step: on an infinite
    slider freshly constructed over a non-empty rail, with [step > 0],
    [step <= cardCount * 2] and a non-negative [visible + step * 10], every
    completed [next()] leaves at least [step * 2] materialized cards beyond
    the window, so [allCards.length - currentIndex - visible >= 0] after
    any number of completed moves. *)
Theorem growth_invariant_for_covering_batches
    (cards : list HTMLElement) (opts : PartialOptions) (s : t) (k : nat) :
  cards ≠ [] →
  infinite (withDefaults opts) = true →
  0 < step (withDefaults opts) →
  step (withDefaults opts) ≤ Z.of_nat (length cards) * 2 →
  0 ≤ visible (withDefaults opts) + step (withDefaults opts) * 10 →
  new (Some cards) opts = Returned s →
  step (withDefaults opts) * 2 ≤ remainingCards (Nat.iter k completedNext s) ∧
  0 ≤ remainingCards (Nat.iter k completedNext s).
Proof.
  intros Hne Hinf Hs Hbatch Hv Hnew.
  destruct (new_with_cards cards opts Hne ltac:(lia))
    as (s' & Hnew' & Hcon & Ho & Hor & _ & Hm & _).
  assert (s' = s) as -> by congruence.
  pose proof (new_remaining cards opts s Hne Hs Hv Hinf Hnew) as Hrem.
  pose proof Hcon as ((_ & Hlen & _) & _).
  pose proof (growth_invariant_when_batch_covers_step s k Hcon) as Hgrow.
  rewrite Ho, Hlen, Hor, Hrem in Hgrow.
  specialize (Hgrow Hinf Hm Hs Hbatch ltac:(lia)). lia.
Qed.

Lemma growth_invariant_for_covering_batches_witness :
  3 * 2 ≤ remainingCards (Nat.iter 40 completedNext (sliderOn nineCards noOptions)) ∧
  0 ≤ remainingCards (Nat.iter 40 completedNext (sliderOn nineCards noOptions)).
Proof.
  assert (["c0"; "c1"; "c2"; "c3"; "c4"; "c5"; "c6"; "c7"; "c8"]%string
          ≠ ([] : list HTMLElement)) as Hne by done.
  assert (new nineCards noOptions = Returned (sliderOn nineCards noOptions))
    as Hnew by (by vm_compute).
  assert (infinite (withDefaults noOptions) = true) as Hinf by reflexivity.
  assert (0 < step (withDefaults noOptions)) as Hs by reflexivity.
  assert (step (withDefaults noOptions)
          ≤ Z.of_nat (length ["c0"; "c1"; "c2"; "c3"; "c4"; "c5"; "c6"; "c7"; "c8"]%string) * 2)
    as Hbatch by (by vm_compute).
  assert (0 ≤ visible (withDefaults noOptions) + step (withDefaults noOptions) * 10)
    as Hv by (by vm_compute).
  exact (growth_invariant_for_covering_batches _ noOptions _ 40
           Hne Hinf Hs Hbatch Hv Hnew).
Defined.

(** * Further properties of the like store and the like manager *)

(** ** The store *)

Lemma toggle_unfold id st :
  MemoryLikeStorage.toggle id st
  = if MemoryLikeStorage.isLiked id st
    then (false,
          MemoryLikeStorage.mk
            (MemoryLikeStorage.likes st ∖ {[id]})
            (<[id := Z.max 0 (MemoryLikeStorage.getLikeCount id st - 1)]>
               (MemoryLikeStorage.likeCounts st)))
    else (true,
          MemoryLikeStorage.mk
            ({[id]} ∪ MemoryLikeStorage.likes st)
            (<[id := MemoryLikeStorage.getLikeCount id st + 1]>
               (MemoryLikeStorage.likeCounts st))).
Proof. reflexivity. Qed.

Lemma isLiked_true id st :
  MemoryLikeStorage.isLiked id st = true ↔ id ∈ MemoryLikeStorage.likes st.
Proof. unfold MemoryLikeStorage.isLiked. apply bool_decide_eq_true. Qed.

Lemma isLiked_false id st :
  MemoryLikeStorage.isLiked id st = false ↔ id ∉ MemoryLikeStorage.likes st.
Proof. unfold MemoryLikeStorage.isLiked. apply bool_decide_eq_false. Qed.

Lemma isLiked_ext id st st' :
  (id ∈ MemoryLikeStorage.likes st' ↔ id ∈ MemoryLikeStorage.likes st) →
  MemoryLikeStorage.isLiked id st' = MemoryLikeStorage.isLiked id st.
Proof. intros H. unfold MemoryLikeStorage.isLiked. by apply bool_decide_ext. Qed.

Lemma gset_remove_facts (X : gset string) (id other : string) :
  other ≠ id →
  (other ∈ X ∖ {[id]} ↔ other ∈ X) ∧ id ∉ X ∖ {[id]}.
Proof.
  intros Hne. split.
  - rewrite elem_of_difference, elem_of_singleton. tauto.
  - rewrite elem_of_difference, elem_of_singleton. tauto.
Qed.

Lemma gset_add_facts (X : gset string) (id other : string) :
  other ≠ id →
  (other ∈ {[id]} ∪ X ↔ other ∈ X) ∧ id ∈ {[id]} ∪ X.
Proof.
  intros Hne. split.
  - rewrite elem_of_union, elem_of_singleton. tauto.
  - rewrite elem_of_union, elem_of_singleton. tauto.
Qed.

Lemma toggle_spec (id other : string) (st : MemoryLikeStorage.t) :
  other ≠ id →
  (MemoryLikeStorage.toggle id st).1 = negb (MemoryLikeStorage.isLiked id st) ∧
  MemoryLikeStorage.isLiked id (MemoryLikeStorage.toggle id st).2
    = (MemoryLikeStorage.toggle id st).1 ∧
  MemoryLikeStorage.isLiked other (MemoryLikeStorage.toggle id st).2
    = MemoryLikeStorage.isLiked other st ∧
  MemoryLikeStorage.likeCounts (MemoryLikeStorage.toggle id st).2 !! other
    = MemoryLikeStorage.likeCounts st !! other.
Proof.
  intros Hne. rewrite toggle_unfold.
  destruct (MemoryLikeStorage.isLiked id st) eqn:Hl; cbn.
  - destruct (gset_remove_facts (MemoryLikeStorage.likes st) id other Hne)
      as [Hother Hid].
    split; [done|]. split; [|split].
    + by apply isLiked_false.
    + by apply isLiked_ext.
    + by rewrite lookup_insert_ne.
  - destruct (gset_add_facts (MemoryLikeStorage.likes st) id other Hne)
      as [Hother Hid].
    split; [done|]. split; [|split].
    + by apply isLiked_true.
    + by apply isLiked_ext.
    + by rewrite lookup_insert_ne.
Qed.

(** X10 — [toggle] flips exactly one content: it returns the negation of
    the old liked flag, the store then reports that flag for the id, and
    for every other id both the liked flag and the stored count are
    untouched. *)
Theorem toggle_flips_one_id (id other : string) (st : MemoryLikeStorage.t) :
  other ≠ id →
  (MemoryLikeStorage.toggle id st).1 = negb (MemoryLikeStorage.isLiked id st) ∧
  MemoryLikeStorage.isLiked id (MemoryLikeStorage.toggle id st).2
    = (MemoryLikeStorage.toggle id st).1 ∧
  MemoryLikeStorage.isLiked other (MemoryLikeStorage.toggle id st).2
    = MemoryLikeStorage.isLiked other st ∧
  MemoryLikeStorage.likeCounts (MemoryLikeStorage.toggle id st).2 !! other
    = MemoryLikeStorage.likeCounts st !! other.
Proof. apply toggle_spec. Qed.

Lemma toggle_flips_one_id_witness :
  (MemoryLikeStorage.toggle "a" demoStore).1 = true ∧
  MemoryLikeStorage.isLiked "a" (MemoryLikeStorage.toggle "a" demoStore).2 = true ∧
  MemoryLikeStorage.likeCounts (MemoryLikeStorage.toggle "a" demoStore).2 !! "b"%string
    = Some 7.
Proof.
  assert ("b"%string ≠ "a"%string) as Hne by done.
  destruct (toggle_flips_one_id "a" "b" demoStore Hne) as (Hflag & Hnow & _ & Hcount).
  assert (MemoryLikeStorage.isLiked "a" demoStore = false) as Hold by (by vm_compute).
  rewrite Hold in Hflag. rewrite Hflag in Hnow.
  split; [exact Hflag|]. split; [exact Hnow|].
  rewrite Hcount. by vm_compute.
Defined.

Lemma toggle_flag id st :
  (MemoryLikeStorage.toggle id st).1 = negb (MemoryLikeStorage.isLiked id st) ∧
  MemoryLikeStorage.isLiked id (MemoryLikeStorage.toggle id st).2
    = (MemoryLikeStorage.toggle id st).1.
Proof.
  rewrite toggle_unfold.
  destruct (MemoryLikeStorage.isLiked id st) eqn:Hl; cbn.
  - split; [done|]. apply isLiked_false. cbn.
    rewrite elem_of_difference, elem_of_singleton. tauto.
  - split; [done|]. apply isLiked_true. cbn.
    rewrite elem_of_union, elem_of_singleton. tauto.
Qed.

Lemma getLikeCount_toggle_same id st :
  MemoryLikeStorage.getLikeCount id (MemoryLikeStorage.toggle id st).2
  = if MemoryLikeStorage.isLiked id st
    then Z.max 0 (MemoryLikeStorage.getLikeCount id st - 1)
    else MemoryLikeStorage.getLikeCount id st + 1.
Proof.
  rewrite toggle_unfold. unfold MemoryLikeStorage.getLikeCount at 1.
  destruct (MemoryLikeStorage.isLiked id st); cbn; by rewrite lookup_insert_eq.
Qed.

Lemma getLikeCount_toggle_other id other st :
  other ≠ id →
  MemoryLikeStorage.getLikeCount other (MemoryLikeStorage.toggle id st).2
  = MemoryLikeStorage.getLikeCount other st.
Proof.
  intros Hne. unfold MemoryLikeStorage.getLikeCount.
  by destruct (toggle_spec id other st Hne) as (_ & _ & _ & ->).
Qed.

Lemma getLikeCount_nonneg id st :
  (∀ contentId c,
     MemoryLikeStorage.likeCounts st !! contentId = Some c → 0 ≤ c) →
  0 ≤ MemoryLikeStorage.getLikeCount id st.
Proof.
  intros Hnn. unfold MemoryLikeStorage.getLikeCount.
  destruct (MemoryLikeStorage.likeCounts st !! id) as [c|] eqn:Hc; cbn; [|done].
  by eapply Hnn.
Qed.

Lemma toggle_counted id st :
  LikeStore.counted st → LikeStore.counted (MemoryLikeStorage.toggle id st).2.
Proof.
  intros [Hnn Hliked].
  pose proof (getLikeCount_nonneg id st Hnn) as Hc0.
  split.
  - intros x c. destruct (decide (x = id)) as [->|Hne].
    + pose proof (getLikeCount_toggle_same id st) as Hsame.
      unfold MemoryLikeStorage.getLikeCount at 1 in Hsame.
      intros Hx. rewrite Hx in Hsame. cbn in Hsame. subst c.
      destruct (MemoryLikeStorage.isLiked id st); lia.
    + destruct (toggle_spec id x st Hne) as (_ & _ & _ & ->). apply Hnn.
  - intros x Hx. apply isLiked_true in Hx.
    destruct (decide (x = id)) as [->|Hne].
    + destruct (toggle_flag id st) as (Hflag & Hnow).
      rewrite Hx in Hnow. rewrite <- Hnow in Hflag.
      rewrite getLikeCount_toggle_same.
      destruct (MemoryLikeStorage.isLiked id st); [done | lia].
    + destruct (toggle_spec id x st Hne) as (_ & _ & Hsame & _).
      rewrite Hsame in Hx. rewrite getLikeCount_toggle_other by done.
      by apply Hliked, isLiked_true.
Qed.

Section StoreRuns.

Variable random : nat → Q.
Variable round : Q → Q.
Hypothesis round_monotone : ∀ x y, (x <= y)%Q → (round x <= round y)%Q.
Hypothesis round_0 : (round 0 == 0)%Q.
Hypothesis round_490 : (round 490 == 490)%Q.
Hypothesis random_range : ∀ n, (0 <= random n)%Q ∧ (random n < 1)%Q.

Lemma initializeRandomCounts_counted contentIds st n :
  LikeStore.counted st →
  LikeStore.counted
    (MemoryLikeStorage.initializeRandomCounts random round contentIds (st, n)).1.
Proof using round_monotone round_0 round_490 random_range.
  intros [Hnn Hliked]. split.
  - intros x c Hx.
    destruct (initializeRandomCounts_spec random round round_monotone round_0
                round_490 random_range contentIds st n x)
      as (_ & Hkeep & Hnew & Hout).
    destruct (MemoryLikeStorage.likeCounts st !! x) as [c0|] eqn:Hc0.
    + rewrite (Hkeep c0 eq_refl) in Hx. injection Hx as <-. by eapply Hnn.
    + destruct (decide (x ∈ contentIds)) as [Hin|Hnin].
      * destruct (Hnew eq_refl Hin) as (c' & Hc' & Hrange).
        rewrite Hc' in Hx. injection Hx as <-. lia.
      * rewrite (Hout eq_refl Hnin) in Hx. discriminate.
  - intros x Hx.
    destruct (initializeRandomCounts_spec random round round_monotone round_0
                round_490 random_range contentIds st n x)
      as (Hl & Hkeep & _).
    rewrite Hl in Hx. specialize (Hliked x Hx).
    unfold MemoryLikeStorage.getLikeCount in *.
    destruct (MemoryLikeStorage.likeCounts st !! x) as [c0|] eqn:Hc0;
      cbn in Hliked; [|lia].
    by rewrite (Hkeep c0 eq_refl).
Qed.

Lemma run_counted calls : ∀ st n,
  LikeStore.counted st →
  LikeStore.counted (LikeStore.run random round calls (st, n)).1.
Proof using round_monotone round_0 round_490 random_range.
  unfold LikeStore.run.
  induction calls as [|c calls IH]; intros st n Hc; cbn [fold_left]; [done|].
  destruct (LikeStore.call random round c (st, n)) as [st1 n1] eqn:Hcall.
  apply IH. destruct c as [id|ids]; cbn in Hcall.
  - injection Hcall as <- <-. by apply toggle_counted.
  - pose proof (initializeRandomCounts_counted ids st n Hc) as Hc1.
    by rewrite Hcall in Hc1.
Qed.

End StoreRuns.

Lemma empty_counted : LikeStore.counted MemoryLikeStorage.empty.
Proof.
  split.
  - intros x c Hx. cbn in Hx. by rewrite lookup_empty in Hx.
  - intros x Hx. cbn in Hx. by apply not_elem_of_empty in Hx.
Qed.

(** X11 — counts stay sound: starting from the empty store, whatever
    [toggle] and [initializeRandomCounts] calls are made (and whatever
    [Math.random] draws in [0, 1)), no stored count is ever negative and
    every liked content counts at least one like. *)
Theorem store_counts_stay_sound
    (random : nat → Q) (round : Q → Q) (calls : list LikeStore.Call) (n : nat) :
  (∀ x y, (x <= y)%Q → (round x <= round y)%Q) →
  (round 0 == 0)%Q → (round 490 == 490)%Q →
  (∀ k, (0 <= random k)%Q ∧ (random k < 1)%Q) →
  LikeStore.counted
    (LikeStore.run random round calls (MemoryLikeStorage.empty, n)).1.
Proof.
  intros Hmono H0 H490 Hrange.
  apply (run_counted random round Hmono H0 H490 Hrange). apply empty_counted.
Qed.

Lemma store_counts_stay_sound_witness :
  LikeStore.counted
    (LikeStore.run drawHalf noRounding
       [LikeStore.Toggle "a"; LikeStore.InitializeRandomCounts ["a"; "b"]%string;
        LikeStore.Toggle "a"; LikeStore.Toggle "a"; LikeStore.Toggle "b"]
       (MemoryLikeStorage.empty, 0%nat)).1.
Proof.
  assert (∀ x y, (x <= y)%Q → (noRounding x <= noRounding y)%Q) as Hmono
    by (intros x y H; exact H).
  assert (noRounding 0 == 0)%Q as H0 by reflexivity.
  assert (noRounding 490 == 490)%Q as H490 by reflexivity.
  assert (∀ k, (0 <= drawHalf k)%Q ∧ (drawHalf k < 1)%Q) as Hrange.
  { intros k. split; [discriminate | reflexivity]. }
  exact (store_counts_stay_sound drawHalf noRounding _ 0 Hmono H0 H490 Hrange).
Defined.

(** X12 — toggling twice is a round trip on a sound store: if the count of
    [id] is not negative and is at least 1 when [id] is liked, then two
    [toggle(id)] in a row restore, for every content, the liked flag and
    the count that [getLikeCount] reports. *)
Theorem toggle_twice_restores (id other : string) (st : MemoryLikeStorage.t) :
  0 ≤ MemoryLikeStorage.getLikeCount id st →
  (MemoryLikeStorage.isLiked id st = true →
   1 ≤ MemoryLikeStorage.getLikeCount id st) →
  MemoryLikeStorage.isLiked other
    (MemoryLikeStorage.toggle id (MemoryLikeStorage.toggle id st).2).2
    = MemoryLikeStorage.isLiked other st ∧
  MemoryLikeStorage.getLikeCount other
    (MemoryLikeStorage.toggle id (MemoryLikeStorage.toggle id st).2).2
    = MemoryLikeStorage.getLikeCount other st.
Proof.
  intros Hc0 Hc1. set (st1 := (MemoryLikeStorage.toggle id st).2).
  destruct (decide (other = id)) as [->|Hne].
  - destruct (toggle_flag id st) as (Hflag1 & Hnow1).
    destruct (toggle_flag id st1) as (Hflag2 & Hnow2).
    fold st1 in Hnow1. split.
    + rewrite Hnow2, Hflag2, Hnow1, Hflag1. apply negb_involutive.
    + rewrite getLikeCount_toggle_same. fold st1 in Hnow1.
      rewrite Hnow1, Hflag1. unfold st1. rewrite getLikeCount_toggle_same.
      destruct (MemoryLikeStorage.isLiked id st); cbn; [|lia].
      specialize (Hc1 eq_refl). lia.
  - destruct (toggle_spec id other st Hne) as (_ & _ & Hl1 & _).
    destruct (toggle_spec id other st1 Hne) as (_ & _ & Hl2 & _).
    split; [by rewrite Hl2|].
    rewrite getLikeCount_toggle_other by done.
    unfold st1. by rewrite getLikeCount_toggle_other.
Qed.

Lemma toggle_twice_restores_witness :
  MemoryLikeStorage.isLiked "b"
    (MemoryLikeStorage.toggle "b" (MemoryLikeStorage.toggle "b" demoStore).2).2
    = MemoryLikeStorage.isLiked "b" demoStore ∧
  MemoryLikeStorage.getLikeCount "b"
    (MemoryLikeStorage.toggle "b" (MemoryLikeStorage.toggle "b" demoStore).2).2
    = MemoryLikeStorage.getLikeCount "b" demoStore.
Proof.
  assert (0 ≤ MemoryLikeStorage.getLikeCount "b" demoStore) as Hc0
    by (by vm_compute).
  assert (MemoryLikeStorage.isLiked "b" demoStore = true →
          1 ≤ MemoryLikeStorage.getLikeCount "b" demoStore) as Hc1
    by (intros _; by vm_compute).
  exact (toggle_twice_restores "b" "b" demoStore Hc0 Hc1).
Defined.

(** The precondition is real: where a liked content has count 0, the
    count is 1 after two toggles. *)
Example toggle_twice_from_unsound_store :
  MemoryLikeStorage.getLikeCount "a" LikeStore.likedWithoutCount = 0 ∧
  MemoryLikeStorage.getLikeCount "a"
    (MemoryLikeStorage.toggle "a"
       (MemoryLikeStorage.toggle "a" LikeStore.likedWithoutCount).2).2 = 1.
Proof. by vm_compute. Qed.

(** ** The manager *)

Lemma toggleLike_unfold id m :
  LikeManager.toggleLike id m
  = let r := MemoryLikeStorage.toggle id (LikeManager.storage m) in
    let m1 := LikeManager.mk r.2 (LikeManager.likeButtons m)
                (LikeManager.dispatched m) in
    (r.1, LikeManager.dispatchLikeEvent id r.1
            (LikeManager.updateButtonState id r.1 m1)).
Proof.
  unfold LikeManager.toggleLike.
  by destruct (MemoryLikeStorage.toggle id (LikeManager.storage m)).
Qed.

Lemma toggleLike_fields id m :
  LikeManager.storage (LikeManager.toggleLike id m).2
    = (MemoryLikeStorage.toggle id (LikeManager.storage m)).2 ∧
  (LikeManager.toggleLike id m).1
    = (MemoryLikeStorage.toggle id (LikeManager.storage m)).1 ∧
  LikeManager.dispatched (LikeManager.toggleLike id m).2
    = LikeManager.dispatched m
      ++ [(id, (MemoryLikeStorage.toggle id (LikeManager.storage m)).1)] ∧
  LikeManager.likeButtons (LikeManager.toggleLike id m).2
    = match LikeManager.likeButtons m !! id with
      | None => LikeManager.likeButtons m
      | Some button =>
          <[id := LikeManager.mkButton
                    (LikeManager.contentId button) (LikeManager.ariaLabel button)
                    (MemoryLikeStorage.toggle id (LikeManager.storage m)).1
                    (Some ((MemoryLikeStorage.toggle id (LikeManager.storage m)).1,
                           MemoryLikeStorage.getLikeCount
                             (LikeManager.contentId button)
                             (MemoryLikeStorage.toggle id (LikeManager.storage m)).2))]>
            (LikeManager.likeButtons m)
      end.
Proof.
  rewrite toggleLike_unfold. cbn.
  unfold LikeManager.updateButtonState. cbn.
  by destruct (LikeManager.likeButtons m !! id).
Qed.

Lemma toggleLike_shows_store id m :
  LikeManager.shows_store m →
  LikeManager.shows_store (LikeManager.toggleLike id m).2.
Proof.
  intros Hinv x b.
  destruct (toggleLike_fields id m) as (Hst & _ & _ & Hbtn).
  unfold LikeManager.isLiked, LikeManager.getLikeCountForContent.
  rewrite Hst, Hbtn.
  destruct (toggle_flag id (LikeManager.storage m)) as [_ Hnow].
  destruct (decide (x = id)) as [->|Hne].
  - destruct (LikeManager.likeButtons m !! id) as [b0|] eqn:Hb0.
    + rewrite lookup_insert_eq. intros [= <-]. cbn.
      destruct (Hinv id b0 Hb0) as (Hid & _). rewrite Hid, Hnow. done.
    + rewrite Hb0. done.
  - destruct (toggle_spec id x (LikeManager.storage m) Hne) as (_ & _ & Hl & _).
    rewrite Hl, getLikeCount_toggle_other by done.
    destruct (LikeManager.likeButtons m !! id) as [b0|] eqn:Hb0.
    + rewrite lookup_insert_ne by done. apply Hinv.
    + apply Hinv.
Qed.

Lemma call_shows_store c m :
  LikeManager.shows_store m → LikeManager.shows_store (LikeManager.call c m).
Proof.
  intros Hinv. destruct c as [id|content|id| |]; cbn [LikeManager.call].
  - by apply toggleLike_shows_store.
  - intros x b. cbn.
    destruct (decide (x = LikeManager.id content)) as [->|Hne].
    + rewrite lookup_insert_eq. by intros [= <-].
    + rewrite lookup_insert_ne by done. apply Hinv.
  - unfold LikeManager.handleLikeClick.
    destruct (LikeManager.likeButtons m !! id); [|done].
    by apply toggleLike_shows_store.
  - intros x b. cbn. rewrite lookup_fmap.
    destruct (LikeManager.likeButtons m !! x) as [b0|] eqn:Hb0; [|done].
    cbn. intros [= <-]. cbn.
    destruct (Hinv x b0 Hb0) as (Hid & _). rewrite Hid.
    unfold LikeManager.isLiked, MemoryLikeStorage.isLiked. cbn.
    rewrite bool_decide_eq_false_2 by apply not_elem_of_empty. done.
  - intros x b. cbn. by rewrite lookup_empty.
Qed.

(** X13 — the buttons never lie: after any sequence of [toggleLike],
    [renderLikeButton], button clicks, [clearAllLikes] and [destroy] on a
    new manager, every button the manager holds carries its own content id,
    is active exactly when the store says the content is liked, and shows
    the stored count. *)
Theorem buttons_show_the_store (calls : list LikeManager.Call) :
  LikeManager.shows_store (LikeManager.run calls LikeManager.new).
Proof.
  assert (∀ m, LikeManager.shows_store m →
               LikeManager.shows_store (LikeManager.run calls m)) as Hrun.
  { unfold LikeManager.run.
    induction calls as [|c calls IH]; intros m Hinv; cbn [fold_left]; [done|].
    apply IH. by apply call_shows_store. }
  apply Hrun. intros x b. cbn. by rewrite lookup_empty.
Qed.

Lemma replay_snoc events id flag :
  LikeManager.replay (events ++ [(id, flag)])
  = if flag then {[id]} ∪ LikeManager.replay events
    else LikeManager.replay events ∖ {[id]}.
Proof. unfold LikeManager.replay. by rewrite fold_left_app. Qed.

Lemma toggleLike_replay id m :
  MemoryLikeStorage.likes (LikeManager.storage m)
    = LikeManager.replay (LikeManager.dispatched m) →
  MemoryLikeStorage.likes (LikeManager.storage (LikeManager.toggleLike id m).2)
    = LikeManager.replay (LikeManager.dispatched (LikeManager.toggleLike id m).2).
Proof.
  intros Hinv. destruct (toggleLike_fields id m) as (-> & _ & -> & _).
  rewrite replay_snoc, toggle_unfold, <- Hinv.
  by destruct (MemoryLikeStorage.isLiked id (LikeManager.storage m)).
Qed.

(** X14 — the [like-changed] events tell the whole story as long as
    [clearAllLikes] is not used: after any sequence of the other calls on a
    new manager, replaying the dispatched events (add the id when
    [isLiked], remove it otherwise) yields exactly the liked set. *)
Theorem events_replay_to_liked_set (calls : list LikeManager.Call) :
  forallb (λ c, negb (LikeManager.is_clear c)) calls = true →
  MemoryLikeStorage.likes (LikeManager.storage (LikeManager.run calls LikeManager.new))
  = LikeManager.replay (LikeManager.dispatched (LikeManager.run calls LikeManager.new)).
Proof.
  assert (∀ m,
            forallb (λ c, negb (LikeManager.is_clear c)) calls = true →
            MemoryLikeStorage.likes (LikeManager.storage m)
              = LikeManager.replay (LikeManager.dispatched m) →
            MemoryLikeStorage.likes (LikeManager.storage (LikeManager.run calls m))
              = LikeManager.replay (LikeManager.dispatched (LikeManager.run calls m)))
    as Hrun.
  { unfold LikeManager.run.
    induction calls as [|c calls IH]; intros m Hok Hinv; cbn [fold_left]; [done|].
    cbn [forallb] in Hok. apply andb_prop in Hok as [Hc Hrest].
    apply IH; [done|].
    destruct c as [id|content|id| |]; cbn [LikeManager.call].
    - by apply toggleLike_replay.
    - done.
    - unfold LikeManager.handleLikeClick.
      destruct (LikeManager.likeButtons m !! id); [|done].
      by apply toggleLike_replay.
    - discriminate Hc.
    - done. }
  intros Hok. by apply Hrun.
Qed.

Lemma events_replay_to_liked_set_witness :
  MemoryLikeStorage.likes
    (LikeManager.storage
       (LikeManager.run
          [LikeManager.RenderLikeButton (LikeManager.mkContent "a" "A");
           LikeManager.ClickLike "a"; LikeManager.ToggleLike "b";
           LikeManager.ClickLike "a"; LikeManager.ClickLike "c"]
          LikeManager.new))
  = LikeManager.replay
      (LikeManager.dispatched
         (LikeManager.run
            [LikeManager.RenderLikeButton (LikeManager.mkContent "a" "A");
             LikeManager.ClickLike "a"; LikeManager.ToggleLike "b";
             LikeManager.ClickLike "a"; LikeManager.ClickLike "c"]
            LikeManager.new)).
Proof.
  exact (events_replay_to_liked_set
           [LikeManager.RenderLikeButton (LikeManager.mkContent "a" "A");
            LikeManager.ClickLike "a"; LikeManager.ToggleLike "b";
            LikeManager.ClickLike "a"; LikeManager.ClickLike "c"]
           eq_refl).
Defined.

Lemma clearAllLikes_storage m :
  LikeManager.storage (LikeManager.clearAllLikes m)
  = MemoryLikeStorage.mk ∅ (MemoryLikeStorage.likeCounts (LikeManager.storage m)).
Proof. reflexivity. Qed.

(** X15 — [clearAllLikes] forgets who liked but not how many: afterwards
    no content is liked ([getLikeCount()] is 0), no event has been
    dispatched, and every stored count is what it was; so liking a content,
    clearing, and liking it again raises its count by 2. *)
Theorem clear_keeps_the_counts (id other : string) (m : LikeManager.t) :
  LikeManager.isLiked id m = false →
  LikeManager.getLikeCount (LikeManager.clearAllLikes m) = 0 ∧
  LikeManager.isLiked other (LikeManager.clearAllLikes m) = false ∧
  LikeManager.getLikeCountForContent other (LikeManager.clearAllLikes m)
    = LikeManager.getLikeCountForContent other m ∧
  LikeManager.dispatched (LikeManager.clearAllLikes m) = LikeManager.dispatched m ∧
  LikeManager.getLikeCountForContent id
    (LikeManager.run
       [LikeManager.ToggleLike id; LikeManager.ClearAllLikes;
        LikeManager.ToggleLike id] m)
    = LikeManager.getLikeCountForContent id m + 2.
Proof.
  intros Hl.
  split.
  { unfold LikeManager.getLikeCount. rewrite clearAllLikes_storage.
    cbn [MemoryLikeStorage.likes]. by rewrite size_empty. }
  split.
  { unfold LikeManager.isLiked. rewrite clearAllLikes_storage.
    apply isLiked_false. cbn. apply not_elem_of_empty. }
  split; [done|]. split; [done|].
  unfold LikeManager.run. cbn [fold_left LikeManager.call].
  unfold LikeManager.getLikeCountForContent, LikeManager.isLiked in *.
  destruct (toggleLike_fields id
              (LikeManager.clearAllLikes (LikeManager.toggleLike id m).2))
    as (-> & _).
  rewrite getLikeCount_toggle_same, clearAllLikes_storage.
  rewrite (proj2 (isLiked_false id _)) by (cbn; apply not_elem_of_empty).
  destruct (toggleLike_fields id m) as (-> & _).
  change (MemoryLikeStorage.getLikeCount id
            (MemoryLikeStorage.mk ∅
               (MemoryLikeStorage.likeCounts
                  (MemoryLikeStorage.toggle id (LikeManager.storage m)).2)))
    with (MemoryLikeStorage.getLikeCount id
            (MemoryLikeStorage.toggle id (LikeManager.storage m)).2).
  rewrite getLikeCount_toggle_same, Hl. lia.
Qed.

Lemma clear_keeps_the_counts_witness :
  LikeManager.getLikeCountForContent "a"
    (LikeManager.run
       [LikeManager.ToggleLike "a"; LikeManager.ClearAllLikes;
        LikeManager.ToggleLike "a"] LikeManager.new)
  = LikeManager.getLikeCountForContent "a" LikeManager.new + 2.
Proof.
  assert (LikeManager.isLiked "a" LikeManager.new = false) as Hl
    by (by vm_compute).
  destruct (clear_keeps_the_counts "a" "a" LikeManager.new Hl)
    as (_ & _ & _ & _ & Hcount).
  exact Hcount.
Defined.

(** X16 — after [destroy()] the manager holds no button, so the click and
    key listeners that survive on the buttons do nothing: any series of
    clicks leaves the store, the events and the manager as [destroy] left
    them. *)
Theorem clicks_after_destroy_do_nothing (ids : list string) (m : LikeManager.t) :
  LikeManager.run (map LikeManager.ClickLike ids) (LikeManager.destroy m)
  = LikeManager.destroy m.
Proof.
  unfold LikeManager.run. induction ids as [|id ids IH]; [done|].
  cbn [map fold_left LikeManager.call].
  assert (LikeManager.handleLikeClick id (LikeManager.destroy m)
          = LikeManager.destroy m) as ->; [|exact IH].
  unfold LikeManager.handleLikeClick. cbn. by rewrite lookup_empty.
Qed.

Lemma initializeContentCounts_fields random round ids m n :
  LikeManager.storage (LikeManager.initializeContentCounts random round ids (m, n)).1
    = (MemoryLikeStorage.initializeRandomCounts random round ids
         (LikeManager.storage m, n)).1 ∧
  LikeManager.likeButtons (LikeManager.initializeContentCounts random round ids (m, n)).1
    = LikeManager.likeButtons m ∧
  LikeManager.dispatched (LikeManager.initializeContentCounts random round ids (m, n)).1
    = LikeManager.dispatched m.
Proof.
  unfold LikeManager.initializeContentCounts. cbn.
  by destruct (MemoryLikeStorage.initializeRandomCounts random round ids
                 (LikeManager.storage m, n)).
Qed.

(** X17 — [initializeContentCounts] never redraws a button: a button
    rendered for a content that has no count yet shows 0, and keeps showing
    0 after the content has been given its random count of 10 to 500. *)
Theorem initial_counts_do_not_reach_rendered_buttons
    (random : nat → Q) (round : Q → Q) (content : LikeManager.Content)
    (ids : list string) (m : LikeManager.t) (n : nat) :
  (∀ x y, (x <= y)%Q → (round x <= round y)%Q) →
  (round 0 == 0)%Q → (round 490 == 490)%Q →
  (∀ k, (0 <= random k)%Q ∧ (random k < 1)%Q) →
  MemoryLikeStorage.likeCounts (LikeManager.storage m) !! LikeManager.id content
    = None →
  LikeManager.id content ∈ ids →
  ∃ button,
    LikeManager.likeButtons
      (LikeManager.initializeContentCounts random round ids
         ((LikeManager.renderLikeButton content m).2, n)).1
      !! LikeManager.id content = Some button ∧
    LikeManager.inner button
      = Some (LikeManager.isLiked (LikeManager.id content) m, 0) ∧
    10 ≤ LikeManager.getLikeCountForContent (LikeManager.id content)
           (LikeManager.initializeContentCounts random round ids
              ((LikeManager.renderLikeButton content m).2, n)).1 ≤ 500.
Proof.
  intros Hmono H0 H490 Hrange Hnone Hin.
  destruct (initializeContentCounts_fields random round ids
              (LikeManager.renderLikeButton content m).2 n) as (Hst & Hbtn & _).
  unfold LikeManager.getLikeCountForContent. rewrite Hst, Hbtn.
  eexists. split; [cbn; by rewrite lookup_insert_eq|]. split.
  - cbn. unfold LikeManager.getLikeCountForContent,
      MemoryLikeStorage.getLikeCount. by rewrite Hnone.
  - destruct (initializeRandomCounts_spec random round Hmono H0 H490 Hrange ids
                (LikeManager.storage m) n (LikeManager.id content))
      as (_ & _ & Hnew & _).
    destruct (Hnew Hnone Hin) as (c & Hc & Hrange').
    cbn [LikeManager.storage LikeManager.renderLikeButton snd].
    unfold MemoryLikeStorage.getLikeCount. by rewrite Hc.
Qed.

Lemma initial_counts_do_not_reach_rendered_buttons_witness :
  ∃ button,
    LikeManager.likeButtons
      (LikeManager.initializeContentCounts drawHalf noRounding ["a"%string]
         ((LikeManager.renderLikeButton (LikeManager.mkContent "a" "A")
             LikeManager.new).2, 0%nat)).1
      !! "a"%string = Some button ∧
    LikeManager.inner button = Some (false, 0) ∧
    10 ≤ LikeManager.getLikeCountForContent "a"
           (LikeManager.initializeContentCounts drawHalf noRounding ["a"%string]
              ((LikeManager.renderLikeButton (LikeManager.mkContent "a" "A")
                  LikeManager.new).2, 0%nat)).1 ≤ 500.
Proof.
  assert (∀ x y, (x <= y)%Q → (noRounding x <= noRounding y)%Q) as Hmono
    by (intros x y H; exact H).
  assert (noRounding 0 == 0)%Q as H0 by reflexivity.
  assert (noRounding 490 == 490)%Q as H490 by reflexivity.
  assert (∀ k, (0 <= drawHalf k)%Q ∧ (drawHalf k < 1)%Q) as Hrange.
  { intros k. split; [discriminate | reflexivity]. }
  assert (MemoryLikeStorage.likeCounts (LikeManager.storage LikeManager.new)
            !! "a"%string = None) as Hnone by (by vm_compute).
  assert ("a"%string ∈ ["a"%string]) as Hin by (by constructor).
  exact (initial_counts_do_not_reach_rendered_buttons drawHalf noRounding
           (LikeManager.mkContent "a" "A") ["a"%string] LikeManager.new 0
           Hmono H0 H490 Hrange Hnone Hin).
Defined.

Lemma elem_of_allContentIds sections section content :
  section ∈ sections → content ∈ section →
  LikeManager.id content ∈ allContentIds sections.
Proof.
  intros Hs Hc. unfold allContentIds. apply list_elem_of_In, in_concat.
  exists (map LikeManager.id section). split.
  - apply in_map. by apply list_elem_of_In.
  - apply in_map. by apply list_elem_of_In.
Qed.

(** X18 — what [renderContentSections] asks for reaches every card: after
    [initializeContentCounts] on the ids of all sections, every content of
    every section has a stored count: the one it already had, or a new one
    between 10 and 500; the buttons and the events are not touched. *)
Theorem every_content_gets_a_count
    (random : nat → Q) (round : Q → Q)
    (sections : list (list LikeManager.Content))
    (section : list LikeManager.Content) (content : LikeManager.Content)
    (m : LikeManager.t) (n : nat) :
  (∀ x y, (x <= y)%Q → (round x <= round y)%Q) →
  (round 0 == 0)%Q → (round 490 == 490)%Q →
  (∀ k, (0 <= random k)%Q ∧ (random k < 1)%Q) →
  section ∈ sections → content ∈ section →
  (∃ c,
     MemoryLikeStorage.likeCounts
       (LikeManager.storage
          (LikeManager.initializeContentCounts random round
             (allContentIds sections) (m, n)).1)
       !! LikeManager.id content = Some c ∧
     match MemoryLikeStorage.likeCounts (LikeManager.storage m)
             !! LikeManager.id content with
     | Some c0 => c = c0
     | None => 10 ≤ c ≤ 500
     end) ∧
  LikeManager.likeButtons
    (LikeManager.initializeContentCounts random round
       (allContentIds sections) (m, n)).1 = LikeManager.likeButtons m ∧
  LikeManager.dispatched
    (LikeManager.initializeContentCounts random round
       (allContentIds sections) (m, n)).1 = LikeManager.dispatched m.
Proof.
  intros Hmono H0 H490 Hrange Hs Hc.
  destruct (initializeContentCounts_fields random round (allContentIds sections)
              m n) as (-> & -> & ->).
  split; [|done].
  destruct (initializeRandomCounts_spec random round Hmono H0 H490 Hrange
              (allContentIds sections) (LikeManager.storage m) n
              (LikeManager.id content)) as (_ & Hkeep & Hnew & _).
  destruct (MemoryLikeStorage.likeCounts (LikeManager.storage m)
              !! LikeManager.id content) as [c0|] eqn:Hc0.
  - exists c0. split; [by apply Hkeep | done].
  - destruct (Hnew eq_refl (elem_of_allContentIds _ _ _ Hs Hc))
      as (c & Hcc & Hr).
    by exists c.
Qed.

Lemma every_content_gets_a_count_witness :
  ∃ c,
    MemoryLikeStorage.likeCounts
      (LikeManager.storage
         (LikeManager.initializeContentCounts drawHalf noRounding
            (allContentIds
               [[LikeManager.mkContent "a" "A"; LikeManager.mkContent "b" "B"];
                [LikeManager.mkContent "c" "C"]])
            (LikeManager.new, 0%nat)).1)
      !! "c"%string = Some c ∧
    10 ≤ c ≤ 500.
Proof.
  assert (∀ x y, (x <= y)%Q → (noRounding x <= noRounding y)%Q) as Hmono
    by (intros x y H; exact H).
  assert (noRounding 0 == 0)%Q as H0 by reflexivity.
  assert (noRounding 490 == 490)%Q as H490 by reflexivity.
  assert (∀ k, (0 <= drawHalf k)%Q ∧ (drawHalf k < 1)%Q) as Hrange.
  { intros k. split; [discriminate | reflexivity]. }
  assert ([LikeManager.mkContent "c" "C"]
          ∈ [[LikeManager.mkContent "a" "A"; LikeManager.mkContent "b" "B"];
             [LikeManager.mkContent "c" "C"]]) as Hs
    by (do 2 constructor).
  assert (LikeManager.mkContent "c" "C" ∈ [LikeManager.mkContent "c" "C"])
    as Hc by constructor.
  destruct (every_content_gets_a_count drawHalf noRounding _ _ _
              LikeManager.new 0 Hmono H0 H490 Hrange Hs Hc)
    as ((c & Hcount & Hcase) & _).
  exists c. split; [exact Hcount|]. exact Hcase.
Defined.

(** * Properties of the cache and of the menu navigation *)

(** ** [DataCache] *)

Lemma cache_get_miss
    {A : Type} (key : string) (now : Z)
    (cache : gmap string (@DataCache.Entry A)) :
  (∀ e, cache !! key = Some e → DataCache.data e ≠ None) →
  (DataCache.get key now cache).1 = None →
  (DataCache.get key now cache).2 !! key = None.
Proof.
  intros Hdata. unfold DataCache.get.
  destruct (cache !! key) as [e|] eqn:He; cbn; [|done].
  destruct (DataCache.ttl e <? now - DataCache.timestamp e); cbn.
  - intros _. apply lookup_delete_eq.
  - intros Hnull. by destruct (Hdata e eq_refl).
Qed.

Lemma cache_get_expired
    {A : Type} (key : string) (d : option A) (ttl : option Z) (t0 t1 : Z)
    (cache : gmap string (@DataCache.Entry A)) :
  default 300000 ttl < t1 - t0 →
  DataCache.get key t1 (DataCache.set key d ttl t0 cache)
  = (None, base.delete key cache).
Proof.
  intros Ht. unfold DataCache.get, DataCache.set. rewrite lookup_insert_eq. cbn.
  change DataCache.DEFAULT_TTL with 300000.
  destruct (Z.ltb_spec (default 300000 ttl) (t1 - t0)); [|lia].
  by rewrite delete_insert_eq.
Qed.

(** X19 — what is set can be read back until its TTL has passed: after
    [set(key, data, ttl)] at time [t0], a [get(key)] at time [t1] returns
    the data, whatever it is ([null] included), and leaves the cache alone
    when [t1 - t0 <= ttl] (the boundary included), and returns [null] and
    deletes the entry when [t1 - t0 > ttl]; without a [ttl] argument the
    limit is five minutes. *)
Theorem cache_get_after_set
    {A : Type} (key : string) (d : option A) (ttl : option Z) (t0 t1 : Z)
    (cache : gmap string (@DataCache.Entry A)) :
  (t1 - t0 ≤ default 300000 ttl →
   DataCache.get key t1 (DataCache.set key d ttl t0 cache)
   = (d, DataCache.set key d ttl t0 cache)) ∧
  (default 300000 ttl < t1 - t0 →
   DataCache.get key t1 (DataCache.set key d ttl t0 cache)
   = (None, base.delete key cache)).
Proof.
  split; [|apply cache_get_expired].
  unfold DataCache.get, DataCache.set. rewrite lookup_insert_eq. cbn.
  change DataCache.DEFAULT_TTL with 300000. intros Ht.
  destruct (Z.ltb_spec (default 300000 ttl) (t1 - t0)); [lia | done].
Qed.

Lemma cache_get_after_set_witness :
  DataCache.get "hero" 1300 (DataCache.set "hero" (Some 7) (Some 300) 1000 ∅)
    = (Some 7, DataCache.set "hero" (Some 7) (Some 300) 1000 ∅) ∧
  DataCache.get "hero" 1301 (DataCache.set "hero" (Some 7) (Some 300) 1000 ∅)
    = (None, base.delete "hero" (∅ : gmap string (@DataCache.Entry Z))).
Proof.
  destruct (cache_get_after_set "hero" (Some 7) (Some 300) 1000 1300
              (∅ : gmap string (@DataCache.Entry Z))) as [Hhit _].
  destruct (cache_get_after_set "hero" (Some 7) (Some 300) 1000 1301
              (∅ : gmap string (@DataCache.Entry Z))) as [_ Hmiss].
  split; [apply Hhit; cbn; lia | apply Hmiss; cbn; lia].
Defined.

(** A stored [null] is read back as [null] while its entry is alive: a
    [null] answer alone does not tell a miss from a hit. *)
Example cache_null_is_a_hit :
  DataCache.get "hero" 1100
    (DataCache.set "hero" (None : option Z) (Some 300) 1000 ∅)
  = (None, DataCache.set "hero" (None : option Z) (Some 300) 1000 ∅).
Proof.
  unfold DataCache.get, DataCache.set. by rewrite lookup_insert_eq.
Qed.

(** X20 — a miss is final: for a key under which no [null] is stored,
    once [get(key)] has answered [null] the entry is gone (it was absent,
    or it had expired and was deleted), and every later [get(key)], at
    whatever time the clock shows, answers [null] again and changes
    nothing. *)
Theorem cache_miss_is_final
    {A : Type} (key : string) (now later : Z)
    (cache : gmap string (@DataCache.Entry A)) :
  (∀ e, cache !! key = Some e → DataCache.data e ≠ None) →
  (DataCache.get key now cache).1 = None →
  (DataCache.get key now cache).2 !! key = None ∧
  DataCache.get key later (DataCache.get key now cache).2
  = (None, (DataCache.get key now cache).2).
Proof.
  intros Hdata Hmiss. apply cache_get_miss in Hmiss; [|exact Hdata].
  split; [exact Hmiss|].
  unfold DataCache.get at 1. by rewrite Hmiss.
Qed.

Lemma cache_miss_is_final_witness :
  (DataCache.get "hero" 1301
     (DataCache.set "hero" (Some 7) (Some 300) 1000 ∅)).2 !! "hero" = None ∧
  DataCache.get "hero" 0
    (DataCache.get "hero" 1301
       (DataCache.set "hero" (Some 7) (Some 300) 1000 ∅)).2
  = (None,
     (DataCache.get "hero" 1301
        (DataCache.set "hero" (Some 7) (Some 300) 1000 ∅)).2).
Proof.
  assert (∀ e : @DataCache.Entry Z,
            DataCache.set "hero" (Some 7) (Some 300) 1000 ∅ !! "hero" = Some e →
            DataCache.data e ≠ None) as Hdata.
  { intros e. unfold DataCache.set. rewrite lookup_insert_eq.
    intros [= <-]. discriminate. }
  assert ((DataCache.get "hero" 1301
             (DataCache.set "hero" (Some 7) (Some 300) 1000
                (∅ : gmap string (@DataCache.Entry Z)))).1 = None) as Hmiss.
  { rewrite cache_get_expired; [done | cbn; lia]. }
  exact (cache_miss_is_final "hero" 1301 0 _ Hdata Hmiss).
Defined.

(** X21 — [cleanup()] removes exactly the expired entries: afterwards a key
    is present if and only if it was present with
    [now - timestamp <= ttl], with the same entry; so at that time every
    [get] answers after the cleanup what it would have answered before. *)
Theorem cache_cleanup_exact
    {A : Type} (key : string) (now : Z)
    (cache : gmap string (@DataCache.Entry A)) :
  DataCache.cleanup now cache !! key
    = match cache !! key with
      | Some e =>
          if DataCache.ttl e <? now - DataCache.timestamp e then None else Some e
      | None => None
      end ∧
  (DataCache.get key now (DataCache.cleanup now cache)).1
    = (DataCache.get key now cache).1.
Proof.
  assert (DataCache.cleanup now cache !! key
          = match cache !! key with
            | Some e =>
                if DataCache.ttl e <? now - DataCache.timestamp e
                then None else Some e
            | None => None
            end) as Hlook.
  { unfold DataCache.cleanup.
    destruct (cache !! key) as [e|] eqn:He.
    - destruct (Z.ltb_spec (DataCache.ttl e) (now - DataCache.timestamp e)).
      + apply map_lookup_filter_None. right. intros e' He'.
        assert (e' = e) as -> by congruence. cbn. lia.
      + apply map_lookup_filter_Some. split; [done|]. cbn. lia.
    - apply map_lookup_filter_None. by left. }
  split; [exact Hlook|].
  unfold DataCache.get. rewrite Hlook.
  destruct (cache !! key) as [e|]; [|done].
  destruct (DataCache.ttl e <? now - DataCache.timestamp e) eqn:Hexp; cbn; [done|].
  by rewrite Hexp.
Qed.

(** ** The profile menu *)

(** X22 — arrow keys walk the menu in a circle: for an item index
    [0 <= index < count], ArrowDown and ArrowUp both land on an item of the
    menu, the last item wraps to the first and the first to the last, and
    each key undoes the other. *)
Theorem menu_arrows_wrap (index count : Z) :
  0 ≤ index < count →
  ∃ down up,
    MenuNavigation.nextIndex index count = Js.Fin down ∧
    MenuNavigation.prevIndex index count = Js.Fin up ∧
    0 ≤ down < count ∧ 0 ≤ up < count ∧
    down = (if index =? count - 1 then 0 else index + 1) ∧
    up = (if index =? 0 then count - 1 else index - 1) ∧
    MenuNavigation.prevIndex down count = Js.Fin index ∧
    MenuNavigation.nextIndex up count = Js.Fin index.
Proof.
  intros Hi. unfold MenuNavigation.nextIndex, MenuNavigation.prevIndex, Js.rem.
  destruct (Z.eqb_spec count 0) as [?|_]; [lia|].
  eexists _, _. split; [reflexivity|]. split; [reflexivity|].
  rewrite !Z.rem_mod_nonneg by lia.
  assert ((index + 1) mod count = if index =? count - 1 then 0 else index + 1)
    as Hdown.
  { destruct (Z.eqb_spec index (count - 1)) as [->|?].
    - replace (count - 1 + 1) with (1 * count) by lia. by rewrite Z.mod_mul by lia.
    - apply Z.mod_small. lia. }
  assert ((index - 1 + count) mod count
          = if index =? 0 then count - 1 else index - 1) as Hup.
  { destruct (Z.eqb_spec index 0) as [->|?].
    - replace (0 - 1 + count) with (count - 1) by lia. apply Z.mod_small. lia.
    - replace (index - 1 + count) with (index - 1 + 1 * count) by lia.
      rewrite Z.mod_add by lia. apply Z.mod_small. lia. }
  rewrite Hdown, Hup.
  split; [destruct (Z.eqb_spec index (count - 1)); lia|].
  split; [destruct (Z.eqb_spec index 0); lia|].
  split; [done|]. split; [done|].
  split.
  - rewrite Z.rem_mod_nonneg by (destruct (Z.eqb_spec index (count - 1)); lia).
    f_equal. destruct (Z.eqb_spec index (count - 1)) as [->|?].
    + replace (0 - 1 + count) with (count - 1) by lia. apply Z.mod_small. lia.
    + replace (index + 1 - 1 + count) with (index + 1 * count) by lia.
      rewrite Z.mod_add by lia. apply Z.mod_small. lia.
  - rewrite Z.rem_mod_nonneg by (destruct (Z.eqb_spec index 0); lia).
    f_equal. destruct (Z.eqb_spec index 0) as [->|?].
    + replace (count - 1 + 1) with (1 * count) by lia. by rewrite Z.mod_mul by lia.
    + replace (index - 1 + 1) with index by lia. apply Z.mod_small. lia.
Qed.

Lemma menu_arrows_wrap_witness :
  ∃ down up,
    MenuNavigation.nextIndex 5 6 = Js.Fin down ∧
    MenuNavigation.prevIndex 5 6 = Js.Fin up ∧
    0 ≤ down < 6 ∧ 0 ≤ up < 6 ∧
    down = 0 ∧ up = 4 ∧
    MenuNavigation.prevIndex down 6 = Js.Fin 5 ∧
    MenuNavigation.nextIndex up 6 = Js.Fin 5.
Proof.
  assert (0 ≤ 5 < 6) as Hi by lia.
  exact (menu_arrows_wrap 5 6 Hi).
Defined.

(** * Properties of the hover modal *)

Section HoverModalFacts.

Import HoverModal.

Lemma clearOpen_fields s :
  timers_open (_clearOpenTimer s) = None ∧
  timers_close (_clearOpenTimer s) = timers_close s ∧
  nextHandle (_clearOpenTimer s) = nextHandle s ∧
  isVisible (_clearOpenTimer s) = isVisible s ∧
  hidden (_clearOpenTimer s) = hidden s ∧
  ariaHidden (_clearOpenTimer s) = ariaHidden s ∧
  ariaExpanded (_clearOpenTimer s) = ariaExpanded s ∧
  frames (_clearOpenTimer s) = frames s ∧
  options (_clearOpenTimer s) = options s ∧
  type (_clearOpenTimer s) = type s ∧
  pending (_clearOpenTimer s)
    = match timers_open s with
      | Some id => delete id (pending s)
      | None => pending s
      end.
Proof.
  unfold _clearOpenTimer. destruct (timers_open s) eqn:E; cbn; by rewrite ?E.
Qed.

Lemma clearClose_fields s :
  timers_close (_clearCloseTimer s) = None ∧
  timers_open (_clearCloseTimer s) = timers_open s ∧
  nextHandle (_clearCloseTimer s) = nextHandle s ∧
  isVisible (_clearCloseTimer s) = isVisible s ∧
  hidden (_clearCloseTimer s) = hidden s ∧
  ariaHidden (_clearCloseTimer s) = ariaHidden s ∧
  ariaExpanded (_clearCloseTimer s) = ariaExpanded s ∧
  frames (_clearCloseTimer s) = frames s ∧
  options (_clearCloseTimer s) = options s ∧
  type (_clearCloseTimer s) = type s ∧
  pending (_clearCloseTimer s)
    = match timers_close s with
      | Some id => delete id (pending s)
      | None => pending s
      end.
Proof.
  unfold _clearCloseTimer. destruct (timers_close s) eqn:E; cbn; by rewrite ?E.
Qed.

Lemma wf_clearOpen s : wf s → wf (_clearOpenTimer s).
Proof.
  intros ((Ha & He & Hv & Hh) & (Hf & Ho & Hc)).
  destruct (clearOpen_fields s)
    as (Eo & Ec & En & Ei & Eh & Eah & Eae & _ & _ & _ & Ep).
  split; [split_and!|split_and!].
  - by rewrite Eah, Ei.
  - by rewrite Eae, Ei.
  - by rewrite Ei, Eh.
  - rewrite Ei, Eh, Ep. intros Hi Hhid.
    destruct (Hh Hi Hhid) as (id & d & Hid). exists id, d.
    destruct (timers_open s) as [o|] eqn:E; [|done].
    destruct (Ho o eq_refl) as (d' & Hopen).
    rewrite lookup_delete_ne; [done|]. intros ->. congruence.
  - rewrite En, Ep. intros id e.
    destruct (timers_open s); [|by apply Hf].
    rewrite lookup_delete_Some. intros [_ H]. by eapply Hf.
  - rewrite Eo. done.
  - rewrite Ec, En, Ep. intros id Hid. destruct (Hc id Hid) as (Hlt & Hk).
    split; [done|]. destruct (timers_open s) as [o|]; [|done].
    destruct (decide (o = id)) as [->|Hne].
    + left. apply lookup_delete_eq.
    + by rewrite lookup_delete_ne.
Qed.

Lemma wf_clearClose s : wf s → wf (_clearCloseTimer s).
Proof.
  intros ((Ha & He & Hv & Hh) & (Hf & Ho & Hc)).
  destruct (clearClose_fields s)
    as (Ec & Eo & En & Ei & Eh & Eah & Eae & _ & _ & _ & Ep).
  split; [split_and!|split_and!].
  - by rewrite Eah, Ei.
  - by rewrite Eae, Ei.
  - by rewrite Ei, Eh.
  - rewrite Ei, Eh, Ep. intros Hi Hhid.
    destruct (Hh Hi Hhid) as (id & d & Hid). exists id, d.
    destruct (timers_close s) as [c|] eqn:E; [|done].
    destruct (Hc c eq_refl) as (_ & [Hnone | (d' & Hclose)]);
      (rewrite lookup_delete_ne; [done|]; intros ->; congruence).
  - rewrite En, Ep. intros id e.
    destruct (timers_close s); [|by apply Hf].
    rewrite lookup_delete_Some. intros [_ H]. by eapply Hf.
  - rewrite Eo, Ep. intros id Hid. destruct (Ho id Hid) as (d & Hopen).
    exists d. destruct (timers_close s) as [c|] eqn:E; [|done].
    destruct (Hc c eq_refl) as (_ & [Hnone | (d' & Hclose)]);
      (rewrite lookup_delete_ne; [done|]; intros ->; congruence).
  - rewrite Ec. done.
Qed.

Lemma wf_show s : wf s → wf (show s).
Proof.
  intros ((Ha & He & Hv & Hh) & (Hf & Ho & Hc)).
  unfold show. destruct (isVisible s) eqn:Ei.
  - split; [split_and!|split_and!]; rewrite ?Ei; done.
  - split; [split_and!|split_and!]; cbn; done.
Qed.

Lemma wf_hide s : wf s → wf (hide s).
Proof.
  intros Hwf. unfold hide. destruct (isVisible s) eqn:Ei; cbn [negb]; [|done].
  pose proof (wf_clearClose _ (wf_clearOpen _ Hwf)) as Hwf'.
  destruct (clearClose_fields (_clearOpenTimer s)) as (Ec & Eo & _).
  destruct (clearOpen_fields s) as (Eo' & _).
  rewrite Eo' in Eo.
  set (s' := _clearCloseTimer (_clearOpenTimer s)) in *.
  destruct Hwf' as ((Ha & He & Hv & Hh) & (Hf & Ho & Hc)).
  split; [split_and!|split_and!]; cbn.
  - done.
  - done.
  - done.
  - intros _ _. exists (nextHandle s'), 200. apply lookup_insert_eq.
  - intros id e. rewrite lookup_insert_Some.
    intros [[<- _] | [_ H]]; [lia|]. apply Hf in H. lia.
  - by rewrite Eo.
  - by rewrite Ec.
Qed.

Lemma wf_open s : wf s → wf (_open s).
Proof.
  intros Hwf. unfold _open. by apply wf_show, wf_clearClose, wf_clearOpen.
Qed.

Lemma wf_queueOpen s : wf s → wf (_queueOpen s).
Proof.
  intros Hwf. unfold _queueOpen.
  pose proof (wf_clearClose _ Hwf) as Hwf'.
  destruct (clearClose_fields s) as (Ec & _).
  set (s' := _clearCloseTimer s) in *.
  destruct Hwf' as ((Ha & He & Hv & Hh) & (Hf & Ho & Hc)).
  split; [split_and!|split_and!]; cbn.
  - done.
  - done.
  - done.
  - intros Hi Hhid. destruct (Hh Hi Hhid) as (id & d & Hid).
    exists id, d. rewrite lookup_insert_ne; [done|].
    intros <-. apply Hf in Hid. lia.
  - intros id e. rewrite lookup_insert_Some.
    intros [[<- _] | [_ H]]; [lia|]. apply Hf in H. lia.
  - intros id [= <-]. eexists. apply lookup_insert_eq.
  - by rewrite Ec.
Qed.

Lemma wf_queueClose s : wf s → wf (_queueClose s).
Proof.
  intros Hwf. unfold _queueClose.
  pose proof (wf_clearOpen _ Hwf) as Hwf'.
  destruct (clearOpen_fields s) as (Eo & _).
  set (s' := _clearOpenTimer s) in *.
  destruct Hwf' as ((Ha & He & Hv & Hh) & (Hf & Ho & Hc)).
  split; [split_and!|split_and!]; cbn.
  - done.
  - done.
  - done.
  - intros Hi Hhid. destruct (Hh Hi Hhid) as (id & d & Hid).
    exists id, d. rewrite lookup_insert_ne; [done|].
    intros <-. apply Hf in Hid. lia.
  - intros id e. rewrite lookup_insert_Some.
    intros [[<- _] | [_ H]]; [lia|]. apply Hf in H. lia.
  - by rewrite Eo.
  - intros id [= <-]. split; [lia|]. right. eexists. apply lookup_insert_eq.
Qed.

Lemma wf_destroy s : wf s → wf (destroy s).
Proof.
  intros Hwf. unfold destroy.
  pose proof (wf_clearClose _ (wf_clearOpen _ Hwf)) as Hwf'.
  by destruct Hwf' as ((Ha & He & Hv & Hh) & (Hf & Ho & Hc)).
Qed.

Lemma wf_focusTrigger b s : wf s → wf (focusTrigger b s).
Proof. destruct b; cbn; [apply wf_open | done]. Qed.

Lemma wf_timer s id cb d :
  wf s → pending s !! id = Some (cb, d) →
  wf (runCallback cb (set_pending (delete id (pending s)) s)).
Proof.
  intros ((Ha & He & Hv & Hh) & (Hf & Ho & Hc)) Hid.
  destruct cb; cbn [runCallback].
  - (* the open handle may name the timeout that fired: [_open] drops it *)
    unfold _open. apply wf_show, wf_clearClose.
    set (s0 := set_pending (delete id (pending s)) s).
    destruct (clearOpen_fields s0)
      as (Eo & Ec & En & Ei & Eh & Eah & Eae & _ & _ & _ & Ep).
    cbn in Ec, En, Ei, Eh, Eah, Eae, Ep.
    assert (∀ k, pending (_clearOpenTimer s0) !! k = None ∨
                 (k ≠ id ∧ pending (_clearOpenTimer s0) !! k = pending s !! k))
      as Hlook.
    { intros k. rewrite Ep. destruct (timers_open s) as [o|].
      - destruct (decide (k = o)) as [->|?]; [left; apply lookup_delete_eq|].
        rewrite lookup_delete_ne by done.
        destruct (decide (k = id)) as [->|?]; [left; apply lookup_delete_eq|].
        right. by rewrite lookup_delete_ne.
      - destruct (decide (k = id)) as [->|?]; [left; apply lookup_delete_eq|].
        right. by rewrite lookup_delete_ne. }
    split; [split_and!|split_and!].
    + by rewrite Eah, Ei.
    + by rewrite Eae, Ei.
    + by rewrite Ei, Eh.
    + rewrite Ei, Eh, Ep. intros Hi Hhid.
      destruct (Hh Hi Hhid) as (w & d' & Hw). exists w, d'.
      assert (w ≠ id) by (intros ->; congruence).
      destruct (timers_open s) as [o|] eqn:E.
      * destruct (Ho o eq_refl) as (d'' & Hopen).
        rewrite !lookup_delete_ne; [done| |]; intros ->; congruence.
      * by rewrite lookup_delete_ne.
    + rewrite En. intros k e Hk. destruct (Hlook k) as [Hn | (_ & Hs)].
      * congruence.
      * rewrite Hs in Hk. by eapply Hf.
    + by rewrite Eo.
    + rewrite Ec, En. intros k Hk. destruct (Hc k Hk) as (Hlt & Hkind).
      split; [done|]. destruct (Hlook k) as [Hn | (_ & Hs)]; [by left|].
      by rewrite Hs.
  - apply wf_hide. split; [split_and!|split_and!]; cbn.
    + done.
    + done.
    + done.
    + intros Hi Hhid. destruct (Hh Hi Hhid) as (w & d' & Hw). exists w, d'.
      rewrite lookup_delete_ne; [done|]. intros ->. congruence.
    + intros k e. rewrite lookup_delete_Some. intros [_ H]. by eapply Hf.
    + intros k Hk. destruct (Ho k Hk) as (d' & Hopen). exists d'.
      rewrite lookup_delete_ne; [done|]. intros ->. congruence.
    + intros k Hk. destruct (Hc k Hk) as (Hlt & Hkind). split; [done|].
      destruct (decide (id = k)) as [->|?]; [left; apply lookup_delete_eq|].
      by rewrite lookup_delete_ne.
  - assert (handles_ok (set_pending (delete id (pending s)) s)) as Hhandles.
    { split_and!; cbn.
      + intros k e. rewrite lookup_delete_Some. intros [_ H]. by eapply Hf.
      + intros k Hk. destruct (Ho k Hk) as (d' & Hopen). exists d'.
        rewrite lookup_delete_ne; [done|]. intros ->. congruence.
      + intros k Hk. destruct (Hc k Hk) as (Hlt & Hkind). split; [done|].
        destruct (decide (id = k)) as [->|?]; [left; apply lookup_delete_eq|].
        by rewrite lookup_delete_ne. }
    cbn [isVisible set_pending]. destruct (isVisible s) eqn:Ei; cbn [negb].
    + split; [|done]. split_and!; cbn; rewrite ?Ei; try done; by apply Hv.
    + split; [|done]. split_and!; cbn; rewrite ?Ei; done.
Qed.

Lemma wf_fire ev s : wf s → wf (fire ev s).
Proof.
  intros Hwf. destruct ev; cbn [fire].
  - by apply wf_queueOpen.
  - by apply wf_queueClose.
  - by apply wf_open.
  - destruct intoContainer; cbn; [done | by apply wf_queueClose].
  - by apply wf_clearClose.
  - by apply wf_queueClose.
  - destruct intoContainer, toTrigger; cbn; try done; by apply wf_queueClose.
  - destruct (isVisible s); [|done]. by apply wf_focusTrigger, wf_hide.
  - destruct (type s); [done|]. by apply wf_focusTrigger, wf_hide.
  - destruct (type s); [done|]. by apply wf_hide.
  - destruct (_ && _); [by apply wf_hide | done].
  - destruct (pending s !! id) as [[cb d]|] eqn:E; [|done].
    by eapply wf_timer.
  - destruct (frames s) eqn:E; [done|].
    by destruct Hwf as ((Ha & He & Hv & Hh) & (Hf & Ho & Hc)).
  - by apply wf_show.
  - by apply wf_hide.
  - by apply wf_destroy.
Qed.

Lemma wf_run evs s : wf s → wf (run evs s).
Proof.
  revert s. unfold run.
  induction evs as [|ev evs IH]; intros s Hwf; cbn [fold_left]; [done|].
  by apply IH, wf_fire.
Qed.

Lemma wf_new ty opts : wf (new ty opts).
Proof.
  split; [split_and!|split_and!]; cbn; done.
Qed.

Lemma hide_not_visible s : isVisible (hide s) = false.
Proof. unfold hide. by destruct (isVisible s) eqn:E; cbn. Qed.

Lemma orphan_clearOpen id s : orphan id s → orphan id (_clearOpenTimer s).
Proof.
  intros ((d & Hid) & Ho & Hc & Hlt).
  destruct (clearOpen_fields s) as (Eo & Ec & En & _ & _ & _ & _ & _ & _ & _ & Ep).
  split_and!; rewrite ?Eo, ?Ec, ?En, ?Ep; try done.
  exists d. destruct (timers_open s) as [o|]; [|done].
  rewrite lookup_delete_ne; [done|]. congruence.
Qed.

Lemma orphan_clearClose id s : orphan id s → orphan id (_clearCloseTimer s).
Proof.
  intros ((d & Hid) & Ho & Hc & Hlt).
  destruct (clearClose_fields s) as (Ec & Eo & En & _ & _ & _ & _ & _ & _ & _ & Ep).
  split_and!; rewrite ?Eo, ?Ec, ?En, ?Ep; try done.
  exists d. destruct (timers_close s) as [c|]; [|done].
  rewrite lookup_delete_ne; [done|]. congruence.
Qed.

Lemma orphan_show id s : orphan id s → orphan id (show s).
Proof. intros H. unfold show. by destruct (isVisible s). Qed.

Lemma orphan_hide id s : orphan id s → orphan id (hide s).
Proof.
  intros H. unfold hide. destruct (isVisible s); cbn [negb]; [|done].
  apply orphan_clearOpen, orphan_clearClose in H.
  destruct H as ((d & Hid) & Ho & Hc & Hlt).
  split_and!; cbn; try done; [|lia].
  exists d. rewrite lookup_insert_ne; [done|]. lia.
Qed.

Lemma orphan_open id s : orphan id s → orphan id (_open s).
Proof. intros H. by apply orphan_show, orphan_clearClose, orphan_clearOpen. Qed.

Lemma orphan_queueOpen id s : orphan id s → orphan id (_queueOpen s).
Proof.
  intros H. unfold _queueOpen. apply orphan_clearClose in H.
  destruct H as ((d & Hid) & Ho & Hc & Hlt).
  split_and!; cbn; try done.
  - exists d. rewrite lookup_insert_ne; [done|]. lia.
  - intros [= E]. lia.
  - lia.
Qed.

Lemma orphan_queueClose id s : orphan id s → orphan id (_queueClose s).
Proof.
  intros H. unfold _queueClose. apply orphan_clearOpen in H.
  destruct H as ((d & Hid) & Ho & Hc & Hlt).
  split_and!; cbn; try done.
  - exists d. rewrite lookup_insert_ne; [done|]. lia.
  - intros [= E]. lia.
  - lia.
Qed.

Lemma orphan_fire id ev s :
  ev ≠ TimerFires id → orphan id s → orphan id (fire ev s).
Proof.
  intros Hev H. destruct ev; cbn [fire].
  - by apply orphan_queueOpen.
  - by apply orphan_queueClose.
  - by apply orphan_open.
  - destruct intoContainer; cbn; [done | by apply orphan_queueClose].
  - by apply orphan_clearClose.
  - by apply orphan_queueClose.
  - destruct intoContainer, toTrigger; cbn; try done; by apply orphan_queueClose.
  - destruct (isVisible s); [|done].
    destruct focusMoves; cbn; [apply orphan_open|]; by apply orphan_hide.
  - destruct (type s); [done|].
    destruct focusMoves; cbn; [apply orphan_open|]; by apply orphan_hide.
  - destruct (type s); [done|]. by apply orphan_hide.
  - destruct (_ && _); [by apply orphan_hide | done].
  - destruct (pending s !! id0) as [[cb d]|] eqn:E; [|done].
    assert (id0 ≠ id) as Hne by congruence.
    assert (orphan id (set_pending (delete id0 (pending s)) s)) as H'.
    { destruct H as ((d' & Hid) & Ho & Hc & Hlt).
      split_and!; cbn; try done. exists d'. by rewrite lookup_delete_ne. }
    destruct cb; cbn [runCallback].
    + by apply orphan_open.
    + by apply orphan_hide.
    + by destruct (negb _).
  - by destruct (frames s).
  - by apply orphan_show.
  - by apply orphan_hide.
  - unfold destroy.
    by apply orphan_clearOpen, orphan_clearClose in H.
Qed.

Lemma orphan_run id evs s :
  Forall (λ ev, ev ≠ TimerFires id) evs → orphan id s → orphan id (run evs s).
Proof.
  revert s. unfold run.
  induction evs as [|ev evs IH]; intros s Hevs H; cbn [fold_left]; [done|].
  inversion Hevs as [|? ? Hev Hrest]; subst.
  by apply IH, orphan_fire.
Qed.

Lemma queueClose_fields s :
  timers_open (_queueClose s) = None ∧
  timers_close (_queueClose s) = Some (nextHandle s) ∧
  nextHandle (_queueClose s) = S (nextHandle s) ∧
  pending (_queueClose s)
    = <[nextHandle s := (RunHide, hoverDelayClose (options s))]>
        (pending (_clearOpenTimer s)).
Proof.
  destruct (clearOpen_fields s)
    as (Eo & Ec & En & _ & _ & _ & _ & _ & Eopt & _ & Ep).
  unfold _queueClose. cbn. by rewrite Eo, En, Eopt.
Qed.

Lemma orphan_after_two_closes s :
  orphan (nextHandle s) (_queueClose (_queueClose s)).
Proof.
  destruct (queueClose_fields s) as (Eo1 & Ec1 & En1 & Ep1).
  destruct (queueClose_fields (_queueClose s)) as (Eo2 & Ec2 & En2 & Ep2).
  destruct (clearOpen_fields (_queueClose s))
    as (_ & _ & _ & _ & _ & _ & _ & _ & _ & _ & Ep).
  rewrite Eo1 in Ep. rewrite Ep, Ep1, En1 in Ep2. rewrite En1 in Ec2, En2.
  split_and!.
  - eexists. rewrite Ep2. rewrite lookup_insert_ne by lia.
    apply lookup_insert_eq.
  - by rewrite Eo2.
  - rewrite Ec2. intros [= E]. lia.
  - rewrite En2. lia.
Qed.

End HoverModalFacts.

Section HoverSteps.

Import HoverModal.

Lemma run_cons ev evs s : run (ev :: evs) s = run evs (fire ev s).
Proof. reflexivity. Qed.

Lemma run_nil s : run [] s = s.
Proof. reflexivity. Qed.

Variables (ty : ModalType) (o : ModalOptions) (ah ae sc ip : bool)
  (tc : option nat) (n : nat).

Lemma clearClose_at_rest :
  _clearCloseTimer (mk ty o false true ah ae sc ip None tc ∅ n 0)
  = mk ty o false true ah ae sc ip None None ∅ n 0.
Proof.
  unfold _clearCloseTimer. destruct tc as [c|]; cbn; [|done].
  unfold clearTimeout, set_pending, set_timers_close. cbn.
  by rewrite delete_empty.
Qed.

Lemma hover_enter :
  fire TriggerMouseEnter (mk ty o false true ah ae sc ip None tc ∅ n 0)
  = mk ty o false true ah ae sc ip (Some n) None
       {[n := (RunOpen, hoverDelayOpen o)]} (S n) 0.
Proof.
  cbn [fire]. unfold _queueOpen. rewrite clearClose_at_rest. done.
Qed.

Lemma hover_open_due :
  fire (TimerFires n)
    (mk ty o false true ah ae sc ip (Some n) None
        {[n := (RunOpen, hoverDelayOpen o)]} (S n) 0)
  = mk ty o true false false true sc ip None None ∅ (S n) 1.
Proof.
  cbn [fire pending]. rewrite lookup_singleton_eq. cbn.
  by rewrite ?delete_singleton_eq, ?delete_empty.
Qed.

Lemma hover_frame :
  fire AnimationFrame (mk ty o true false false true sc ip None None ∅ (S n) 1)
  = mk ty o true false false true true ip None None ∅ (S n) 0.
Proof. done. Qed.

Lemma hover_leave :
  fire TriggerMouseLeave
    (mk ty o true false false true true ip None None ∅ (S n) 0)
  = mk ty o true false false true true ip None (Some (S n))
       {[S n := (RunHide, hoverDelayClose o)]} (S (S n)) 0.
Proof. done. Qed.

Lemma hover_close_due :
  fire (TimerFires (S n))
    (mk ty o true false false true true ip None (Some (S n))
        {[S n := (RunHide, hoverDelayClose o)]} (S (S n)) 0)
  = mk ty o false false true false false ip None None
       {[S (S n) := (FinishHide, 200)]} (S (S (S n))) 0.
Proof.
  cbn [fire pending]. rewrite lookup_singleton_eq. cbn.
  by rewrite ?delete_singleton_eq, ?delete_empty.
Qed.

Lemma hover_hidden_due :
  fire (TimerFires (S (S n)))
    (mk ty o false false true false false ip None None
        {[S (S n) := (FinishHide, 200)]} (S (S (S n))) 0)
  = mk ty o false true true false false ip None None ∅ (S (S (S n))) 0.
Proof.
  cbn [fire pending]. rewrite lookup_singleton_eq. cbn.
  by rewrite ?delete_singleton_eq, ?delete_empty.
Qed.

Lemma hover_leave_early :
  fire TriggerMouseLeave
    (mk ty o false true ah ae sc ip (Some n) None
        {[n := (RunOpen, hoverDelayOpen o)]} (S n) 0)
  = mk ty o false true ah ae sc ip None (Some (S n))
       {[S n := (RunHide, hoverDelayClose o)]} (S (S n)) 0.
Proof.
  cbn. by rewrite ?delete_singleton_eq, ?delete_empty.
Qed.

Lemma hover_close_due_early :
  fire (TimerFires (S n))
    (mk ty o false true ah ae sc ip None (Some (S n))
        {[S n := (RunHide, hoverDelayClose o)]} (S (S n)) 0)
  = mk ty o false true ah ae sc ip None (Some (S n)) ∅ (S (S n)) 0.
Proof.
  cbn [fire pending]. rewrite lookup_singleton_eq. cbn.
  by rewrite ?delete_singleton_eq, ?delete_empty.
Qed.

Lemma hover_long :
  run (longHover n) (mk ty o false true ah ae sc ip None tc ∅ n 0)
  = mk ty o false true true false false ip None None ∅ (3 + n) 0.
Proof.
  unfold longHover. rewrite !run_cons, run_nil.
  by rewrite hover_enter, hover_open_due, hover_frame, hover_leave,
    hover_close_due, hover_hidden_due.
Qed.

Lemma hover_long_open :
  run [TriggerMouseEnter; TimerFires n]
    (mk ty o false true ah ae sc ip None tc ∅ n 0)
  = mk ty o true false false true sc ip None None ∅ (S n) 1.
Proof. rewrite !run_cons, run_nil. by rewrite hover_enter, hover_open_due. Qed.

Lemma hover_short k :
  ∃ to' tc' p' n',
    run (take k (shortHover n)) (mk ty o false true ah ae sc ip None tc ∅ n 0)
    = mk ty o false true ah ae sc ip to' tc' p' n' 0 ∧
    (3 ≤ k → to' = None ∧ p' = ∅)%nat.
Proof.
  unfold shortHover. destruct k as [|[|[|k]]]; cbn [take].
  - rewrite run_nil. eexists _, _, _, _. split; [done|lia].
  - rewrite !run_cons, run_nil, hover_enter.
    eexists _, _, _, _. split; [done|lia].
  - rewrite !run_cons, run_nil, hover_enter, hover_leave_early.
    eexists _, _, _, _. split; [done|lia].
  - rewrite take_nil, !run_cons, run_nil, hover_enter, hover_leave_early,
      hover_close_due_early.
    eexists _, _, _, _. split; [done|done].
Qed.

End HoverSteps.


(** X23 — the attributes follow the flag: whatever events reach a modal
    after its construction, [aria-hidden] on the container is the negation
    of [isVisible], [aria-expanded] on the trigger equals it, a visible
    modal is not [hidden], and a closed modal that is not yet [hidden] has
    the timeout of [hide] pending that will hide it. *)
Theorem modal_attributes_follow_visibility
    (ty : HoverModal.ModalType) (opts : HoverModal.PartialOptions)
    (evs : list HoverModal.Event) :
  HoverModal.in_sync (HoverModal.run evs (HoverModal.new ty opts)).
Proof. apply wf_run, wf_new. Qed.

(** X24 — the timer handles stay meaningful: whatever events reach a modal
    after its construction, every pending timeout has a handle below the
    next one, [timers.open], when set, names a pending [_open] timeout, and
    [timers.close], when set, names a pending [hide] timeout or one that
    has already fired. *)
Theorem modal_handles_stay_live
    (ty : HoverModal.ModalType) (opts : HoverModal.PartialOptions)
    (evs : list HoverModal.Event) :
  HoverModal.handles_ok (HoverModal.run evs (HoverModal.new ty opts)).
Proof. apply wf_run, wf_new. Qed.

(** X25 — a close timeout whose handle was overwritten cannot be
    cancelled: [_queueClose] stores the new handle without clearing the old
    one, so when the pointer leaves the trigger and the focus then leaves
    it too, the first timeout stays pending through every later event
    (mouse back on the modal, focus, [show], [destroy], other timeouts)
    until it fires, and when it fires the modal is closed. *)
Theorem overwritten_close_timer_still_fires
    (s : HoverModal.t) (evs : list HoverModal.Event) :
  Forall (λ ev, ev ≠ HoverModal.TimerFires (HoverModal.nextHandle s)) evs →
  HoverModal.orphan (HoverModal.nextHandle s)
    (HoverModal.run
       (HoverModal.TriggerMouseLeave :: HoverModal.TriggerFocusOut false :: evs)
       s) ∧
  HoverModal.isVisible
    (HoverModal.run
       (HoverModal.TriggerMouseLeave :: HoverModal.TriggerFocusOut false
          :: evs ++ [HoverModal.TimerFires (HoverModal.nextHandle s)])
       s) = false.
Proof.
  intros Hevs.
  assert (HoverModal.orphan (HoverModal.nextHandle s)
            (HoverModal.run
               (HoverModal.TriggerMouseLeave
                  :: HoverModal.TriggerFocusOut false :: evs) s)) as Horphan.
  { unfold HoverModal.run. cbn [fold_left HoverModal.fire negb].
    apply orphan_run; [done|]. apply orphan_after_two_closes. }
  split; [done|].
  change (HoverModal.TriggerMouseLeave :: HoverModal.TriggerFocusOut false
            :: evs ++ [HoverModal.TimerFires (HoverModal.nextHandle s)])
    with ((HoverModal.TriggerMouseLeave :: HoverModal.TriggerFocusOut false
             :: evs) ++ [HoverModal.TimerFires (HoverModal.nextHandle s)]).
  unfold HoverModal.run in *. rewrite fold_left_app.
  destruct Horphan as ((d & Hid) & _).
  set (s' := fold_left _ (_ :: _ :: evs) s) in *.
  cbn [fold_left HoverModal.fire]. rewrite Hid. cbn [HoverModal.runCallback].
  apply hide_not_visible.
Qed.

Lemma overwritten_close_timer_still_fires_witness :
  HoverModal.orphan
    (HoverModal.nextHandle
       (HoverModal.fire HoverModal.TriggerFocusIn
          (HoverModal.new HoverModal.profile HoverModal.noOptions)))
    (HoverModal.run
       (HoverModal.TriggerMouseLeave :: HoverModal.TriggerFocusOut false
          :: [HoverModal.ContainerMouseEnter])
       (HoverModal.fire HoverModal.TriggerFocusIn
          (HoverModal.new HoverModal.profile HoverModal.noOptions))) ∧
  HoverModal.isVisible
    (HoverModal.run
       (HoverModal.TriggerMouseLeave :: HoverModal.TriggerFocusOut false
          :: [HoverModal.ContainerMouseEnter]
             ++ [HoverModal.TimerFires
                   (HoverModal.nextHandle
                      (HoverModal.fire HoverModal.TriggerFocusIn
                         (HoverModal.new HoverModal.profile
                            HoverModal.noOptions)))])
       (HoverModal.fire HoverModal.TriggerFocusIn
          (HoverModal.new HoverModal.profile HoverModal.noOptions)))
  = false.
Proof.
  assert (Forall
            (λ ev, ev ≠ HoverModal.TimerFires
                          (HoverModal.nextHandle
                             (HoverModal.fire HoverModal.TriggerFocusIn
                                (HoverModal.new HoverModal.profile
                                   HoverModal.noOptions))))
            [HoverModal.ContainerMouseEnter]) as Hevs.
  { constructor; [discriminate | constructor]. }
  exact (overwritten_close_timer_still_fires _ _ Hevs).
Defined.

(** X26 — a hover leaves the modal as it found it: from a closed, hidden
    modal with nothing scheduled, entering the trigger and waiting for the
    open timeout shows the modal; leaving and letting the close timeout and
    the timeout of [hide] run returns it to the closed rest state, with the
    closed attributes and no timer left.  A hover that ends before the open
    delay never shows the modal and also ends at rest. *)
Theorem hover_returns_to_rest (s : HoverModal.t) :
  HoverModal.at_rest s →
  HoverModal.isVisible
    (HoverModal.run
       [HoverModal.TriggerMouseEnter;
        HoverModal.TimerFires (HoverModal.nextHandle s)] s) = true ∧
  HoverModal.run (HoverModal.longHover (HoverModal.nextHandle s)) s
    = HoverModal.mk (HoverModal.type s) (HoverModal.options s)
        false true true false false (HoverModal.inPortal s) None None ∅
        (3 + HoverModal.nextHandle s) 0 ∧
  (∀ k, HoverModal.isVisible
          (HoverModal.run
             (take k (HoverModal.shortHover (HoverModal.nextHandle s))) s)
        = false) ∧
  HoverModal.at_rest
    (HoverModal.run (HoverModal.shortHover (HoverModal.nextHandle s)) s).
Proof.
  intros (Hv & Hh & Ho & Hp & Hf).
  destruct s as [ty o v h ah ae sc ip to tc p n f].
  cbn [HoverModal.isVisible HoverModal.hidden HoverModal.timers_open
         HoverModal.pending HoverModal.frames HoverModal.nextHandle
         HoverModal.type HoverModal.options HoverModal.inPortal] in *.
  subst v h to p f.
  split; [|split; [|split]].
  - by rewrite hover_long_open.
  - apply hover_long.
  - intros k.
    destruct (hover_short ty o ah ae sc ip tc n k)
      as (to' & tc' & p' & n' & -> & _).
    done.
  - destruct (hover_short ty o ah ae sc ip tc n 3)
      as (to' & tc' & p' & n' & E & H).
    change (take 3 (HoverModal.shortHover n)) with (HoverModal.shortHover n) in E.
    rewrite E. destruct H as [-> ->]; [lia|]. by split_and!.
Qed.

Lemma hover_returns_to_rest_witness :
  HoverModal.isVisible
    (HoverModal.run
       [HoverModal.TriggerMouseEnter;
        HoverModal.TimerFires
          (HoverModal.nextHandle
             (HoverModal.new HoverModal.notifications HoverModal.noOptions))]
       (HoverModal.new HoverModal.notifications HoverModal.noOptions))
  = true ∧
  HoverModal.at_rest
    (HoverModal.run
       (HoverModal.shortHover
          (HoverModal.nextHandle
             (HoverModal.new HoverModal.notifications HoverModal.noOptions)))
       (HoverModal.new HoverModal.notifications HoverModal.noOptions)).
Proof.
  assert (HoverModal.at_rest
            (HoverModal.new HoverModal.notifications HoverModal.noOptions))
    as Hrest by (split_and!; reflexivity).
  destruct (hover_returns_to_rest _ Hrest) as (Hopen & _ & _ & Hshort).
  split; [exact Hopen | exact Hshort].
Defined.
